(** * The ACT processor of x11-calc: a shallow embedding of x11-calc-cpu.c

    The processor simulator of x11-calc ([src/x11-calc-cpu.c]) is embedded as
    state-passing functions over a record [oprocessor].  C [int]s are
    modelled as [Z]; arrays as lists read and written through [arr_get] and
    [arr_set]; the loops over a register field as structural recursion on
    the number of iterations.  Error messages printed by [v_error]
    ([src/x11-calc.c]) are collected in the field [errlog]; the trace
    printed on stdout when [flags[TRACE]] is set changes no state and is
    left out. *)

From stdpp Require Import base numbers list.

Local Open Scope Z_scope.

(** ** Constants *)

(** Modelled from the spec: the header x11-calc-cpu.h that defines REG_SIZE
    is not part of the sources; the spec fixes the register width to
    N = 14 nibbles (so does the head comment of x11-calc-cpu.c). *)
Definition REG_SIZE : Z := 14.

(** Modelled from the spec: EXP_SIZE is defined in the missing header
    x11-calc-cpu.h; the spec's field table gives M = [3..=12] and
    XS = [2..=2] where the source has [first = EXP_SIZE] and
    [first = EXP_SIZE - 1], hence EXP_SIZE = 3 (two exponent digits and the
    exponent sign). *)
Definition EXP_SIZE : Z := 3.

(** Modelled from the spec: the register indices of the missing header
    x11-calc-cpu.h, in the order of the spec's register file
    A,B,C,Y,Z,T,M,N (the order of [c_name] in [v_reg_fprint]). *)
Definition A_REG : Z := 0.
Definition B_REG : Z := 1.
Definition C_REG : Z := 2.
Definition Y_REG : Z := 3.
Definition Z_REG : Z := 4.
Definition T_REG : Z := 5.
Definition M_REG : Z := 6.
Definition N_REG : Z := 7.

(** x11-calc-32.h: [#define ROM_SIZE 07000] and [#define ROM_BANKS 1]. *)
Definition ROM_SIZE : Z := 3584.
Definition ROM_BANKS : Z := 1.

(** ** Arrays *)

(** C array read [a[i]].  An access outside the array is undefined in C;
    the model reads 0 there. *)
Definition arr_get (a : list Z) (i : Z) : Z :=
  if bool_decide (0 ≤ i) then default 0 (a !! Z.to_nat i) else 0.

(** C array write [a[i] = v].  A write outside the array is undefined in
    C; the model drops it. *)
Definition arr_set (a : list Z) (i : Z) (v : Z) : list Z :=
  if bool_decide (0 ≤ i) then <[Z.to_nat i := v]> a else a.

(** ** Data model *)

(** [oregister]: an identifier and REG_SIZE nibbles, nibble 0 the least
    significant. *)
Record oregister : Type := mk_register {
  id : Z;
  nibble : list Z
}.

(** The processor flags used by the simulator ([flags[MODE]],
    [flags[CARRY]], ...). *)
Record oflags : Type := mk_flags {
  MODE : Z;
  CARRY : Z;
  PREV_CARRY : Z;
  DELAYED_ROM : Z;
  DISPLAY_ENABLE : Z;
  TRACE : Z
}.

(** What [v_error] prints on stderr; the last component is the source line
    of the call. *)
Inductive message : Type :=
  | Unexpected_opcode (i_opcode rom_number pc line : Z)
  | Unexpected_error (line : Z)
  | Address_out_of_range (address line : Z).

(** [oprocessor].  STACK_SIZE, DATA_REGISTERS and the number of status
    bits are the lengths of [stack], [ram] and [status]; [rom] is the
    memory behind the pointer [h_processor->rom]. *)
Record oprocessor : Type := mk_processor {
  reg : list oregister;
  ram : list oregister;
  rom : Z → Z;
  stack : list Z;
  status : list Z;
  flags : oflags;
  pc : Z;
  sp : Z;
  p : Z;
  f : Z;
  first : Z;
  last : Z;
  base : Z;
  keycode : Z;
  keydown : Z;
  address : Z;
  rom_number : Z;
  delayed_rom_number : Z;
  errlog : list message
}.

Definition STACK_SIZE (h : oprocessor) : Z := Z.of_nat (length (stack h)).

(** *** Field updates *)

Definition set_reg (h : oprocessor) (v : list oregister) : oprocessor :=
  mk_processor v (ram h) (rom h) (stack h) (status h) (flags h) (pc h) (sp h)
    (p h) (f h) (first h) (last h) (base h) (keycode h) (keydown h)
    (address h) (rom_number h) (delayed_rom_number h) (errlog h).

Definition set_ram (h : oprocessor) (v : list oregister) : oprocessor :=
  mk_processor (reg h) v (rom h) (stack h) (status h) (flags h) (pc h) (sp h)
    (p h) (f h) (first h) (last h) (base h) (keycode h) (keydown h)
    (address h) (rom_number h) (delayed_rom_number h) (errlog h).

Definition set_stack (h : oprocessor) (v : list Z) : oprocessor :=
  mk_processor (reg h) (ram h) (rom h) v (status h) (flags h) (pc h) (sp h)
    (p h) (f h) (first h) (last h) (base h) (keycode h) (keydown h)
    (address h) (rom_number h) (delayed_rom_number h) (errlog h).

Definition set_status (h : oprocessor) (v : list Z) : oprocessor :=
  mk_processor (reg h) (ram h) (rom h) (stack h) v (flags h) (pc h) (sp h)
    (p h) (f h) (first h) (last h) (base h) (keycode h) (keydown h)
    (address h) (rom_number h) (delayed_rom_number h) (errlog h).

Definition set_flags (h : oprocessor) (v : oflags) : oprocessor :=
  mk_processor (reg h) (ram h) (rom h) (stack h) (status h) v (pc h) (sp h)
    (p h) (f h) (first h) (last h) (base h) (keycode h) (keydown h)
    (address h) (rom_number h) (delayed_rom_number h) (errlog h).

Definition set_pc (h : oprocessor) (v : Z) : oprocessor :=
  mk_processor (reg h) (ram h) (rom h) (stack h) (status h) (flags h) v (sp h)
    (p h) (f h) (first h) (last h) (base h) (keycode h) (keydown h)
    (address h) (rom_number h) (delayed_rom_number h) (errlog h).

Definition set_sp (h : oprocessor) (v : Z) : oprocessor :=
  mk_processor (reg h) (ram h) (rom h) (stack h) (status h) (flags h) (pc h) v
    (p h) (f h) (first h) (last h) (base h) (keycode h) (keydown h)
    (address h) (rom_number h) (delayed_rom_number h) (errlog h).

Definition set_p (h : oprocessor) (v : Z) : oprocessor :=
  mk_processor (reg h) (ram h) (rom h) (stack h) (status h) (flags h) (pc h)
    (sp h) v (f h) (first h) (last h) (base h) (keycode h) (keydown h)
    (address h) (rom_number h) (delayed_rom_number h) (errlog h).

Definition set_f (h : oprocessor) (v : Z) : oprocessor :=
  mk_processor (reg h) (ram h) (rom h) (stack h) (status h) (flags h) (pc h)
    (sp h) (p h) v (first h) (last h) (base h) (keycode h) (keydown h)
    (address h) (rom_number h) (delayed_rom_number h) (errlog h).

Definition set_first (h : oprocessor) (v : Z) : oprocessor :=
  mk_processor (reg h) (ram h) (rom h) (stack h) (status h) (flags h) (pc h)
    (sp h) (p h) (f h) v (last h) (base h) (keycode h) (keydown h)
    (address h) (rom_number h) (delayed_rom_number h) (errlog h).

Definition set_last (h : oprocessor) (v : Z) : oprocessor :=
  mk_processor (reg h) (ram h) (rom h) (stack h) (status h) (flags h) (pc h)
    (sp h) (p h) (f h) (first h) v (base h) (keycode h) (keydown h)
    (address h) (rom_number h) (delayed_rom_number h) (errlog h).

Definition set_base (h : oprocessor) (v : Z) : oprocessor :=
  mk_processor (reg h) (ram h) (rom h) (stack h) (status h) (flags h) (pc h)
    (sp h) (p h) (f h) (first h) (last h) v (keycode h) (keydown h)
    (address h) (rom_number h) (delayed_rom_number h) (errlog h).

Definition set_address (h : oprocessor) (v : Z) : oprocessor :=
  mk_processor (reg h) (ram h) (rom h) (stack h) (status h) (flags h) (pc h)
    (sp h) (p h) (f h) (first h) (last h) (base h) (keycode h) (keydown h)
    v (rom_number h) (delayed_rom_number h) (errlog h).

Definition set_delayed_rom_number (h : oprocessor) (v : Z) : oprocessor :=
  mk_processor (reg h) (ram h) (rom h) (stack h) (status h) (flags h) (pc h)
    (sp h) (p h) (f h) (first h) (last h) (base h) (keycode h) (keydown h)
    (address h) (rom_number h) v (errlog h).

Definition set_errlog (h : oprocessor) (v : list message) : oprocessor :=
  mk_processor (reg h) (ram h) (rom h) (stack h) (status h) (flags h) (pc h)
    (sp h) (p h) (f h) (first h) (last h) (base h) (keycode h) (keydown h)
    (address h) (rom_number h) (delayed_rom_number h) v.

Definition set_CARRY (h : oprocessor) (v : Z) : oprocessor :=
  set_flags h (mk_flags (MODE (flags h)) v (PREV_CARRY (flags h))
    (DELAYED_ROM (flags h)) (DISPLAY_ENABLE (flags h)) (TRACE (flags h))).

Definition set_PREV_CARRY (h : oprocessor) (v : Z) : oprocessor :=
  set_flags h (mk_flags (MODE (flags h)) (CARRY (flags h)) v
    (DELAYED_ROM (flags h)) (DISPLAY_ENABLE (flags h)) (TRACE (flags h))).

Definition set_DELAYED_ROM (h : oprocessor) (v : Z) : oprocessor :=
  set_flags h (mk_flags (MODE (flags h)) (CARRY (flags h))
    (PREV_CARRY (flags h)) v (DISPLAY_ENABLE (flags h)) (TRACE (flags h))).

Definition set_DISPLAY_ENABLE (h : oprocessor) (v : Z) : oprocessor :=
  set_flags h (mk_flags (MODE (flags h)) (CARRY (flags h))
    (PREV_CARRY (flags h)) (DELAYED_ROM (flags h)) v (TRACE (flags h))).

(** [v_error] (x11-calc.c) formats its arguments on stderr and returns to
    its caller. *)
Definition v_error (h : oprocessor) (m : message) : oprocessor :=
  set_errlog h (errlog h ++ [m]).

(** *** Registers behind pointers *)

(** An [oregister *] handed to a register operation: an entry of [reg] or
    of [ram]; the operations take [option regptr] where the source accepts
    NULL. *)
Inductive regptr : Type :=
  | REG (i : Z)
  | RAM (i : Z).

Definition no_register : oregister := mk_register 0 [].

Definition reg_file_get (l : list oregister) (i : Z) : oregister :=
  if bool_decide (0 ≤ i) then default no_register (l !! Z.to_nat i)
  else no_register.

Definition reg_file_set (l : list oregister) (i : Z) (r : oregister)
  : list oregister :=
  if bool_decide (0 ≤ i) then <[Z.to_nat i := r]> l else l.

Definition deref (h : oprocessor) (r : regptr) : oregister :=
  match r with
  | REG i => reg_file_get (reg h) i
  | RAM i => reg_file_get (ram h) i
  end.

(** [r->nibble[i]] *)
Definition get_nibble (h : oprocessor) (r : regptr) (i : Z) : Z :=
  arr_get (nibble (deref h r)) i.

(** [r->nibble[i] = v] *)
Definition set_nibble (h : oprocessor) (r : regptr) (i v : Z) : oprocessor :=
  let o := deref h r in
  let o' := mk_register (id o) (arr_set (nibble o) i v) in
  match r with
  | REG k => set_reg h (reg_file_set (reg h) k o')
  | RAM k => set_ram h (reg_file_set (ram h) k o')
  end.

(** The nibble of a possibly NULL source: [if (h_source != NULL) i_temp =
    h_source->nibble[i_count]; else i_temp = 0;] *)
Definition nibble_or_zero (h : oprocessor) (r : option regptr) (i : Z) : Z :=
  match r with
  | Some r => get_nibble h r i
  | None => 0
  end.

(** ** Loops *)

(** [for (i = lo; ...; i++) body], run for [n] iterations.  No loop body
    of the simulator writes the bounds [first] and [last] it is run
    between, so the number of iterations is fixed on entry. *)
Fixpoint for_up {St : Type} (n : nat) (i : Z) (body : Z → St → St) (s : St)
  : St :=
  match n with
  | O => s
  | S n' => for_up n' (i + 1) body (body i s)
  end.

(** [for (i = hi; ...; i--) body], run for [n] iterations. *)
Fixpoint for_down {St : Type} (n : nat) (i : Z) (body : Z → St → St) (s : St)
  : St :=
  match n with
  | O => s
  | S n' => for_down n' (i - 1) body (body i s)
  end.

(** Number of iterations of [for (i = lo; i <= hi; i++)]. *)
Definition trip_count (lo hi : Z) : nat := Z.to_nat (hi - lo + 1).

(** ** Register operations *)

(** [v_reg_exch] *)
Definition v_reg_exch (h : oprocessor) (h_destination h_source : regptr)
  : oprocessor :=
  for_up (trip_count (first h) (last h)) (first h)
    (fun i_count h =>
       let i_temp := get_nibble h h_destination i_count in
       let h := set_nibble h h_destination i_count
                  (get_nibble h h_source i_count) in
       set_nibble h h_source i_count i_temp) h.

(** [v_reg_copy] *)
Definition v_reg_copy (h : oprocessor) (h_destination : regptr)
  (h_source : option regptr) : oprocessor :=
  for_up (trip_count (first h) (last h)) (first h)
    (fun i_count h =>
       let i_temp := nibble_or_zero h h_source i_count in
       set_nibble h h_destination i_count i_temp) h.

(** [v_reg_add] *)
Definition v_reg_add (h : oprocessor) (h_destination : option regptr)
  (h_source : regptr) (h_argument : option regptr) : oprocessor :=
  for_up (trip_count (first h) (last h)) (first h)
    (fun i_count h =>
       let i_temp := nibble_or_zero h h_argument i_count in
       let i_temp := get_nibble h h_source i_count + i_temp + CARRY (flags h) in
       let '(i_temp, h) :=
         if bool_decide (base h ≤ i_temp)
         then (i_temp - base h, set_CARRY h 1)
         else (i_temp, set_CARRY h 0) in
       match h_destination with
       | Some d => set_nibble h d i_count i_temp
       | None => h
       end) h.

(** [v_reg_sub] *)
Definition v_reg_sub (h : oprocessor) (h_destination : option regptr)
  (h_source : option regptr) (h_argument : option regptr) : oprocessor :=
  for_up (trip_count (first h) (last h)) (first h)
    (fun i_count h =>
       let i_temp := nibble_or_zero h h_argument i_count in
       let i_temp :=
         match h_source with
         | Some s => get_nibble h s i_count - i_temp
         | None => 0 - i_temp
         end in
       let i_temp := i_temp - CARRY (flags h) in
       let '(i_temp, h) :=
         if bool_decide (i_temp < 0)
         then (i_temp + base h, set_CARRY h 1)
         else (i_temp, set_CARRY h 0) in
       match h_destination with
       | Some d => set_nibble h d i_count i_temp
       | None => h
       end) h.

(** The loop of [v_reg_test_eq]; leaving the recursion is the [break]. *)
Fixpoint v_reg_test_eq_loop (n : nat) (i_count : Z) (h : oprocessor)
  (h_destination : regptr) (h_source : option regptr) : oprocessor :=
  match n with
  | O => h
  | S n' =>
      let i_temp := nibble_or_zero h h_source i_count in
      if bool_decide (get_nibble h h_destination i_count ≠ i_temp)
      then set_CARRY h 1
      else v_reg_test_eq_loop n' (i_count + 1) h h_destination h_source
  end.

(** [v_reg_test_eq] *)
Definition v_reg_test_eq (h : oprocessor) (h_destination : regptr)
  (h_source : option regptr) : oprocessor :=
  let h := set_CARRY h 0 in
  v_reg_test_eq_loop (trip_count (first h) (last h)) (first h) h
    h_destination h_source.

(** The loop of [v_reg_test_ne]. *)
Fixpoint v_reg_test_ne_loop (n : nat) (i_count : Z) (h : oprocessor)
  (h_destination : regptr) (h_source : option regptr) : oprocessor :=
  match n with
  | O => h
  | S n' =>
      let i_temp := nibble_or_zero h h_source i_count in
      if bool_decide (get_nibble h h_destination i_count ≠ i_temp)
      then set_CARRY h 0
      else v_reg_test_ne_loop n' (i_count + 1) h h_destination h_source
  end.

(** [v_reg_test_ne] *)
Definition v_reg_test_ne (h : oprocessor) (h_destination : regptr)
  (h_source : option regptr) : oprocessor :=
  let h := set_CARRY h 1 in
  v_reg_test_ne_loop (trip_count (first h) (last h)) (first h) h
    h_destination h_source.

(** [v_reg_inc] *)
Definition v_reg_inc (h : oprocessor) (h_register : regptr) : oprocessor :=
  let h := set_CARRY h 1 in
  v_reg_add h (Some h_register) h_register None.

(** [v_reg_shr] *)
Definition v_reg_shr (h : oprocessor) (h_register : regptr) : oprocessor :=
  let h := set_CARRY h 0 in
  for_up (trip_count (first h) (last h)) (first h)
    (fun i_count h =>
       if bool_decide (i_count = last h)
       then set_nibble h h_register i_count 0
       else set_nibble h h_register i_count
              (get_nibble h h_register (i_count + 1))) h.

(** [v_reg_shl] *)
Definition v_reg_shl (h : oprocessor) (h_register : regptr) : oprocessor :=
  let h :=
    for_down (trip_count (first h) (last h)) (last h)
      (fun i_count h =>
         if bool_decide (i_count = first h)
         then set_nibble h h_register i_count 0
         else set_nibble h h_register i_count
                (get_nibble h h_register (i_count - 1))) h in
  set_PREV_CARRY (set_CARRY h 0) 0.

(** ** Processor operations *)

(** [v_processor_clear_registers]; REGISTERS is the length of [reg]. *)
Definition v_processor_clear_registers (h : oprocessor) : oprocessor :=
  let h := set_last (set_first h 0) (REG_SIZE - 1) in
  let h := for_up (length (reg h)) 0
             (fun i_count h => v_reg_copy h (REG i_count) None) h in
  for_up (length (stack h)) 0
    (fun i_count h => set_stack h (arr_set (stack h) i_count 0)) h.

(** [v_processor_clear_data_registers]; DATA_REGISTERS is the length of
    [ram]. *)
Definition v_processor_clear_data_registers (h : oprocessor) : oprocessor :=
  let h := set_last (set_first h 0) (REG_SIZE - 1) in
  for_up (length (ram h)) 0
    (fun i_count h => v_reg_copy h (RAM i_count) None) h.

(** [v_processor_init] *)
Definition v_processor_init (h : oprocessor) : oprocessor :=
  let h := v_processor_clear_registers h in
  let h := v_processor_clear_data_registers h in
  let h := for_up (length (status h)) 0
             (fun i_count h => set_status h (arr_set (status h) i_count 0)) h in
  let h := set_flags h (mk_flags 0 0 0 0 0 0) in
  let h := set_status h (arr_set (status h) 5 1) in
  let h := set_status h (arr_set (status h) 3 1) in
  let h := set_flags h (mk_flags 1 (CARRY (flags h)) (PREV_CARRY (flags h))
             (DELAYED_ROM (flags h)) (DISPLAY_ENABLE (flags h))
             (TRACE (flags h))) in
  let h := set_pc h 0 in
  let h := set_sp h 0 in
  let h := set_p h 0 in
  let h := set_f h 0 in
  let h :=
    mk_processor (reg h) (ram h) (rom h) (stack h) (status h) (flags h)
      (pc h) (sp h) (p h) (f h) (first h) (last h) (base h) 0 0
      (address h) (rom_number h) (delayed_rom_number h) (errlog h) in
  let h := set_base h 10 in
  let h := set_delayed_rom_number h 0 in
  mk_processor (reg h) (ram h) (rom h) (stack h) (status h) (flags h)
    (pc h) (sp h) (p h) (f h) (first h) (last h) (base h) (keycode h)
    (keydown h) (address h) 0 (delayed_rom_number h) (errlog h).

(** [h_processor_create]: eight registers with identifiers -1 .. -8, the
    data registers, then [v_processor_init].  The sizes of the arrays
    declared in the missing header are arguments; what [malloc] leaves in
    the scalar fields is taken to be zero. *)
Definition h_processor_create (DATA_REGISTERS STACK_SIZE : nat)
  (h_rom : Z → Z) : oprocessor :=
  let zeros := replicate (Z.to_nat REG_SIZE) 0 in
  v_processor_init
    (mk_processor
       (map (fun i_count => mk_register ((Z.of_nat i_count + 1) * -1) zeros)
            (seq 0 8))
       (map (fun i_count => mk_register (Z.of_nat i_count) zeros)
            (seq 0 DATA_REGISTERS))
       h_rom (replicate STACK_SIZE 0) (replicate 16 0)
       (mk_flags 0 0 0 0 0 0) 0 0 0 0 0 0 0 0 0 0 0 0 []).

(** [delayed_rom_switch] *)
Definition delayed_rom_switch (h : oprocessor) : oprocessor :=
  if bool_decide (DELAYED_ROM (flags h) ≠ 0)
  then
    let h := set_pc h (Z.lor (Z.shiftl (delayed_rom_number h) 8)
                             (Z.land (pc h) 255)) in
    set_DELAYED_ROM h 0
  else h.

(** [v_op_inc_pc]: [if (pc++ >= (ROM_SIZE - 1)) pc = 0;] then the carry is
    latched. *)
Definition v_op_inc_pc (h : oprocessor) : oprocessor :=
  let h := if bool_decide (ROM_SIZE - 1 ≤ pc h) then set_pc h 0
           else set_pc h (pc h + 1) in
  let h := set_PREV_CARRY h (CARRY (flags h)) in
  set_CARRY h 0.

(** [op_jsb] *)
Definition op_jsb (h : oprocessor) (i_count : Z) : oprocessor :=
  let h := set_stack h (arr_set (stack h) (sp h) (pc h)) in
  let h := set_sp h (Z.land (sp h + 1) (STACK_SIZE h - 1)) in
  let h := set_pc h (Z.lor (Z.land (pc h) 65280) i_count - 1) in
  delayed_rom_switch h.

(** [v_op_rtn] *)
Definition v_op_rtn (h : oprocessor) : oprocessor :=
  let h := set_sp h (Z.land (sp h - 1) (STACK_SIZE h - 1)) in
  set_pc h (arr_get (stack h) (sp h)).

(** [v_op_goto]: the word at [pc] is the new program counter. *)
Definition v_op_goto (h : oprocessor) : oprocessor :=
  if bool_decide (PREV_CARRY (flags h) = 0)
  then
    let h := set_pc h (rom h (pc h) - 1) in
    delayed_rom_switch h
  else h.

(** ** The decoder *)

(** The tables of [v_processor_tick]. *)
Definition i_set_p : list Z :=
  [14; 4; 7; 8; 11; 2; 10; 12; 1; 3; 13; 6; 0; 9; 5; 14].
Definition i_tst_p : list Z :=
  [4; 8; 12; 2; 9; 1; 6; 3; 1; 13; 5; 0; 11; 10; 7; 4].

(** C truth values: [(a != b)], [!(a == b)], ... as [int]. *)
Definition c_bool (b : bool) : Z := if b then 1 else 0.

(** Special operations, group 0. *)
Definition special_group0 (h : oprocessor) (i_opcode : Z) : oprocessor :=
  match Z.land (Z.shiftr i_opcode 4) 3 with
  | 0 => h (* nop *)
  | 1 =>
      match i_opcode with
      | 16 (* 00020 keys -> rom address *) =>
          let h := set_pc h (Z.land (pc h) 3840) in
          set_pc h (pc h + (keycode h - 1))
      | 272 (* 00420 binary *) => set_base h 16
      | 400 (* 00620 p - 1 -> p *) =>
          if bool_decide (p h = 0) then set_p h REG_SIZE
          else set_p h (p h - 1)
      | 464 (* 00720 p + 1 -> p *) =>
          if bool_decide (p h = REG_SIZE) then set_p h 0
          else set_p h (p h + 1)
      | 528 (* 01020 return *) =>
          let h := set_sp h (Z.land (sp h - 1) (STACK_SIZE h - 1)) in
          set_pc h (arr_get (stack h) (sp h))
      | _ => v_error h (Unexpected_opcode i_opcode (rom_number h) (pc h) 651)
      end
  | 2 (* select rom *) =>
      set_pc h (Z.shiftr i_opcode 6 * 256 + Z.rem (pc h) 256)
  | 3 =>
      match i_opcode with
      | 624 (* 01160 c -> data address *) =>
          let h := set_address h
                     (Z.shiftl (get_nibble h (REG C_REG) 1) 4
                      + get_nibble h (REG C_REG) 0) in
          if bool_decide (ROM_SIZE * ROM_BANKS ≤ address h)
          then v_error h (Address_out_of_range (address h) 664)
          else h
      | 688 (* 01260 clear data registers *) =>
          v_processor_clear_data_registers h
      | 1008 (* 01760 hi I'm woodstock *) => h
      | _ => v_error h (Unexpected_opcode i_opcode (rom_number h) (pc h) 674)
      end
  | _ => h
  end.

(** Special operations, group 1. *)
Definition special_group1 (h : oprocessor) (i_opcode : Z) : oprocessor :=
  match Z.land (Z.shiftr i_opcode 4) 3 with
  | 0 (* 1 -> s(n) *) =>
      set_status h (arr_set (status h) (Z.shiftr i_opcode 6) 1)
  | 1 (* if 1 = s(n) *) =>
      let h := set_CARRY h
                 (c_bool (bool_decide
                    (arr_get (status h) (Z.shiftr i_opcode 6) ≠ 1))) in
      let h := v_op_inc_pc h in
      v_op_goto h
  | 2 (* if p = n *) =>
      let h := set_CARRY h
                 (c_bool (negb (bool_decide
                    (p h = arr_get i_tst_p (Z.shiftr i_opcode 6))))) in
      let h := v_op_inc_pc h in
      v_op_goto h
  | 3 (* delayed select rom n *) =>
      let h := set_delayed_rom_number h (Z.shiftr i_opcode 6) in
      set_DELAYED_ROM h 1
  | _ => h
  end.

(** The loop body of [clear s]. *)
Definition clear_s_body (i_count : Z) (h : oprocessor) : oprocessor :=
  match i_count with
  | 1 | 2 | 5 | 15 => h
  | _ => set_status h (arr_set (status h) i_count 0)
  end.

(** Special operations, group 2. *)
Definition special_group2 (h : oprocessor) (i_opcode : Z) : oprocessor :=
  match Z.land (Z.shiftr i_opcode 4) 3 with
  | 0 =>
      match i_opcode with
      | 8 (* 00010 clear registers *) => v_processor_clear_registers h
      | 72 (* 00110 clear s *) =>
          for_up (length (status h)) 0 clear_s_body h
      | 136 (* 00210 display toggle *) =>
          if bool_decide (DISPLAY_ENABLE (flags h) = 0)
          then set_DISPLAY_ENABLE h 1
          else set_DISPLAY_ENABLE h 0
      | 200 (* 00310 display off *) => set_DISPLAY_ENABLE h 0
      | 264 (* 00410 m1 exch c *) =>
          let h := set_last (set_first h 0) (REG_SIZE - 1) in
          v_reg_exch h (REG M_REG) (REG C_REG)
      | 328 (* 00510 m1 -> c *) =>
          let h := set_last (set_first h 0) (REG_SIZE - 1) in
          v_reg_copy h (REG C_REG) (Some (REG M_REG))
      | 392 (* 00610 m2 exch c *) =>
          let h := set_last (set_first h 0) (REG_SIZE - 1) in
          v_reg_exch h (REG N_REG) (REG C_REG)
      | 456 (* 00710 m2 -> c *) =>
          let h := set_last (set_first h 0) (REG_SIZE - 1) in
          v_reg_copy h (REG C_REG) (Some (REG N_REG))
      | 520 (* 01010 stack -> a *) =>
          let h := set_last (set_first h 0) (REG_SIZE - 1) in
          let h := v_reg_copy h (REG A_REG) (Some (REG Y_REG)) in
          let h := v_reg_copy h (REG Y_REG) (Some (REG Z_REG)) in
          v_reg_copy h (REG Z_REG) (Some (REG T_REG))
      | 584 (* 01110 down rotate *) =>
          let h := set_last (set_first h 0) (REG_SIZE - 1) in
          let h := v_reg_exch h (REG T_REG) (REG C_REG) in
          let h := v_reg_exch h (REG C_REG) (REG Y_REG) in
          v_reg_exch h (REG Y_REG) (REG Z_REG)
      | 648 (* 01210 y -> a *) =>
          let h := set_last (set_first h 0) (REG_SIZE - 1) in
          v_reg_copy h (REG A_REG) (Some (REG Y_REG))
      | 712 (* 01310 c -> stack *) =>
          let h := set_last (set_first h 0) (REG_SIZE - 1) in
          let h := v_reg_copy h (REG T_REG) (Some (REG Z_REG)) in
          let h := v_reg_copy h (REG Z_REG) (Some (REG Y_REG)) in
          v_reg_copy h (REG Y_REG) (Some (REG C_REG))
      | 776 (* 01410 decimal *) => set_base h 10
      | 904 (* 01610 f -> a *) => set_nibble h (REG A_REG) 0 (f h)
      | 968 (* 01710 f exch a *) =>
          let i_temp := get_nibble h (REG A_REG) 0 in
          let h := set_nibble h (REG A_REG) 0 (f h) in
          set_f h i_temp
      | _ => v_error h (Unexpected_opcode i_opcode (rom_number h) (pc h) 811)
      end
  | 1 (* load n *) =>
      let h := set_nibble h (REG C_REG) (p h) (Z.shiftr i_opcode 6) in
      if bool_decide (0 < p h) then set_p h (p h - 1)
      else set_p h (REG_SIZE - 1)
  | 2 (* c -> data register(n) *) =>
      v_error h (Unexpected_opcode i_opcode (rom_number h) (pc h) 820)
  | 3 (* c -> addr or data register(n) -> c *) =>
      v_error h (Unexpected_opcode i_opcode (rom_number h) (pc h) 823)
  | _ => v_error h (Unexpected_error 826)
  end.

(** Special operations, group 3. *)
Definition special_group3 (h : oprocessor) (i_opcode : Z) : oprocessor :=
  match Z.land (Z.shiftr i_opcode 4) 3 with
  | 0 (* 0 -> s(n) *) =>
      match Z.shiftr i_opcode 6 with
      | 5 | 15 =>
          if bool_decide (keydown h = 0)
          then set_status h (arr_set (status h) 15 0)
          else h
      | _ => set_status h (arr_set (status h) (Z.shiftr i_opcode 6) 0)
      end
  | 1 (* if 0 = s(n) *) =>
      let h :=
        if bool_decide (arr_get (status h) (Z.shiftr i_opcode 6) ≠ 0)
        then set_CARRY h 1
        else set_CARRY h 0 in
      let h := v_op_inc_pc h in
      v_op_goto h
  | 2 (* if p <> n *) =>
      let h := set_CARRY h
                 (c_bool (bool_decide
                    (p h = arr_get i_tst_p (Z.shiftr i_opcode 6)))) in
      let h := v_op_inc_pc h in
      v_op_goto h
  | 3 (* p = n *) => set_p h (arr_get i_set_p (Z.shiftr i_opcode 6))
  | _ => h
  end.

(** The field modifier of an arithmetic operation: sets [first] and
    [last]. *)
Definition decode_field (h : oprocessor) (i_field : Z) : oprocessor :=
  match i_field with
  | 0 (* P *) =>
      let h := set_last (set_first h (p h)) (p h) in
      if bool_decide (REG_SIZE ≤ p h)
      then set_last (v_error h (Unexpected_error 896)) 0
      else h
  | 1 (* WP *) =>
      let h := set_last (set_first h 0) (p h) in
      if bool_decide (REG_SIZE ≤ p h)
      then set_last (v_error h (Unexpected_error 905)) (REG_SIZE - 1)
      else h
  | 2 (* XS *) => set_last (set_first h (EXP_SIZE - 1)) (EXP_SIZE - 1)
  | 3 (* X *) => set_last (set_first h 0) (EXP_SIZE - 1)
  | 4 (* S *) => set_last (set_first h (REG_SIZE - 1)) (REG_SIZE - 1)
  | 5 (* M *) => set_last (set_first h EXP_SIZE) (REG_SIZE - 2)
  | 6 (* W *) => set_last (set_first h 0) (REG_SIZE - 1)
  | 7 (* MS *) => set_last (set_first h EXP_SIZE) (REG_SIZE - 1)
  | _ => h
  end.

(** The arithmetic operation selected by [i_opcode >> 5], on the field
    already decoded. *)
Definition arithmetic_op (h : oprocessor) (i_opcode : Z) : oprocessor :=
  let A := REG A_REG in
  let B := REG B_REG in
  let C := REG C_REG in
  match Z.shiftr i_opcode 5 with
  | 0 (* 0 -> a[f] *) => v_reg_copy h A None
  | 1 (* 0 -> b[f] *) => v_reg_copy h B None
  | 2 (* a exch b[f] *) => v_reg_exch h A B
  | 3 (* a -> b[f] *) => v_reg_copy h B (Some A)
  | 4 (* a exch c[f] *) => v_reg_exch h A C
  | 5 (* c -> a[f] *) => v_reg_copy h A (Some C)
  | 6 (* b -> c[f] *) => v_reg_copy h C (Some B)
  | 7 (* b exch c[f] *) => v_reg_exch h B C
  | 8 (* 0 -> c[f] *) => v_reg_copy h C None
  | 9 (* a + b -> a[f] *) => v_reg_add h (Some A) A (Some B)
  | 10 (* a + c -> a[f] *) => v_reg_add h (Some A) A (Some C)
  | 11 (* c + c -> c[f] *) => v_reg_add h (Some C) C (Some C)
  | 12 (* a + c -> c[f] *) => v_reg_add h (Some C) C (Some A)
  | 13 (* a + 1 -> a[f] *) => v_reg_inc h A
  | 14 (* shift left a[f] *) => v_reg_shl h A
  | 15 (* c + 1 -> c[f] *) => v_reg_inc h C
  | 16 (* a - b -> a[f] *) => v_reg_sub h (Some A) (Some A) (Some B)
  | 17 (* a - c -> c[f] *) => v_reg_sub h (Some C) (Some A) (Some C)
  | 18 (* a - 1 -> a[f] *) =>
      v_reg_sub (set_CARRY h 1) (Some A) (Some A) None
  | 19 (* c - 1 -> c[f] *) =>
      v_reg_sub (set_CARRY h 1) (Some C) (Some C) None
  | 20 (* 0 - c -> c[f] *) => v_reg_sub h (Some C) None (Some C)
  | 21 (* 0 - c - 1 -> c[f] *) =>
      v_reg_sub (set_CARRY h 1) (Some C) None (Some C)
  | 22 (* if b[f] = 0 *) =>
      v_op_goto (v_op_inc_pc (v_reg_test_eq h B None))
  | 23 (* if c[f] = 0 *) =>
      v_op_goto (v_op_inc_pc (v_reg_test_eq h C None))
  | 24 (* if a >= c[f] *) =>
      v_op_goto (v_op_inc_pc (v_reg_sub h None (Some A) (Some C)))
  | 25 (* if a >= b[f] *) =>
      v_op_goto (v_op_inc_pc (v_reg_sub h None (Some A) (Some B)))
  | 26 (* if a[f] <> 0 *) =>
      v_op_goto (v_op_inc_pc (v_reg_test_ne h A None))
  | 27 (* if c[f] <> 0 *) =>
      v_op_goto (v_op_inc_pc (v_reg_test_ne h C None))
  | 28 (* a - c -> a[f] *) => v_reg_sub h (Some A) (Some A) (Some C)
  | 29 (* shift right a[f] *) => v_reg_shr h A
  | 30 (* shift right b[f] *) => v_reg_shr h B
  | 31 (* shift right c[f] *) => v_reg_shr h C
  | _ => v_error h (Unexpected_error 1082)
  end.

(** Subroutine calls and long conditional jumps: the inner switch of the
    source is again on [i_opcode & 03]. *)
Definition long_branch (h : oprocessor) (i_opcode : Z) : oprocessor :=
  match Z.land i_opcode 3 with
  | 0 => v_error h (Unexpected_opcode i_opcode (rom_number h) (pc h) 1090)
  | 1 => v_error h (Unexpected_opcode i_opcode (rom_number h) (pc h) 1094)
  | 2 => v_error h (Unexpected_opcode i_opcode (rom_number h) (pc h) 1098)
  | 3 (* if nc goto *) =>
      let h :=
        if bool_decide (PREV_CARRY (flags h) = 0)
        then set_pc h (Z.lor (Z.land (pc h) 65280) (Z.shiftr i_opcode 2) - 1)
        else h in
      delayed_rom_switch h
  | _ => v_error h (Unexpected_error 1108)
  end.

(** Decode and execute the instruction [i_opcode], without the final
    increment of the program counter. *)
Definition execute (h : oprocessor) (i_opcode : Z) : oprocessor :=
  match Z.land i_opcode 3 with
  | 0 (* special operations *) =>
      match Z.land (Z.shiftr i_opcode 2) 3 with
      | 0 => special_group0 h i_opcode
      | 1 => special_group1 h i_opcode
      | 2 => special_group2 h i_opcode
      | 3 => special_group3 h i_opcode
      | _ => h
      end
  | 1 (* jsb *) => op_jsb h (Z.shiftr i_opcode 2)
  | 2 (* arithmetic operations *) =>
      let i_field := Z.land (Z.shiftr i_opcode 2) 7 in
      let h := decode_field h i_field in
      arithmetic_op h i_opcode
  | 3 => long_branch h i_opcode
  | _ => v_error h (Unexpected_error 1112)
  end.

(** [v_processor_tick] *)
Definition v_processor_tick (h : oprocessor) : oprocessor :=
  let i_opcode := rom h (pc h) in
  let h := execute h i_opcode in
  v_op_inc_pc h.

(** [n] ticks. *)
Fixpoint run (n : nat) (h : oprocessor) : oprocessor :=
  match n with
  | O => h
  | S n' => run n' (v_processor_tick h)
  end.

(** ** Properties and tables of the specification *)

(** The field-modifier table as the specification words it. *)
Definition spec_field_window (p_reg code : Z) : option (Z * Z) :=
  match code with
  | 0 => Some (p_reg, p_reg)
  | 1 => Some (0, p_reg)
  | 2 => Some (2, 2)
  | 3 => Some (0, 1)
  | 4 => Some (13, 13)
  | 5 => Some (3, 12)
  | 6 => Some (0, 13)
  | 7 => Some (3, 13)
  | _ => None
  end.

(** The window [first..=last] of a state. *)
Definition window (h : oprocessor) : Z * Z := (first h, last h).

(** The permuted P tables as the specification enumerates them. *)
Definition spec_P_set_table : list Z :=
  [14; 4; 7; 8; 11; 2; 10; 12; 1; 3; 13; 6; 0; 9; 5; 14].
Definition spec_P_test_table : list Z :=
  [4; 8; 12; 2; 9; 1; 6; 3; 1; 13; 5; 0; 11; 10; 7; 4].

(** Bits 6-9 of an instruction word. *)
Definition bits_6_9 (i_opcode : Z) : Z := Z.land (Z.shiftr i_opcode 6) 15.

(** The nibbles of a register and of a possibly absent one agree on the
    indices [lo, lo + n), respectively differ somewhere on them. *)
Definition nibbles_agree (h : oprocessor) (d : regptr) (s : option regptr)
  (lo : Z) (n : nat) : Prop :=
  ∀ j, lo ≤ j < lo + Z.of_nat n → get_nibble h d j = nibble_or_zero h s j.

Definition nibbles_differ (h : oprocessor) (d : regptr) (s : option regptr)
  (lo : Z) (n : nat) : Prop :=
  ∃ j, lo ≤ j < lo + Z.of_nat n ∧ get_nibble h d j ≠ nibble_or_zero h s j.

(** The sticky status bits named by the specification. *)
Definition sticky (i : Z) : bool :=
  bool_decide (i = 1 ∨ i = 2 ∨ i = 5 ∨ i = 15).

(** Every nibble of the registers of [l] lies in [0..b). *)
Definition nibbles_in_base (b : Z) (l : list oregister) : Prop :=
  Forall (fun r => Forall (fun n => 0 ≤ n < b) (nibble r)) l.

(** Every nibble of every architectural and data register lies within the
    current radix. *)
Definition registers_in_base (h : oprocessor) : Prop :=
  nibbles_in_base (base h) (reg h) ∧ nibbles_in_base (base h) (ram h).

(** The state invariant around [registers_in_base]: the radix is 10 or 16,
    the carry is a bit and the F register holds a digit. *)
Definition digits_ok (h : oprocessor) : Prop :=
  (base h = 10 ∨ base h = 16) ∧
  (CARRY (flags h) = 0 ∨ CARRY (flags h) = 1) ∧
  0 ≤ f h < base h ∧
  registers_in_base h.

(** [load n]: special class, group 2, subgroup 1. *)
Definition is_load (i_opcode : Z) : Prop :=
  Z.land i_opcode 3 = 0 ∧ Z.land (Z.shiftr i_opcode 2) 3 = 2 ∧
  Z.land (Z.shiftr i_opcode 4) 3 = 1.

(** The special-class words that no case of the decoder accepts: the
    [default] branches and the two unimplemented subgroups of group 2. *)
Definition unexpected_opcode (i_opcode : Z) : bool :=
  bool_decide (Z.land i_opcode 3 = 0) &&
  match Z.land (Z.shiftr i_opcode 2) 3, Z.land (Z.shiftr i_opcode 4) 3 with
  | 0, 1 => negb (bool_decide (i_opcode ∈ [16; 272; 400; 464; 528]))
  | 0, 3 => negb (bool_decide (i_opcode ∈ [624; 688; 1008]))
  | 2, 0 => negb (bool_decide (i_opcode ∈
              [8; 72; 136; 200; 264; 328; 392; 456; 520; 584; 648; 712;
               776; 904; 968]))
  | 2, 2 => true
  | 2, 3 => true
  | _, _ => false
  end.

(** What a tick leaves alone when it only reports: everything but the
    program counter, the two carry flags and the error log. *)
Definition same_machine (h h' : oprocessor) : Prop :=
  reg h' = reg h ∧ ram h' = ram h ∧ stack h' = stack h ∧ sp h' = sp h ∧
  status h' = status h ∧ p h' = p h ∧ f h' = f h ∧ base h' = base h ∧
  first h' = first h ∧ last h' = last h ∧ address h' = address h ∧
  delayed_rom_number h' = delayed_rom_number h ∧
  rom_number h' = rom_number h ∧ keycode h' = keycode h ∧
  keydown h' = keydown h ∧
  MODE (flags h') = MODE (flags h) ∧
  DELAYED_ROM (flags h') = DELAYED_ROM (flags h) ∧
  DISPLAY_ENABLE (flags h') = DISPLAY_ENABLE (flags h) ∧
  TRACE (flags h') = TRACE (flags h).

(** Whether executing [i_opcode] makes [v_error] print an "Unexpected
    opcode" message. *)
Definition is_Unexpected_opcode (m : message) : bool :=
  match m with
  | Unexpected_opcode _ _ _ _ => true
  | _ => false
  end.

Definition reports_opcode (h : oprocessor) (i_opcode : Z) : bool :=
  existsb is_Unexpected_opcode (errlog (execute h i_opcode)).

(** ** Example machines *)

(** A ROM image given by its first words; the rest reads 0 ([nop]). *)
Definition rom_of (l : list Z) : Z → Z := fun a => arr_get l a.

(** A processor fresh from [h_processor_create], with 20 data registers
    (MEMORY_SIZE of x11-calc-32.h) and a stack of two return addresses. *)
Definition fresh (l : list Z) : oprocessor :=
  h_processor_create 20 2 (rom_of l).

(** Instruction words used below (octal in the source's comments). *)
Definition op_binary : Z := 272.                 (* 00420 *)
Definition op_decimal : Z := 776.                (* 01410 *)
Definition op_clear_s : Z := 72.                 (* 00110 *)
Definition op_select_rom (n : Z) : Z := n * 64 + 32.
Definition op_load (n : Z) : Z := n * 64 + 24.
Definition op_set_s (n : Z) : Z := n * 64 + 4.       (* 1 -> s(n) *)
Definition op_if_s_eq_1 (n : Z) : Z := n * 64 + 20.  (* if 1 = s(n) *)
Definition op_if_p_eq (k : Z) : Z := k * 64 + 36.    (* if p = i_tst_p[k] *)
Definition op_clr_s (n : Z) : Z := n * 64 + 12.      (* 0 -> s(n) *)
Definition op_if_p_ne (k : Z) : Z := k * 64 + 44.    (* if p # i_tst_p[k] *)
Definition op_set_p (k : Z) : Z := k * 64 + 60.      (* p = i_set_p[k] *)
Definition op_arith (op field : Z) : Z := op * 32 + field * 4 + 2.
Definition op_c_inc_w : Z := op_arith 15 6.      (* c + 1 -> c[w] *)
Definition op_c_dec_w : Z := op_arith 19 6.      (* c - 1 -> c[w] *)
Definition op_zero_c_wp : Z := op_arith 8 1.     (* 0 -> c[wp] *)
Definition op_zero_a_p : Z := op_arith 0 0.      (* 0 -> a[p] *)
Definition op_zero_a_x : Z := op_arith 0 3.      (* 0 -> a[x] *)
Definition op_if_nc_goto (target : Z) : Z := target * 4 + 3.

(** After [p = i_set_p[0]], i.e. with p = 14, about to run [0 -> a[p]]. *)
Definition machine_p14 : oprocessor :=
  v_processor_tick (fresh [op_set_p 0; op_zero_a_p]).

(** About to run [select rom 15] at address 0. *)
Definition machine_select_rom : oprocessor := fresh [op_select_rom 15].

(** A ROM of [nop]s. *)
Definition machine_nop : oprocessor := fresh [].

(** About to run [c + 1 -> c[w]]. *)
Definition machine_inc : oprocessor := fresh [op_c_inc_w].

Definition op_delayed_select_rom (n : Z) : Z := n * 64 + 52.

(** Modelled from the spec: the host operation [set_key(processor,
    keycode, down)], which is not part of the sources, latches [keycode]
    and [keydown]. *)
Definition set_key (h : oprocessor) (i_keycode i_down : Z) : oprocessor :=
  mk_processor (reg h) (ram h) (rom h) (stack h) (status h) (flags h)
    (pc h) (sp h) (p h) (f h) (first h) (last h) (base h) i_keycode i_down
    (address h) (rom_number h) (delayed_rom_number h) (errlog h).

(** About to run [p = i_set_p[1]]. *)
Definition machine_set_p : oprocessor := fresh [op_set_p 1].

(** Status bit 1 set by [1 -> s(1)], a key held down, about to run
    [0 -> s(1)]. *)
Definition machine_key_s1 : oprocessor :=
  set_key (v_processor_tick (fresh [op_set_s 1; op_clr_s 1])) 1 1.

(** A key held down, about to run [0 -> s(15)]. *)
Definition machine_key_s15 : oprocessor :=
  set_key (v_processor_tick (fresh [op_set_s 15; op_clr_s 15])) 1 1.

(** Status bit 4 set, in page 5, about to run [if 1 = s(4)] followed by
    the word 0x123. *)
Definition machine_page5 : oprocessor :=
  let h := h_processor_create 20 2
             (fun a => if bool_decide (a = 1280) then op_if_s_eq_1 4
                       else if bool_decide (a = 1281) then 291 else 0) in
  set_pc (set_status h (arr_set (status h) 4 1)) 1280.

(** Status bit 4 set by [1 -> s(4)], about to run [if 1 = s(4)] followed
    by the word 0x123. *)
Definition machine_s4 : oprocessor :=
  v_processor_tick (fresh [op_set_s 4; op_if_s_eq_1 4; 291]).

(** After [delayed select rom 2] and a borrowing [c - 1 -> c[w]]: a bank
    is pending, PREV_CARRY = 1, about to run [if nc goto 0x50]. *)
Definition machine_delayed : oprocessor :=
  run 2 (fresh [op_delayed_select_rom 2; op_c_dec_w; op_if_nc_goto 80]).

(** C = 0 0 0 0 0 0 0 0 0 0 9 9 9 9 in base 10, entered by [p = 3] and
    four [load 9], about to run [c + 1 -> c[w]]. *)
Definition machine_9999 : oprocessor :=
  run 5 (fresh [op_set_p 9; op_load 9; op_load 9; op_load 9; op_load 9;
                op_c_inc_w]).

(** After a borrowing [c - 1 -> c[w]] (PREV_CARRY = 1), about to run the
    word 00120, which the decoder does not know. *)
Definition machine_unknown : oprocessor :=
  v_processor_tick (fresh [op_c_dec_w; 80]).

(** After [load 7] and [p = 14], about to run [0 -> c[wp]]. *)
Definition machine_wp14 : oprocessor :=
  run 2 (fresh [op_load 7; op_set_p 0; op_zero_c_wp]).

(** The nibbles of the C register. *)
Definition C_nibbles (h : oprocessor) : list Z :=
  nibble (reg_file_get (reg h) C_REG).

(** About to run [load 15] in base 10, straight after reset. *)
Definition machine_load15 : oprocessor := fresh [op_load 15].

(** About to run [binary], a borrowing [c - 1 -> c[w]] and [decimal]. *)
Definition machine_hex : oprocessor :=
  fresh [op_binary; op_c_dec_w; op_decimal].

(** ** Notions used to describe the register operations *)

#[global] Instance regptr_eq_dec : EqDecision regptr.
Proof. solve_decision. Defined.

(** The number of nibbles behind a register pointer; 0 for a pointer
    outside the register file. *)
Definition reg_len (h : oprocessor) (r : regptr) : Z :=
  Z.of_nat (length (nibble (deref h r))).

(** [r->nibble[i]] lies inside the array. *)
Definition valid_nibble (h : oprocessor) (r : regptr) (i : Z) : Prop :=
  0 ≤ i < reg_len h r.

(** Everything a register operation leaves alone: all of the state but
    the registers and the flags. *)
Definition same_control (h h' : oprocessor) : Prop :=
  rom h' = rom h ∧ stack h' = stack h ∧ status h' = status h ∧
  pc h' = pc h ∧ sp h' = sp h ∧ p h' = p h ∧ f h' = f h ∧
  first h' = first h ∧ last h' = last h ∧ base h' = base h ∧
  keycode h' = keycode h ∧ keydown h' = keydown h ∧
  address h' = address h ∧ rom_number h' = rom_number h ∧
  delayed_rom_number h' = delayed_rom_number h ∧ errlog h' = errlog h.

(** The flags other than CARRY and PREV_CARRY are the same. *)
Definition same_mode_flags (h h' : oprocessor) : Prop :=
  MODE (flags h') = MODE (flags h) ∧
  DELAYED_ROM (flags h') = DELAYED_ROM (flags h) ∧
  DISPLAY_ENABLE (flags h') = DISPLAY_ENABLE (flags h) ∧
  TRACE (flags h') = TRACE (flags h).

(** The number written in radix [b] by the [n] digits [g lo],
    [g (lo + 1)], ..., least significant first. *)
Fixpoint field_value (b : Z) (g : Z → Z) (lo : Z) (n : nat) : Z :=
  match n with
  | O => 0
  | S n' => g lo + b * field_value b g (lo + 1) n'
  end.

(** The value of the field [first..=last] of a register, and of a
    possibly absent register, in the current radix. *)
Definition reg_value (h : oprocessor) (r : regptr) : Z :=
  field_value (base h) (get_nibble h r) (first h)
    (trip_count (first h) (last h)).

Definition opt_value (h : oprocessor) (r : option regptr) : Z :=
  field_value (base h) (nibble_or_zero h r) (first h)
    (trip_count (first h) (last h)).

(** Every digit of the field [first..=last] of a possibly absent register
    lies within the radix. *)
Definition field_digits_ok (h : oprocessor) (r : option regptr) : Prop :=
  ∀ i, first h ≤ i ≤ last h → 0 ≤ nibble_or_zero h r i < base h.

(** The pc after [v_op_inc_pc] has advanced it from [a]. *)
Definition advance (a : Z) : Z :=
  if bool_decide (a < ROM_SIZE - 1) then a + 1 else 0.

(** The loop bodies of [v_reg_add] and [v_reg_sub], named. *)
Definition add_body (h_destination : option regptr) (h_source : regptr)
  (h_argument : option regptr) (i_count : Z) (h : oprocessor) : oprocessor :=
  let i_temp := nibble_or_zero h h_argument i_count in
  let i_temp := get_nibble h h_source i_count + i_temp + CARRY (flags h) in
  let '(i_temp, h) :=
    if bool_decide (base h ≤ i_temp)
    then (i_temp - base h, set_CARRY h 1)
    else (i_temp, set_CARRY h 0) in
  match h_destination with
  | Some d => set_nibble h d i_count i_temp
  | None => h
  end.

Definition sub_body (h_destination h_source h_argument : option regptr)
  (i_count : Z) (h : oprocessor) : oprocessor :=
  let i_temp := nibble_or_zero h h_argument i_count in
  let i_temp :=
    match h_source with
    | Some s => get_nibble h s i_count - i_temp
    | None => 0 - i_temp
    end in
  let i_temp := i_temp - CARRY (flags h) in
  let '(i_temp, h) :=
    if bool_decide (i_temp < 0)
    then (i_temp + base h, set_CARRY h 1)
    else (i_temp, set_CARRY h 0) in
  match h_destination with
  | Some d => set_nibble h d i_count i_temp
  | None => h
  end.

(** The number of nibbles of the field [first..=last]. *)
Definition field_width (h : oprocessor) : Z :=
  Z.of_nat (trip_count (first h) (last h)).

(** One digit of an addition or subtraction: the carry becomes [c] and the
    digit [v] is stored in nibble [i] of the destination, if there is
    one. *)
Definition digit_step (h : oprocessor) (d : option regptr) (c i v : Z)
  : oprocessor :=
  match d with
  | Some d => set_nibble (set_CARRY h c) d i v
  | None => set_CARRY h c
  end.

(** The bounds the simulator keeps on its pointers: pc at least -1 (a
    branch to address 0 leaves -1 for the advance), the stack pointer
    inside a stack whose size is a power of two, p within 0..=REG_SIZE,
    return addresses and the pending bank not negative, and a ROM of
    non-negative words. *)
Definition machine_bounds (h : oprocessor) : Prop :=
  -1 ≤ pc h ∧
  (∃ k, 0 ≤ k ∧ STACK_SIZE h = 2 ^ k) ∧
  0 ≤ sp h < STACK_SIZE h ∧
  0 ≤ p h ≤ REG_SIZE ∧
  Forall (fun a => -1 ≤ a) (stack h) ∧
  0 ≤ delayed_rom_number h ∧
  0 ≤ keycode h ∧
  (∀ a, 0 ≤ rom h a).

(** Decidable form of [field_digits_ok]. *)
Definition field_digits_okb (h : oprocessor) (r : option regptr) : bool :=
  forallb (fun i => bool_decide (0 ≤ nibble_or_zero h r i < base h))
    (seqZ (first h) (last h - first h + 1)).

(** ** Further example machines *)

Definition op_call (target : Z) : Z := target * 4 + 1.   (* jsb target *)
Definition op_return : Z := 528.                          (* 01020 *)
Definition op_if_a_ge_c_w : Z := op_arith 24 6.      (* if a >= c[w] *)
Definition op_if_c_eq_0_w : Z := op_arith 23 6.      (* if c[w] = 0 *)

(** About to call the subroutine at address 2, which returns at once. *)
Definition machine_call : oprocessor := fresh [op_call 2; 0; op_return].

(** About to run [if a >= c[w]] followed by the word 5, after reset. *)
Definition machine_compare : oprocessor := fresh [op_if_a_ge_c_w; 5].

(** About to run [if c[w] = 0] followed by the word 5, after reset. *)
Definition machine_zero_test : oprocessor := fresh [op_if_c_eq_0_w; 5].

(** [h] has the ROM and the radix of [h0]. *)
Definition keeps (h0 h : oprocessor) : Prop :=
  rom h = rom h0 ∧ base h = base h0.

(** The register behind [r] has all REG_SIZE nibbles. *)
Definition full_register (h : oprocessor) (r : regptr) : Prop :=
  REG_SIZE ≤ reg_len h r.

Definition op_c_to_stack : Z := 712.                 (* 01310 *)
Definition op_stack_to_a : Z := 520.                 (* 01010 *)
Definition op_down_rotate : Z := 584.                (* 01110 *)

(** What no arithmetic instruction changes. *)
Definition same_setup (h h' : oprocessor) : Prop :=
  rom h' = rom h ∧ stack h' = stack h ∧ status h' = status h ∧
  sp h' = sp h ∧ p h' = p h ∧ f h' = f h ∧ base h' = base h.

(** The operation codes (bits 5 and up) of the six test instructions. *)
Definition is_test (i_opcode : Z) : Prop :=
  22 ≤ Z.shiftr i_opcode 5 ≤ 27.

(** About to run [a + c -> a[w]] on the machine holding 9999 in C. *)
Definition op_a_plus_c_w : Z := op_arith 10 6.
Definition machine_add : oprocessor :=
  run 5 (fresh [op_set_p 9; op_load 9; op_load 9; op_load 9; op_load 9;
                op_a_plus_c_w]).

(** The operands of the adding instructions, read off [arithmetic_op]:
    destination, source, argument and the carry the instruction starts
    the addition with. *)
Definition add_operands (code : Z)
  : option (regptr * regptr * option regptr * Z) :=
  match code with
  | 9 (* a + b -> a[f] *) => Some (REG A_REG, REG A_REG, Some (REG B_REG), 0)
  | 10 (* a + c -> a[f] *) => Some (REG A_REG, REG A_REG, Some (REG C_REG), 0)
  | 11 (* c + c -> c[f] *) => Some (REG C_REG, REG C_REG, Some (REG C_REG), 0)
  | 12 (* a + c -> c[f] *) => Some (REG C_REG, REG C_REG, Some (REG A_REG), 0)
  | 13 (* a + 1 -> a[f] *) => Some (REG A_REG, REG A_REG, None, 1)
  | 15 (* c + 1 -> c[f] *) => Some (REG C_REG, REG C_REG, None, 1)
  | _ => None
  end.

(** The operands of the subtracting instructions: destination, source,
    argument and the borrow the instruction starts with. *)
Definition sub_operands (code : Z)
  : option (regptr * option regptr * option regptr * Z) :=
  match code with
  | 16 (* a - b -> a[f] *) =>
      Some (REG A_REG, Some (REG A_REG), Some (REG B_REG), 0)
  | 17 (* a - c -> c[f] *) =>
      Some (REG C_REG, Some (REG A_REG), Some (REG C_REG), 0)
  | 18 (* a - 1 -> a[f] *) => Some (REG A_REG, Some (REG A_REG), None, 1)
  | 19 (* c - 1 -> c[f] *) => Some (REG C_REG, Some (REG C_REG), None, 1)
  | 20 (* 0 - c -> c[f] *) => Some (REG C_REG, None, Some (REG C_REG), 0)
  | 21 (* 0 - c - 1 -> c[f] *) => Some (REG C_REG, None, Some (REG C_REG), 1)
  | 28 (* a - c -> a[f] *) =>
      Some (REG A_REG, Some (REG A_REG), Some (REG C_REG), 0)
  | _ => None
  end.

(** About to run [c - 1 -> c[w]] after reset. *)
Definition machine_dec : oprocessor := fresh [op_c_dec_w].

(** ** States inside the arrays *)

(** Every register of a file has its REG_SIZE nibbles. *)
Definition full_file (l : list oregister) : Prop :=
  Forall (fun r => REG_SIZE ≤ Z.of_nat (length (nibble r))) l.

(** The arrays the code indexes without a check have their size: the
    eight registers, every register and data register with REG_SIZE
    nibbles, and the sixteen status bits. *)
Definition well_shaped (h : oprocessor) : Prop :=
  (8 ≤ length (reg h))%nat ∧ full_file (reg h) ∧ full_file (ram h) ∧
  (16 ≤ length (status h))%nat.

(** [h] is well shaped and has the ROM of [h0]. *)
Definition shape_of (h0 h : oprocessor) : Prop :=
  well_shaped h ∧ rom h = rom h0.

(** A state on which the accesses of a tick stay inside the arrays of
    the C program: the pointer bounds, the program counter inside the
    ROM, the arrays of their size, and ROM words of 10 bits, so that the
    status bit and table index of a word (bits 6 to 9) is below 16. *)
Definition in_bounds (h : oprocessor) : Prop :=
  machine_bounds h ∧ 0 ≤ pc h < ROM_SIZE ∧ well_shaped h ∧
  (∀ a, rom h a < 1024).

(** The one write of the decoder that nothing guards: [load n] stores at
    nibble p of C, and p = REG_SIZE is a value p can take. *)
Definition load_in_range (h : oprocessor) : Prop :=
  is_load (rom h (pc h)) → p h < REG_SIZE.

(** No [load n] of the first [n] ticks is run with p = REG_SIZE. *)
Definition loads_in_range (n : nat) (h : oprocessor) : Prop :=
  ∀ k, (k < n)%nat → load_in_range (run k h).

(** Every nibble of every register and data register is a decimal
    digit. *)
Definition decimal_digits (h : oprocessor) : Prop :=
  nibbles_in_base 10 (reg h) ∧ nibbles_in_base 10 (ram h).

(** After [binary], about to run [decimal] with every nibble still 0. *)
Definition machine_binary : oprocessor :=
  v_processor_tick (fresh [op_binary; op_decimal]).

(** * Verification *)

(** ** Reading registers through flag updates *)

Lemma get_nibble_set_CARRY h c r i :
  get_nibble (set_CARRY h c) r i = get_nibble h r i.
Proof. by destruct r. Qed.

Lemma nibble_or_zero_set_CARRY h c r i :
  nibble_or_zero (set_CARRY h c) r i = nibble_or_zero h r i.
Proof. destruct r as [r|]; [apply get_nibble_set_CARRY | done]. Qed.

(** ** The equality tests *)

Section tests.
Variables (h : oprocessor) (d : regptr) (s : option regptr).

Local Abbreviation agree := (nibbles_agree h d s).
Local Abbreviation differ := (nibbles_differ h d s).

Lemma agree_or_differ lo n : agree lo n ∨ differ lo n.
Proof.
  revert lo; induction n as [|n IH]; intros lo.
  - left; intros j Hj; lia.
  - destruct (decide (get_nibble h d lo = nibble_or_zero h s lo)) as [E|E].
    + destruct (IH (lo + 1)) as [A|[j [Hj D]]].
      * left; intros j Hj.
        destruct (decide (j = lo)) as [->|]; [done | apply A; lia].
      * right; exists j; split; [lia | done].
    + right; exists lo; split; [lia | done].
Qed.

Lemma agree_not_differ lo n : agree lo n → ¬ differ lo n.
Proof. intros A [j [Hj D]]; apply D, A, Hj. Qed.

Lemma test_eq_loop_agree n : ∀ lo h',
  (∀ j, get_nibble h' d j = get_nibble h d j) →
  (∀ j, nibble_or_zero h' s j = nibble_or_zero h s j) →
  agree lo n → v_reg_test_eq_loop n lo h' d s = h'.
Proof.
  induction n as [|n IH]; intros lo h' Hd Hs A; simpl; [done|].
  rewrite Hd, Hs, bool_decide_eq_false_2 by (intros D; apply D, A; lia).
  apply IH; [done | done |]. intros j Hj; apply A; lia.
Qed.

Lemma test_eq_loop_differ n : ∀ lo h',
  (∀ j, get_nibble h' d j = get_nibble h d j) →
  (∀ j, nibble_or_zero h' s j = nibble_or_zero h s j) →
  differ lo n → v_reg_test_eq_loop n lo h' d s = set_CARRY h' 1.
Proof.
  induction n as [|n IH]; intros lo h' Hd Hs [j [Hj D]]; simpl; [lia|].
  rewrite Hd, Hs.
  case_bool_decide as E; [done|].
  apply IH; [done | done |]. exists j; split; [|done].
  destruct (decide (j = lo)) as [->|]; [by destruct E | lia].
Qed.

Lemma test_ne_loop_agree n : ∀ lo h',
  (∀ j, get_nibble h' d j = get_nibble h d j) →
  (∀ j, nibble_or_zero h' s j = nibble_or_zero h s j) →
  agree lo n → v_reg_test_ne_loop n lo h' d s = h'.
Proof.
  induction n as [|n IH]; intros lo h' Hd Hs A; simpl; [done|].
  rewrite Hd, Hs, bool_decide_eq_false_2 by (intros D; apply D, A; lia).
  apply IH; [done | done |]. intros j Hj; apply A; lia.
Qed.

Lemma test_ne_loop_differ n : ∀ lo h',
  (∀ j, get_nibble h' d j = get_nibble h d j) →
  (∀ j, nibble_or_zero h' s j = nibble_or_zero h s j) →
  differ lo n → v_reg_test_ne_loop n lo h' d s = set_CARRY h' 0.
Proof.
  induction n as [|n IH]; intros lo h' Hd Hs [j [Hj D]]; simpl; [lia|].
  rewrite Hd, Hs.
  case_bool_decide as E; [done|].
  apply IH; [done | done |]. exists j; split; [|done].
  destruct (decide (j = lo)) as [->|]; [by destruct E | lia].
Qed.

(** [v_reg_test_eq] and [v_reg_test_ne] only write the carry: 0 or 1
    according to the nibbles of the field. *)
Lemma v_reg_test_eq_cases :
  let n := trip_count (first h) (last h) in
  (agree (first h) n ∧ v_reg_test_eq h d s = set_CARRY h 0) ∨
  (differ (first h) n ∧ v_reg_test_eq h d s = set_CARRY h 1).
Proof.
  intros n. unfold v_reg_test_eq. change (first (set_CARRY h 0)) with (first h).
  change (last (set_CARRY h 0)) with (last h). fold n.
  destruct (agree_or_differ (first h) n) as [A|D]; [left|right]; split; try done.
  - apply test_eq_loop_agree; auto using get_nibble_set_CARRY, nibble_or_zero_set_CARRY.
  - rewrite test_eq_loop_differ; auto using get_nibble_set_CARRY, nibble_or_zero_set_CARRY.
Qed.

Lemma v_reg_test_ne_cases :
  let n := trip_count (first h) (last h) in
  (agree (first h) n ∧ v_reg_test_ne h d s = set_CARRY h 1) ∨
  (differ (first h) n ∧ v_reg_test_ne h d s = set_CARRY h 0).
Proof.
  intros n. unfold v_reg_test_ne. change (first (set_CARRY h 1)) with (first h).
  change (last (set_CARRY h 1)) with (last h). fold n.
  destruct (agree_or_differ (first h) n) as [A|D]; [left|right]; split; try done.
  - apply test_ne_loop_agree; auto using get_nibble_set_CARRY, nibble_or_zero_set_CARRY.
  - rewrite test_ne_loop_differ; auto using get_nibble_set_CARRY, nibble_or_zero_set_CARRY.
Qed.

(** The half-open range of the loop is the window [first..=last]. *)
Lemma agree_window :
  agree (first h) (trip_count (first h) (last h)) ↔
  (∀ i, first h ≤ i ≤ last h → get_nibble h d i = nibble_or_zero h s i).
Proof.
  unfold nibbles_agree, trip_count; split; intros A j Hj; apply A; lia.
Qed.

Lemma differ_window :
  differ (first h) (trip_count (first h) (last h)) ↔
  (∃ i, first h ≤ i ≤ last h ∧ get_nibble h d i ≠ nibble_or_zero h s i).
Proof.
  unfold nibbles_differ, trip_count; split; intros [j [Hj D]]; exists j;
    split; lia || done.
Qed.

(** C3: [test_eq] leaves CARRY = 0 if and only if every nibble of the two
    registers inside the field [first..=last] is equal, and CARRY = 1
    otherwise; [test_ne] has the opposite polarity: it leaves CARRY = 0
    if and only if some nibble inside the field differs, and CARRY = 1
    otherwise.  The source register may be absent (NULL), in which case
    its nibbles count as 0. *)
Theorem C3_test_eq_test_ne :
  let same := ∀ i, first h ≤ i ≤ last h →
                   get_nibble h d i = nibble_or_zero h s i in
  let some_differs := ∃ i, first h ≤ i ≤ last h ∧
                   get_nibble h d i ≠ nibble_or_zero h s i in
  (CARRY (flags (v_reg_test_eq h d s)) = 0 ↔ same) ∧
  (CARRY (flags (v_reg_test_eq h d s)) = 1 ↔ ¬ same) ∧
  (CARRY (flags (v_reg_test_ne h d s)) = 0 ↔ some_differs) ∧
  (CARRY (flags (v_reg_test_ne h d s)) = 1 ↔ ¬ some_differs).
Proof.
  intros same some_differs.
  pose proof agree_window as AW. pose proof differ_window as DW.
  fold same in AW. fold some_differs in DW.
  pose proof (agree_not_differ (first h) (trip_count (first h) (last h))) as AD.
  destruct v_reg_test_eq_cases as [[A ->]|[D ->]];
    destruct v_reg_test_ne_cases as [[A' ->]|[D' ->]]; simpl;
    intuition (try done; try lia).
Qed.
End tests.

(** ** The field modifier *)

(** C1 (counterexample): with p = 14, reached from reset by the
    instruction [p = i_set_p[0]], the modifier P leaves [first = 14] and
    [last = 0], not the window [p..=p] of the table; and the modifier X
    leaves [0..=2], not [0..=1]. *)
Lemma C1_counterexample :
  p machine_p14 = 14 ∧
  rom machine_p14 (pc machine_p14) = op_zero_a_p ∧
  Z.land op_zero_a_p 3 = 2 ∧
  Z.land (Z.shiftr op_zero_a_p 2) 7 = 0 ∧
  window (decode_field machine_p14 0) = (14, 0) ∧
  Some (window (decode_field machine_p14 0))
    ≠ spec_field_window (p machine_p14) 0 ∧
  window (v_processor_tick machine_p14) = (14, 0) ∧
  Z.land (Z.shiftr op_zero_a_x 2) 7 = 3 ∧
  window (decode_field machine_p14 3) = (0, 2) ∧
  Some (window (decode_field machine_p14 3))
    ≠ spec_field_window (p machine_p14) 3.
Proof. vm_compute. repeat apply conj; congruence. Qed.

(** C1 (amended): for every arithmetic-class instruction (low two bits
    10) the decoder sets the window before the operation runs: XS gives
    [2..=2], S [13..=13], M [3..=12], W [0..=13], MS [3..=13]; P gives
    [p..=p] and WP gives [0..=p] as long as p < 14, and with p >= 14 an
    error is reported and the window is clamped, P to first = p, last = 0
    (an empty window) and WP to [0..=13]. *)
Theorem C1_field_window (h : oprocessor) (i_opcode : Z) :
  Z.land i_opcode 3 = 2 →
  let code := Z.land (Z.shiftr i_opcode 2) 7 in
  let d := decode_field h code in
  execute h i_opcode = arithmetic_op d i_opcode ∧
  (code = 0 → p h < REG_SIZE → window d = (p h, p h)) ∧
  (code = 0 → REG_SIZE ≤ p h →
     window d = (p h, 0) ∧ errlog d = errlog h ++ [Unexpected_error 896]) ∧
  (code = 1 → p h < REG_SIZE → window d = (0, p h)) ∧
  (code = 1 → REG_SIZE ≤ p h →
     window d = (0, 13) ∧ errlog d = errlog h ++ [Unexpected_error 905]) ∧
  (code = 2 → window d = (2, 2)) ∧
  (code = 4 → window d = (13, 13)) ∧
  (code = 5 → window d = (3, 12)) ∧
  (code = 6 → window d = (0, 13)) ∧
  (code = 7 → window d = (3, 13)).
Proof.
  intros Hclass code d. split.
  { unfold execute. by rewrite Hclass. }
  subst d. generalize code; clear code; intros code.
  repeat apply conj; intros ->; try reflexivity; intros Hp;
    unfold decode_field; cbn [p set_last set_first];
    [ rewrite bool_decide_eq_false_2 by lia
    | rewrite bool_decide_eq_true_2 by lia
    | rewrite bool_decide_eq_false_2 by lia
    | rewrite bool_decide_eq_true_2 by lia ]; done.
Qed.

(** Witness of C1 (amended): [c + 1 -> c[w]] on a fresh processor. *)
Lemma C1_field_window_witness :
  window (decode_field machine_inc (Z.land (Z.shiftr op_c_inc_w 2) 7))
  = (0, 13).
Proof.
  destruct (C1_field_window machine_inc op_c_inc_w eq_refl)
    as (_&_&_&_&_&_&_&_&H&_).
  apply H. reflexivity.
Defined.

(** ** The program counter advance *)

Lemma v_op_inc_pc_pc h :
  pc (v_op_inc_pc h) = if bool_decide (pc h < ROM_SIZE - 1) then pc h + 1 else 0.
Proof. unfold v_op_inc_pc. repeat case_bool_decide; simpl; lia. Qed.

Lemma v_op_inc_pc_flags h :
  flags (v_op_inc_pc h) =
  mk_flags (MODE (flags h)) 0 (CARRY (flags h)) (DELAYED_ROM (flags h))
    (DISPLAY_ENABLE (flags h)) (TRACE (flags h)).
Proof. unfold v_op_inc_pc. by case_bool_decide. Qed.

Lemma v_op_inc_pc_same h : same_machine h (v_op_inc_pc h).
Proof. unfold v_op_inc_pc, same_machine. by case_bool_decide. Qed.

(** C2 (counterexample): [select rom 15] at address 0 of a fresh processor
    leaves pc = 3840 for the advance at the end of the tick, which resets
    it to 0; (3840 + 1) mod ROM_SIZE is 257. *)
Lemma C2_counterexample :
  pc machine_select_rom = 0 ∧
  rom machine_select_rom (pc machine_select_rom) = 992 ∧
  pc (execute machine_select_rom 992) = 3840 ∧
  pc (v_processor_tick machine_select_rom) = 0 ∧
  (pc (execute machine_select_rom 992) + 1) `mod` ROM_SIZE = 257 ∧
  pc (v_processor_tick machine_select_rom)
    ≠ (pc (execute machine_select_rom 992) + 1) `mod` ROM_SIZE.
Proof. vm_compute. repeat apply conj; congruence. Qed.

(** C2 (amended): a tick is one fetch, which changes nothing, the
    execution of the fetched word, and the advance [v_op_inc_pc].  The
    advance sets pc to pc + 1 when pc < ROM_SIZE - 1 and to 0 otherwise,
    which is (pc + 1) mod ROM_SIZE whenever -1 <= pc < ROM_SIZE; it leaves
    the ROM bank number alone, assigns PREV_CARRY the old CARRY and sets
    CARRY to 0. *)
Theorem C2_pc_advance (h : oprocessor) :
  let a := execute h (rom h (pc h)) in
  let t := v_processor_tick h in
  t = v_op_inc_pc a ∧
  pc t = (if bool_decide (pc a < ROM_SIZE - 1) then pc a + 1 else 0) ∧
  (-1 ≤ pc a < ROM_SIZE → pc t = (pc a + 1) `mod` ROM_SIZE) ∧
  rom_number t = rom_number a ∧
  PREV_CARRY (flags t) = CARRY (flags a) ∧
  CARRY (flags t) = 0.
Proof.
  intros a t. subst t. unfold v_processor_tick. fold a.
  generalize a; clear a; intros a.
  rewrite v_op_inc_pc_pc, v_op_inc_pc_flags.
  destruct (v_op_inc_pc_same a) as (_&_&_&_&_&_&_&_&_&_&_&_&Hbank&_).
  repeat apply conj; try done.
  intros Hpc. unfold ROM_SIZE in *. case_bool_decide.
  - rewrite Z.mod_small; lia.
  - replace (pc a) with 3583 by lia. reflexivity.
Qed.

(** Witness of C2 (amended): the first tick of a processor whose ROM is
    all [nop]. *)
Lemma C2_pc_advance_witness :
  pc (v_processor_tick machine_nop)
  = (pc (execute machine_nop (rom machine_nop (pc machine_nop))) + 1)
      `mod` ROM_SIZE.
Proof.
  destruct (C2_pc_advance machine_nop) as (_&_&H&_).
  apply H; clear H. vm_compute. split; [intros E; discriminate E | reflexivity].
Defined.

(** ** The permuted P tables *)

Lemma bits_6_9_shiftr i_opcode :
  0 ≤ i_opcode < 1024 → bits_6_9 i_opcode = Z.shiftr i_opcode 6.
Proof.
  intros H. unfold bits_6_9. change 15 with (Z.ones 4).
  rewrite Z.land_ones, Z.shiftr_div_pow2 by lia.
  change (2 ^ 6) with 64. change (2 ^ 4) with 16.
  apply Z.mod_small. split; [apply Z.div_pos; lia|].
  apply Z.div_lt_upper_bound; lia.
Qed.

Lemma v_op_inc_pc_p h : p (v_op_inc_pc h) = p h.
Proof. by destruct (v_op_inc_pc_same h) as (_&_&_&_&_&?&_). Qed.

Lemma v_op_inc_pc_status h : status (v_op_inc_pc h) = status h.
Proof. by destruct (v_op_inc_pc_same h) as (_&_&_&_&?&_). Qed.

(** C5: the two tables of the decoder are the tables of the
    specification, entry by entry; for every 10-bit word of the special
    class, [p = n] (group 3, subgroup 3) sets p to the P-set table at bits
    6-9 of the word, and [if p = n] (group 1, subgroup 2) and [if p # n]
    (group 3, subgroup 2) compare p with the P-test table at bits 6-9: the
    carry handed to the following goto is 0 exactly when p equals,
    respectively differs from, that entry. *)
Theorem C5_P_tables (h : oprocessor) :
  let i_opcode := rom h (pc h) in
  let group := Z.land (Z.shiftr i_opcode 2) 3 in
  let sub := Z.land (Z.shiftr i_opcode 4) 3 in
  let n := bits_6_9 i_opcode in
  0 ≤ i_opcode < 1024 →
  Z.land i_opcode 3 = 0 →
  i_set_p = spec_P_set_table ∧
  i_tst_p = spec_P_test_table ∧
  (group = 3 → sub = 3 →
     p (v_processor_tick h) = arr_get spec_P_set_table n) ∧
  (group = 1 → sub = 2 →
     execute h i_opcode =
     v_op_goto (v_op_inc_pc (set_CARRY h
       (if bool_decide (p h = arr_get spec_P_test_table n) then 0 else 1)))) ∧
  (group = 3 → sub = 2 →
     execute h i_opcode =
     v_op_goto (v_op_inc_pc (set_CARRY h
       (if bool_decide (p h = arr_get spec_P_test_table n) then 1 else 0)))).
Proof.
  intros i_opcode group sub n Hop Hclass. subst n group sub.
  rewrite bits_6_9_shiftr by done.
  unfold v_processor_tick. fold i_opcode.
  generalize dependent i_opcode. intros i_opcode Hop Hclass.
  repeat apply conj; try reflexivity; intros Hg Hs.
  - rewrite v_op_inc_pc_p. unfold execute. rewrite Hclass, Hg.
    unfold special_group3. rewrite Hs. reflexivity.
  - unfold execute. rewrite Hclass, Hg.
    unfold special_group1. rewrite Hs. cbv iota beta zeta.
    change spec_P_test_table with i_tst_p. by destruct (bool_decide _).
  - unfold execute. rewrite Hclass, Hg.
    unfold special_group3. rewrite Hs. cbv iota beta zeta.
    change spec_P_test_table with i_tst_p. by destruct (bool_decide _).
Qed.

(** Witness of C5: [p = i_set_p[1]] on a fresh processor sets p to 4. *)
Lemma C5_P_tables_witness :
  p (v_processor_tick machine_set_p)
  = arr_get spec_P_set_table (bits_6_9 (rom machine_set_p (pc machine_set_p))).
Proof.
  assert (0 ≤ rom machine_set_p (pc machine_set_p) < 1024) as Hop
    by (vm_compute; split; [intros E; discriminate E | reflexivity]).
  destruct (C5_P_tables machine_set_p Hop eq_refl) as (_&_&H&_).
  apply H; reflexivity.
Defined.

(** ** The status word *)

Lemma arr_get_set_zero l i j :
  arr_get (arr_set l i 0) j = if bool_decide (j = i) then 0 else arr_get l j.
Proof.
  unfold arr_get, arr_set.
  case_bool_decide as Hj; [|by repeat case_bool_decide].
  case_bool_decide as Hi; case_bool_decide as E; subst; try done.
  - destruct (decide (Z.to_nat i < length l)%nat).
    + by rewrite list_lookup_insert_eq.
    + rewrite list_insert_ge by lia. by rewrite lookup_ge_None_2 by lia.
  - rewrite list_lookup_insert_ne; [done | lia].
Qed.

Lemma clear_s_body_status i h :
  status (clear_s_body i h)
  = if sticky i then status h else arr_set (status h) i 0.
Proof.
  unfold sticky. case_bool_decide as H.
  - by destruct H as [->|[->|[->| ->]]].
  - unfold clear_s_body. repeat case_match; subst; try reflexivity; lia.
Qed.

Lemma clear_s_loop n : ∀ lo h j,
  arr_get (status (for_up n lo clear_s_body h)) j =
  if bool_decide (lo ≤ j < lo + Z.of_nat n) && negb (sticky j)
  then 0 else arr_get (status h) j.
Proof.
  induction n as [|n IH]; intros lo h j.
  - rewrite bool_decide_eq_false_2 by lia. done.
  - cbn [for_up]. rewrite IH, clear_s_body_status.
    destruct (sticky j) eqn:Sj.
    + rewrite !andb_false_r. destruct (sticky lo) eqn:Sl; [done|].
      rewrite arr_get_set_zero. case_bool_decide; [congruence | done].
    + rewrite !andb_true_r. repeat case_bool_decide; try done; try lia.
      * destruct (sticky lo) eqn:Sl; [|by rewrite arr_get_set_zero, bool_decide_eq_true_2 by lia].
        replace lo with j in Sl by lia. congruence.
      * destruct (sticky lo); [done|]. by rewrite arr_get_set_zero, bool_decide_eq_false_2 by lia.
Qed.

(** C6 (counterexample): with status bit 1 set and a key held down,
    [0 -> s(1)] clears status bit 1. *)
Lemma C6_counterexample :
  keydown machine_key_s1 = 1 ∧
  rom machine_key_s1 (pc machine_key_s1) = op_clr_s 1 ∧
  arr_get (status machine_key_s1) 1 = 1 ∧
  arr_get (status (v_processor_tick machine_key_s1)) 1 = 0.
Proof. vm_compute. repeat apply conj; reflexivity. Qed.

(** C6 (amended): [clear s] clears every status bit except bits 1, 2, 5
    and 15, which it leaves unchanged; for n in {5, 15}, [0 -> s(n)]
    executed while a key is down leaves every status bit unchanged; for
    every other n, bits 1 and 2 included, [0 -> s(n)] clears bit n and no
    other bit, whether a key is down or not. *)
Theorem C6_sticky_status (h : oprocessor) :
  let i_opcode := rom h (pc h) in
  let t := v_processor_tick h in
  (i_opcode = op_clear_s →
     ∀ i, arr_get (status t) i
          = if sticky i then arr_get (status h) i else 0) ∧
  (i_opcode = op_clr_s 5 ∨ i_opcode = op_clr_s 15 →
     keydown h ≠ 0 → status t = status h) ∧
  (∀ n, 0 ≤ n < 16 → n ≠ 5 → n ≠ 15 → i_opcode = op_clr_s n →
     status t = arr_set (status h) n 0).
Proof.
  intros i_opcode t. subst t. unfold v_processor_tick. fold i_opcode.
  generalize i_opcode; clear i_opcode; intros i_opcode.
  rewrite v_op_inc_pc_status. repeat apply conj.
  - intros -> i.
    change (execute h op_clear_s)
      with (for_up (length (status h)) 0 clear_s_body h).
    rewrite clear_s_loop. destruct (sticky i) eqn:Si.
    + by rewrite andb_false_r.
    + rewrite andb_true_r. case_bool_decide as Hi; [done|].
      unfold arr_get. case_bool_decide; [|done].
      by rewrite lookup_ge_None_2 by lia.
  - intros Hop Hk.
    assert (execute h i_opcode
            = if bool_decide (keydown h = 0)
              then set_status h (arr_set (status h) 15 0) else h) as ->
      by (by destruct Hop as [-> | ->]).
    by rewrite bool_decide_eq_false_2.
  - intros n Hn H5 H15 ->.
    assert (n = 0 ∨ n = 1 ∨ n = 2 ∨ n = 3 ∨ n = 4 ∨ n = 6 ∨ n = 7 ∨ n = 8 ∨
            n = 9 ∨ n = 10 ∨ n = 11 ∨ n = 12 ∨ n = 13 ∨ n = 14) as Hcases
      by lia.
    repeat (destruct Hcases as [-> | Hcases]; [reflexivity|]).
    subst n; reflexivity.
Qed.

(** Witness of C6 (amended): [0 -> s(15)] with a key held down. *)
Lemma C6_sticky_status_witness :
  status (v_processor_tick machine_key_s15) = status machine_key_s15.
Proof.
  destruct (C6_sticky_status machine_key_s15) as (_&H&_).
  apply H; clear H; [right; reflexivity | intros E; discriminate E].
Defined.

(** ** Branches *)

Lemma v_op_inc_pc_rom h : rom (v_op_inc_pc h) = rom h.
Proof. unfold v_op_inc_pc. by case_bool_decide. Qed.

Lemma v_op_inc_pc_delayed_rom_number h :
  delayed_rom_number (v_op_inc_pc h) = delayed_rom_number h.
Proof. unfold v_op_inc_pc. by case_bool_decide. Qed.

(** A goto that is taken with no bank pending: the word at [pc] becomes
    the program counter (less one). *)
Lemma v_op_goto_taken h :
  PREV_CARRY (flags h) = 0 → DELAYED_ROM (flags h) = 0 →
  v_op_goto h = set_pc h (rom h (pc h) - 1).
Proof.
  intros Hc Hd. unfold v_op_goto, delayed_rom_switch.
  rewrite bool_decide_eq_true_2 by done.
  by rewrite bool_decide_eq_false_2 by (by intros []).
Qed.

(** C7 (counterexample): started in page 5 (pc = 0x500) with status bit 4
    set, [if 1 = s(4)] followed by the word 0x123 leaves pc = 0x123: the
    high bits of pc are those of the word, not those of the page the
    branch started in. *)
Lemma C7_counterexample :
  pc machine_page5 = 1280 ∧
  arr_get (status machine_page5) 4 = 1 ∧
  rom machine_page5 1280 = op_if_s_eq_1 4 ∧
  rom machine_page5 1281 = 291 ∧
  pc (v_processor_tick machine_page5) = 291 ∧
  Z.land (pc (v_processor_tick machine_page5)) 65280
    ≠ Z.land (pc machine_page5) 65280.
Proof. vm_compute. repeat apply conj; congruence. Qed.

(** C7 (amended): for every state in which status bit 4 is set and no
    delayed ROM bank is pending, executing [if 1 = s(4)] whose following
    word is 0x123 takes the branch and leaves pc equal to 0x123, whatever
    the starting page: the whole program counter is replaced by the word,
    the page bits of the old pc are not kept. *)
Theorem C7_if_s4_goto (h : oprocessor) :
  arr_get (status h) 4 = 1 →
  DELAYED_ROM (flags h) = 0 →
  rom h (pc h) = op_if_s_eq_1 4 →
  rom h (pc (v_op_inc_pc h)) = 291 →
  pc (v_processor_tick h) = 291.
Proof.
  intros Hs Hd Hop Hnext. unfold v_processor_tick. rewrite Hop.
  change (execute h (op_if_s_eq_1 4))
    with (v_op_goto (v_op_inc_pc (set_CARRY h
            (c_bool (bool_decide (arr_get (status h) 4 ≠ 1)))))).
  rewrite Hs. change (c_bool (bool_decide (1 ≠ 1))) with 0.
  rewrite v_op_goto_taken
    by (rewrite v_op_inc_pc_flags; simpl; done).
  rewrite v_op_inc_pc_pc. cbn [pc set_pc].
  rewrite v_op_inc_pc_rom.
  change (rom (set_CARRY h 0)) with (rom h).
  replace (pc (v_op_inc_pc (set_CARRY h 0))) with (pc (v_op_inc_pc h))
    by (by rewrite !v_op_inc_pc_pc).
  rewrite Hnext. reflexivity.
Qed.

(** Witness of C7 (amended): reset, [1 -> s(4)], then [if 1 = s(4)] with
    the word 0x123 behind it. *)
Lemma C7_if_s4_goto_witness : pc (v_processor_tick machine_s4) = 291.
Proof.
  apply C7_if_s4_goto; vm_compute; reflexivity.
Defined.

(** ** Delayed ROM switching *)

Lemma delayed_rom_switch_pending h :
  DELAYED_ROM (flags h) ≠ 0 →
  delayed_rom_switch h =
  set_DELAYED_ROM
    (set_pc h (Z.lor (Z.shiftl (delayed_rom_number h) 8)
                     (Z.land (pc h) 255))) 0.
Proof. intros H. unfold delayed_rom_switch. by rewrite bool_decide_eq_true_2. Qed.

(** C10: with a delayed ROM bank pending, the long conditional branch
    [if nc goto] (low two bits 11) commits it, rewriting the high bits of
    pc from [delayed_rom_number] and clearing DELAYED_ROM, also when
    PREV_CARRY = 1 and the branch is not taken, in which case the low byte
    of pc is kept; the goto after a test instruction, which runs on the
    state [s] the test left after the pc advance latched its carry,
    commits the pending bank when the branch is taken (carry 0) and leaves
    DELAYED_ROM and pc alone when it is not. *)
Theorem C10_delayed_rom_commit (h s : oprocessor) (i_opcode : Z) :
  DELAYED_ROM (flags h) ≠ 0 →
  DELAYED_ROM (flags s) ≠ 0 →
  Z.land i_opcode 3 = 3 →
  let a := execute h i_opcode in
  let g := v_op_goto (v_op_inc_pc s) in
  DELAYED_ROM (flags a) = 0 ∧
  (PREV_CARRY (flags h) ≠ 0 →
     pc a = Z.lor (Z.shiftl (delayed_rom_number h) 8) (Z.land (pc h) 255)) ∧
  (PREV_CARRY (flags h) = 0 →
     pc a = Z.lor (Z.shiftl (delayed_rom_number h) 8)
              (Z.land (Z.lor (Z.land (pc h) 65280) (Z.shiftr i_opcode 2) - 1)
                 255)) ∧
  DELAYED_ROM (flags (v_op_inc_pc a)) = 0 ∧
  (CARRY (flags s) = 0 →
     DELAYED_ROM (flags g) = 0 ∧
     pc g = Z.lor (Z.shiftl (delayed_rom_number s) 8)
              (Z.land (rom s (pc (v_op_inc_pc s)) - 1) 255)) ∧
  (CARRY (flags s) ≠ 0 → g = v_op_inc_pc s ∧
     DELAYED_ROM (flags g) = DELAYED_ROM (flags s)).
Proof.
  intros Hh Hs Hclass a g.
  assert (a = delayed_rom_switch
                (if bool_decide (PREV_CARRY (flags h) = 0)
                 then set_pc h (Z.lor (Z.land (pc h) 65280)
                                  (Z.shiftr i_opcode 2) - 1)
                 else h)) as Ha.
  { subst a. unfold execute, long_branch. by rewrite !Hclass. }
  assert (DELAYED_ROM (flags a) = 0) as Ha0.
  { rewrite Ha. case_bool_decide; by rewrite delayed_rom_switch_pending. }
  repeat apply conj; try done.
  - intros Hc. rewrite Ha, bool_decide_eq_false_2 by done.
    by rewrite delayed_rom_switch_pending.
  - intros Hc. rewrite Ha, bool_decide_eq_true_2 by done.
    by rewrite delayed_rom_switch_pending.
  - by rewrite v_op_inc_pc_flags.
  - intros Hc. subst g. unfold v_op_goto.
    rewrite bool_decide_eq_true_2 by (by rewrite v_op_inc_pc_flags).
    rewrite delayed_rom_switch_pending
      by (cbn [flags set_pc]; by rewrite v_op_inc_pc_flags).
    cbn [flags pc set_pc set_DELAYED_ROM set_flags DELAYED_ROM
         delayed_rom_number rom].
    by rewrite v_op_inc_pc_rom, v_op_inc_pc_delayed_rom_number.
  - intros Hc. subst g. unfold v_op_goto.
    rewrite bool_decide_eq_false_2 by (by rewrite v_op_inc_pc_flags).
    by rewrite v_op_inc_pc_flags.
Qed.

(** Witness of C10: after [delayed select rom 2] and a borrow, the
    declined [if nc goto] still commits bank 2. *)
Lemma C10_delayed_rom_commit_witness :
  DELAYED_ROM (flags (execute machine_delayed (op_if_nc_goto 80))) = 0.
Proof.
  assert (DELAYED_ROM (flags machine_delayed) ≠ 0) as H
    by (vm_compute; intros E; discriminate E).
  exact (proj1 (C10_delayed_rom_commit machine_delayed machine_delayed
                  (op_if_nc_goto 80) H H eq_refl)).
Defined.

(** ** Incrementing C *)

Lemma v_op_inc_pc_reg h : reg (v_op_inc_pc h) = reg h.
Proof. by destruct (v_op_inc_pc_same h) as (?&_). Qed.

(** C8 (counterexample): in base 10, with C = 0 0 0 0 0 0 0 0 0 0 9 9 9 9
    and CARRY clear, [c + 1 -> c[w]] leaves C = 0 0 0 0 0 0 0 0 0 1 0 0 0 0
    and CARRY = 0: the carry out of nibble 3 is absorbed by nibble 4. *)
Lemma C8_counterexample :
  base machine_9999 = 10 ∧
  CARRY (flags machine_9999) = 0 ∧
  C_nibbles machine_9999 = [9; 9; 9; 9; 0; 0; 0; 0; 0; 0; 0; 0; 0; 0] ∧
  rom machine_9999 (pc machine_9999) = op_c_inc_w ∧
  C_nibbles (execute machine_9999 op_c_inc_w)
    = [0; 0; 0; 0; 1; 0; 0; 0; 0; 0; 0; 0; 0; 0] ∧
  CARRY (flags (execute machine_9999 op_c_inc_w)) = 0 ∧
  C_nibbles (execute machine_9999 op_c_inc_w) ≠ replicate 14 0 ∧
  CARRY (flags (execute machine_9999 op_c_inc_w)) ≠ 1 ∧
  C_nibbles (v_processor_tick machine_9999) ≠ replicate 14 0 ∧
  CARRY (flags (v_processor_tick machine_9999)) ≠ 1 ∧
  PREV_CARRY (flags (v_processor_tick machine_9999)) ≠ 1.
Proof. vm_compute. repeat apply conj; congruence. Qed.

(** C8 (amended): in base 10, starting from C whose four least-significant
    nibbles are 9 and all other nibbles 0, [c + 1 -> c[w]] leaves
    C = 0 0 0 0 0 0 0 0 0 1 0 0 0 0 (nibble 4 is 1, all others 0) and
    CARRY = 0, right after the operation and after the tick, which also
    leaves PREV_CARRY = 0. *)
Theorem C8_increment_9999 (h : oprocessor) :
  base h = 10 →
  C_nibbles h = [9; 9; 9; 9; 0; 0; 0; 0; 0; 0; 0; 0; 0; 0] →
  rom h (pc h) = op_c_inc_w →
  C_nibbles (execute h op_c_inc_w)
    = [0; 0; 0; 0; 1; 0; 0; 0; 0; 0; 0; 0; 0; 0] ∧
  CARRY (flags (execute h op_c_inc_w)) = 0 ∧
  C_nibbles (v_processor_tick h)
    = [0; 0; 0; 0; 1; 0; 0; 0; 0; 0; 0; 0; 0; 0] ∧
  CARRY (flags (v_processor_tick h)) = 0 ∧
  PREV_CARRY (flags (v_processor_tick h)) = 0.
Proof.
  intros Hbase HC Hop. unfold v_processor_tick. rewrite Hop.
  assert (C_nibbles (execute h op_c_inc_w)
            = [0; 0; 0; 0; 1; 0; 0; 0; 0; 0; 0; 0; 0; 0] ∧
          CARRY (flags (execute h op_c_inc_w)) = 0) as [H1 H2].
  { clear Hop.
    destruct h as [rg rm ro st ss fl c0 s0 p0 f0 fi la ba kc kd ad rn dn el].
    cbn [base] in Hbase. unfold C_nibbles in HC. cbn [reg] in HC. subst ba.
    destruct rg as [|rA [|rB [|[iC nC] rest]]]; [discriminate HC ..|].
    cbv in HC. subst nC. vm_compute. split; reflexivity. }
  assert (C_nibbles (v_op_inc_pc (execute h op_c_inc_w))
          = C_nibbles (execute h op_c_inc_w)) as Ht
    by (unfold C_nibbles; rewrite v_op_inc_pc_reg; reflexivity).
  rewrite Ht, v_op_inc_pc_flags. cbn [CARRY PREV_CARRY]. rewrite H1, H2.
  repeat apply conj; reflexivity.
Qed.

(** Witness of C8 (amended): the machine that entered 9999 by four
    [load 9]. *)
Lemma C8_increment_9999_witness :
  C_nibbles (execute machine_9999 op_c_inc_w)
    = [0; 0; 0; 0; 1; 0; 0; 0; 0; 0; 0; 0; 0; 0].
Proof.
  assert (base machine_9999 = 10) as Hb by (vm_compute; reflexivity).
  assert (C_nibbles machine_9999 = [9; 9; 9; 9; 0; 0; 0; 0; 0; 0; 0; 0; 0; 0])
    as HC by (vm_compute; reflexivity).
  assert (rom machine_9999 (pc machine_9999) = op_c_inc_w) as Hop
    by (vm_compute; reflexivity).
  exact (proj1 (C8_increment_9999 machine_9999 Hb HC Hop)).
Defined.

(** ** Decoder faults *)

(** A word the decoder does not accept is reported by one call of
    [v_error] and has no other effect before the pc advance. *)
Lemma execute_unexpected h i_opcode :
  unexpected_opcode i_opcode = true →
  ∃ line, execute h i_opcode
          = v_error h (Unexpected_opcode i_opcode (rom_number h) (pc h) line).
Proof.
  unfold unexpected_opcode. intros H.
  apply andb_prop in H as [Hclass H]. apply bool_decide_eq_true_1 in Hclass.
  unfold execute. rewrite Hclass. unfold special_group0, special_group2.
  destruct (Z.land (Z.shiftr i_opcode 2) 3) as [|g|g];
    destruct (Z.land (Z.shiftr i_opcode 4) 3) as [|s|s];
    repeat (discriminate H || case_match);
    solve [by eexists | vm_compute in H; discriminate H].
Qed.

(** On a processor fresh from reset, the 10-bit words reported as
    unexpected are exactly those of [unexpected_opcode]. *)
Lemma unexpected_opcode_exact :
  forallb (fun n => Bool.eqb (reports_opcode machine_nop (Z.of_nat n))
                             (unexpected_opcode (Z.of_nat n)))
          (seq 0 1024) = true.
Proof. vm_compute. reflexivity. Qed.

Lemma execute_arithmetic h i_opcode :
  Z.land i_opcode 3 = 2 →
  execute h i_opcode
  = arithmetic_op (decode_field h (Z.land (Z.shiftr i_opcode 2) 7)) i_opcode.
Proof. intros H. unfold execute. by rewrite H. Qed.

Lemma decode_field_P_clamped h :
  REG_SIZE ≤ p h →
  window (decode_field h 0) = (p h, 0) ∧
  errlog (decode_field h 0) = errlog h ++ [Unexpected_error 896].
Proof.
  intros Hp. unfold decode_field. cbn [p set_last set_first].
  by rewrite bool_decide_eq_true_2.
Qed.

Lemma decode_field_WP_clamped h :
  REG_SIZE ≤ p h →
  window (decode_field h 1) = (0, REG_SIZE - 1) ∧
  errlog (decode_field h 1) = errlog h ++ [Unexpected_error 905].
Proof.
  intros Hp. unfold decode_field. cbn [p set_last set_first].
  by rewrite bool_decide_eq_true_2.
Qed.

(** C9 (counterexample): the unknown word 00120, met with PREV_CARRY = 1,
    is reported, but the tick goes on: pc advances from 1 to 2 and
    PREV_CARRY changes to 0.  And [0 -> c[wp]] decoded with p = 14 reports
    an error (without bank, pc or opcode) and still clears the whole C
    register, whose nibble 0 held 7. *)
Lemma C9_counterexample :
  unexpected_opcode (rom machine_unknown (pc machine_unknown)) = true ∧
  pc machine_unknown = 1 ∧
  PREV_CARRY (flags machine_unknown) = 1 ∧
  errlog (v_processor_tick machine_unknown) = [Unexpected_opcode 80 0 1 651] ∧
  pc (v_processor_tick machine_unknown) = 2 ∧
  PREV_CARRY (flags (v_processor_tick machine_unknown)) = 0 ∧
  flags (v_processor_tick machine_unknown) ≠ flags machine_unknown ∧
  p machine_wp14 = 14 ∧
  rom machine_wp14 (pc machine_wp14) = op_zero_c_wp ∧
  Z.land (Z.shiftr op_zero_c_wp 2) 7 = 1 ∧
  C_nibbles machine_wp14 = [7; 0; 0; 0; 0; 0; 0; 0; 0; 0; 0; 0; 0; 0] ∧
  errlog (v_processor_tick machine_wp14) = [Unexpected_error 905] ∧
  C_nibbles (v_processor_tick machine_wp14) = replicate 14 0 ∧
  reg (v_processor_tick machine_wp14) ≠ reg machine_wp14.
Proof. vm_compute. repeat apply conj; congruence. Qed.

(** C9 (amended): for every special-class word that the decoder does not
    accept, the tick reports the word with the ROM bank number and the pc
    through [v_error] and carries on: registers, data registers, stack,
    status and all other state are unchanged, except that the pc advances
    and the carry is latched (PREV_CARRY := CARRY, CARRY := 0) as after
    every instruction.  When a P or WP field modifier is decoded with
    p >= 14, an error is reported (without bank, pc or opcode), the window
    is clamped to first = p, last = 0 for P and to [0..=13] for WP, and
    the arithmetic operation is executed on that window. *)
Theorem C9_decoder_fault (h : oprocessor) :
  let i_opcode := rom h (pc h) in
  let t := v_processor_tick h in
  let code := Z.land (Z.shiftr i_opcode 2) 7 in
  let d := decode_field h code in
  (unexpected_opcode i_opcode = true →
     (∃ line, errlog t = errlog h ++
                [Unexpected_opcode i_opcode (rom_number h) (pc h) line]) ∧
     same_machine h t ∧
     pc t = (if bool_decide (pc h < ROM_SIZE - 1) then pc h + 1 else 0) ∧
     PREV_CARRY (flags t) = CARRY (flags h) ∧
     CARRY (flags t) = 0) ∧
  (Z.land i_opcode 3 = 2 → REG_SIZE ≤ p h → code = 0 ∨ code = 1 →
     (∃ line, errlog d = errlog h ++ [Unexpected_error line]) ∧
     window d = (if bool_decide (code = 0) then (p h, 0)
                 else (0, REG_SIZE - 1)) ∧
     t = v_op_inc_pc (arithmetic_op d i_opcode)).
Proof.
  intros i_opcode t code d. subst t d code. unfold v_processor_tick.
  fold i_opcode. generalize i_opcode; clear i_opcode; intros i_opcode.
  split.
  - intros Hu. destruct (execute_unexpected h i_opcode Hu) as [line ->].
    set (m := Unexpected_opcode i_opcode (rom_number h) (pc h) line).
    rewrite v_op_inc_pc_pc, v_op_inc_pc_flags.
    destruct (v_op_inc_pc_same (v_error h m))
      as (?&?&?&?&?&?&?&?&?&?&?&?&?&?&?&?&?&?&?).
    repeat apply conj; try assumption; try reflexivity.
    exists line. unfold v_op_inc_pc. by case_bool_decide.
  - intros Hclass Hp Hcode.
    rewrite (execute_arithmetic h i_opcode Hclass).
    destruct Hcode as [Hc|Hc]; rewrite Hc.
    + destruct (decode_field_P_clamped h Hp) as [-> ->].
      repeat apply conj; [by eexists | reflexivity | reflexivity].
    + destruct (decode_field_WP_clamped h Hp) as [-> ->].
      repeat apply conj; [by eexists | reflexivity | reflexivity].
Qed.

(** Witness of C9 (amended): the unknown word 00120. *)
Lemma C9_decoder_fault_witness :
  ∃ line, errlog (v_processor_tick machine_unknown)
          = errlog machine_unknown ++
            [Unexpected_opcode (rom machine_unknown (pc machine_unknown))
               (rom_number machine_unknown) (pc machine_unknown) line].
Proof.
  assert (unexpected_opcode (rom machine_unknown (pc machine_unknown)) = true)
    as Hu by (vm_compute; reflexivity).
  exact (proj1 (proj1 (C9_decoder_fault machine_unknown) Hu)).
Defined.

(** ** Digits stay within the radix *)

Lemma arr_get_range b l i :
  0 < b → Forall (fun n => 0 ≤ n < b) l → 0 ≤ arr_get l i < b.
Proof.
  intros Hb Hl. unfold arr_get. case_bool_decide; [|lia].
  destruct (l !! Z.to_nat i) as [x|] eqn:E; simpl; [|lia].
  exact (Forall_lookup_1 _ _ _ _ Hl E).
Qed.

Lemma arr_set_range b l i v :
  0 ≤ v < b → Forall (fun n => 0 ≤ n < b) l →
  Forall (fun n => 0 ≤ n < b) (arr_set l i v).
Proof.
  intros Hv Hl. unfold arr_set. case_bool_decide; [|done].
  by apply Forall_insert.
Qed.

Lemma reg_file_get_range b l i :
  nibbles_in_base b l →
  Forall (fun n => 0 ≤ n < b) (nibble (reg_file_get l i)).
Proof.
  intros Hl. unfold reg_file_get. case_bool_decide; [|by constructor].
  destruct (l !! Z.to_nat i) as [x|] eqn:E; simpl; [|by constructor].
  exact (Forall_lookup_1 _ _ _ _ Hl E).
Qed.

Lemma reg_file_set_range b l i r :
  nibbles_in_base b l → Forall (fun n => 0 ≤ n < b) (nibble r) →
  nibbles_in_base b (reg_file_set l i r).
Proof.
  intros Hl Hr. unfold reg_file_set. case_bool_decide; [|done].
  by apply Forall_insert.
Qed.

Lemma nibbles_in_base_mono b b' l :
  b ≤ b' → nibbles_in_base b l → nibbles_in_base b' l.
Proof.
  intros Hb H. eapply Forall_impl; [exact H|]. intros r Hr.
  eapply Forall_impl; [exact Hr|]. intros n Hn. cbv beta in *. lia.
Qed.

Lemma digits_ok_base_pos h : digits_ok h → 0 < base h.
Proof. intros ([-> | ->] & _); done. Qed.

Lemma get_nibble_range h r i :
  digits_ok h → 0 ≤ get_nibble h r i < base h.
Proof.
  intros H. pose proof (digits_ok_base_pos h H) as Hb.
  destruct H as (_ & _ & _ & Hreg & Hram).
  unfold get_nibble. apply arr_get_range; [done|].
  destruct r; by apply reg_file_get_range.
Qed.

Lemma nibble_or_zero_range h r i :
  digits_ok h → 0 ≤ nibble_or_zero h r i < base h.
Proof.
  intros H. destruct r as [r|]; [by apply get_nibble_range|].
  pose proof (digits_ok_base_pos h H). simpl. lia.
Qed.

Lemma set_nibble_ok h r i v :
  digits_ok h → 0 ≤ v < base h → digits_ok (set_nibble h r i v).
Proof.
  intros (Hb & Hc & Hf & Hreg & Hram) Hv.
  destruct r; (split; [|split; [|split; [|split]]]); try done;
    cbn [base reg ram set_reg set_ram];
    apply reg_file_set_range; try done;
    cbn [nibble]; apply arr_set_range; try done;
    by apply reg_file_get_range.
Qed.

Lemma set_CARRY_ok h c : digits_ok h → c = 0 ∨ c = 1 → digits_ok (set_CARRY h c).
Proof. intros (Hb & _ & Hf & Hr) Hc. exact (conj Hb (conj Hc (conj Hf Hr))). Qed.

Lemma set_f_ok h v : digits_ok h → 0 ≤ v < base h → digits_ok (set_f h v).
Proof. intros (Hb & Hc & _ & Hr) Hv. exact (conj Hb (conj Hc (conj Hv Hr))). Qed.

Lemma set_base_binary_ok h : digits_ok h → digits_ok (set_base h 16).
Proof.
  intros (Hb & Hc & Hf & Hreg & Hram).
  assert (base h ≤ 16) by (destruct Hb as [-> | ->]; done).
  split; [by right|]. split; [done|]. split; [cbn [f base set_base]; lia|].
  split; cbn [base reg ram set_base]; by eapply nibbles_in_base_mono.
Qed.

Lemma set_base_same_ok h b : digits_ok h → base h = b → digits_ok (set_base h b).
Proof. intros H <-. by destruct h. Qed.

Lemma for_up_inv {St : Type} (P : St → Prop) (body : Z → St → St) n :
  (∀ i s, P s → P (body i s)) → ∀ i s, P s → P (for_up n i body s).
Proof.
  intros Hbody. induction n as [|n IH]; intros i s Hs; [done|].
  cbn [for_up]. by apply IH, Hbody.
Qed.

Lemma for_down_inv {St : Type} (P : St → Prop) (body : Z → St → St) n :
  (∀ i s, P s → P (body i s)) → ∀ i s, P s → P (for_down n i body s).
Proof.
  intros Hbody. induction n as [|n IH]; intros i s Hs; [done|].
  cbn [for_down]. by apply IH, Hbody.
Qed.

Lemma set_pc_ok h v : digits_ok h → digits_ok (set_pc h v).
Proof. intros H. exact H. Qed.

Lemma set_sp_ok h v : digits_ok h → digits_ok (set_sp h v).
Proof. intros H. exact H. Qed.

Lemma set_p_ok h v : digits_ok h → digits_ok (set_p h v).
Proof. intros H. exact H. Qed.

Lemma set_first_ok h v : digits_ok h → digits_ok (set_first h v).
Proof. intros H. exact H. Qed.

Lemma set_last_ok h v : digits_ok h → digits_ok (set_last h v).
Proof. intros H. exact H. Qed.

Lemma set_address_ok h v : digits_ok h → digits_ok (set_address h v).
Proof. intros H. exact H. Qed.

Lemma set_delayed_rom_number_ok h v : digits_ok h → digits_ok (set_delayed_rom_number h v).
Proof. intros H. exact H. Qed.

Lemma set_stack_ok h v : digits_ok h → digits_ok (set_stack h v).
Proof. intros H. exact H. Qed.

Lemma set_status_ok h v : digits_ok h → digits_ok (set_status h v).
Proof. intros H. exact H. Qed.

Lemma v_error_ok h m : digits_ok h → digits_ok (v_error h m).
Proof. intros H. exact H. Qed.

Lemma set_PREV_CARRY_ok h v : digits_ok h → digits_ok (set_PREV_CARRY h v).
Proof. intros H. exact H. Qed.

Lemma set_DELAYED_ROM_ok h v : digits_ok h → digits_ok (set_DELAYED_ROM h v).
Proof. intros H. exact H. Qed.

Lemma set_DISPLAY_ENABLE_ok h v : digits_ok h → digits_ok (set_DISPLAY_ENABLE h v).
Proof. intros H. exact H. Qed.

Lemma v_reg_copy_ok h d s : digits_ok h → digits_ok (v_reg_copy h d s).
Proof.
  intros H. unfold v_reg_copy. apply for_up_inv; [|done].
  clear. intros i h H. cbv zeta.
  by apply set_nibble_ok, nibble_or_zero_range.
Qed.

Lemma v_reg_exch_ok h d s : digits_ok h → digits_ok (v_reg_exch h d s).
Proof.
  intros H. unfold v_reg_exch. apply for_up_inv; [|done].
  clear. intros i h H. cbv zeta.
  assert (digits_ok (set_nibble h d i (get_nibble h s i))) as H'
    by (by apply set_nibble_ok, get_nibble_range).
  apply set_nibble_ok; [done|].
  replace (base (set_nibble h d i (get_nibble h s i))) with (base h)
    by (by destruct d).
  by apply get_nibble_range.
Qed.

Lemma v_reg_add_ok h d s a : digits_ok h → digits_ok (v_reg_add h d s a).
Proof.
  intros H. unfold v_reg_add. apply for_up_inv; [|done].
  clear. intros i h H. cbv zeta.
  pose proof (get_nibble_range h s i H).
  pose proof (nibble_or_zero_range h a i H).
  assert (CARRY (flags h) = 0 ∨ CARRY (flags h) = 1) as Hc by apply H.
  case_bool_decide; destruct d as [d|];
    try (apply set_nibble_ok; [|cbn [base set_CARRY set_flags]; lia]);
    apply set_CARRY_ok; auto.
Qed.

Lemma v_reg_sub_ok h d s a : digits_ok h → digits_ok (v_reg_sub h d s a).
Proof.
  intros H. unfold v_reg_sub. apply for_up_inv; [|done].
  clear. intros i h H. cbv zeta.
  pose proof (nibble_or_zero_range h s i H) as Hs.
  pose proof (nibble_or_zero_range h a i H).
  assert (CARRY (flags h) = 0 ∨ CARRY (flags h) = 1) as Hc by apply H.
  destruct s as [s|]; cbn [nibble_or_zero] in Hs;
    case_bool_decide; destruct d as [d|];
    try (apply set_nibble_ok; [|cbn [base set_CARRY set_flags]; lia]);
    apply set_CARRY_ok; auto.
Qed.

Lemma v_reg_inc_ok h r : digits_ok h → digits_ok (v_reg_inc h r).
Proof. intros H. apply v_reg_add_ok, set_CARRY_ok; auto. Qed.

Lemma v_reg_test_eq_ok h d s : digits_ok h → digits_ok (v_reg_test_eq h d s).
Proof.
  intros H. destruct (v_reg_test_eq_cases h d s) as [[_ ->]|[_ ->]];
    apply set_CARRY_ok; auto.
Qed.

Lemma v_reg_test_ne_ok h d s : digits_ok h → digits_ok (v_reg_test_ne h d s).
Proof.
  intros H. destruct (v_reg_test_ne_cases h d s) as [[_ ->]|[_ ->]];
    apply set_CARRY_ok; auto.
Qed.

Lemma v_reg_shr_ok h r : digits_ok h → digits_ok (v_reg_shr h r).
Proof.
  intros H. unfold v_reg_shr. apply for_up_inv; [|apply set_CARRY_ok; auto].
  clear. intros i h H. pose proof (digits_ok_base_pos h H).
  case_bool_decide; apply set_nibble_ok; try done; try lia.
  by apply get_nibble_range.
Qed.

Lemma v_reg_shl_ok h r : digits_ok h → digits_ok (v_reg_shl h r).
Proof.
  intros H. unfold v_reg_shl. cbv zeta.
  assert (digits_ok (for_down (trip_count (first h) (last h)) (last h)
    (fun i_count h0 =>
       if bool_decide (i_count = first h0)
       then set_nibble h0 r i_count 0
       else set_nibble h0 r i_count (get_nibble h0 r (i_count - 1))) h)) as H'.
  { apply for_down_inv; [|done]. clear. intros i h H.
    pose proof (digits_ok_base_pos h H).
    case_bool_decide; apply set_nibble_ok; try done; try lia.
    by apply get_nibble_range. }
  apply set_PREV_CARRY_ok, set_CARRY_ok; auto.
Qed.

Create HintDb dok discriminated.

#[local] Hint Resolve set_pc_ok set_sp_ok set_p_ok set_first_ok set_last_ok
  set_address_ok set_delayed_rom_number_ok set_stack_ok set_status_ok
  v_error_ok set_PREV_CARRY_ok set_DELAYED_ROM_ok set_DISPLAY_ENABLE_ok
  set_CARRY_ok set_base_binary_ok v_reg_copy_ok v_reg_exch_ok v_reg_add_ok
  v_reg_sub_ok v_reg_inc_ok v_reg_test_eq_ok v_reg_test_ne_ok v_reg_shr_ok
  v_reg_shl_ok : dok.

Lemma delayed_rom_switch_ok h : digits_ok h → digits_ok (delayed_rom_switch h).
Proof. intros H. unfold delayed_rom_switch. case_bool_decide; auto with dok. Qed.

Lemma v_op_inc_pc_ok h : digits_ok h → digits_ok (v_op_inc_pc h).
Proof.
  intros H. unfold v_op_inc_pc. case_bool_decide; auto 6 with dok.
Qed.

Lemma v_op_goto_ok h : digits_ok h → digits_ok (v_op_goto h).
Proof.
  intros H. unfold v_op_goto. case_bool_decide; [|done].
  by apply delayed_rom_switch_ok, set_pc_ok.
Qed.

Lemma op_jsb_ok h i_count : digits_ok h → digits_ok (op_jsb h i_count).
Proof.
  intros H. unfold op_jsb. apply delayed_rom_switch_ok. auto with dok.
Qed.

#[local] Hint Resolve delayed_rom_switch_ok v_op_inc_pc_ok v_op_goto_ok
  op_jsb_ok : dok.

Lemma v_processor_clear_data_registers_ok h :
  digits_ok h → digits_ok (v_processor_clear_data_registers h).
Proof.
  intros H. unfold v_processor_clear_data_registers.
  apply for_up_inv; auto with dok.
Qed.

Lemma v_processor_clear_registers_ok h :
  digits_ok h → digits_ok (v_processor_clear_registers h).
Proof.
  intros H. unfold v_processor_clear_registers.
  apply for_up_inv; [auto with dok|].
  apply for_up_inv; auto with dok.
Qed.

Lemma clear_s_body_ok i h : digits_ok h → digits_ok (clear_s_body i h).
Proof. intros H. unfold clear_s_body. repeat case_match; auto with dok. Qed.

#[local] Hint Resolve v_processor_clear_data_registers_ok
  v_processor_clear_registers_ok clear_s_body_ok : dok.

Lemma decode_field_ok h i_field : digits_ok h → digits_ok (decode_field h i_field).
Proof.
  intros H. unfold decode_field.
  repeat case_match; try case_bool_decide; auto 6 with dok.
Qed.

Lemma arithmetic_op_ok h i_opcode :
  digits_ok h → digits_ok (arithmetic_op h i_opcode).
Proof.
  intros H. unfold arithmetic_op. cbv zeta.
  repeat case_match; auto 6 with dok.
Qed.

Lemma long_branch_ok h i_opcode : digits_ok h → digits_ok (long_branch h i_opcode).
Proof.
  intros H. unfold long_branch.
  repeat case_match; try case_bool_decide; auto 6 with dok.
Qed.

Lemma special_group0_ok h i_opcode :
  digits_ok h → digits_ok (special_group0 h i_opcode).
Proof.
  intros H. unfold special_group0.
  repeat case_match; repeat case_bool_decide; auto 6 with dok.
Qed.

Lemma special_group1_ok h i_opcode :
  digits_ok h → digits_ok (special_group1 h i_opcode).
Proof.
  intros H. unfold special_group1. unfold c_bool.
  repeat case_match; auto 8 with dok.
Qed.

Lemma special_group3_ok h i_opcode :
  digits_ok h → digits_ok (special_group3 h i_opcode).
Proof.
  intros H. unfold special_group3. unfold c_bool.
  repeat case_match; repeat case_bool_decide; auto 8 with dok.
Qed.

Lemma special_group2_ok h i_opcode :
  digits_ok h →
  (i_opcode = op_decimal → base h = 10) →
  (Z.land (Z.shiftr i_opcode 4) 3 = 1 → 0 ≤ Z.shiftr i_opcode 6 < base h) →
  digits_ok (special_group2 h i_opcode).
Proof.
  intros H Hdec Hload. unfold special_group2.
  destruct (Z.land (Z.shiftr i_opcode 4) 3) as [|s|s] eqn:Hs;
    [|repeat case_match; subst; repeat case_bool_decide ..];
    auto 6 with dok.
  { repeat case_match; subst; repeat case_bool_decide; auto 8 with dok.
    all: lazymatch goal with
         | |- digits_ok (set_f _ _) =>
             apply set_f_ok;
               [apply set_nibble_ok; [done|apply H]
               |cbn [base set_nibble set_reg]; by apply get_nibble_range]
         | |- digits_ok (set_nibble _ _ _ _) =>
             apply set_nibble_ok; [done|apply H]
         | |- digits_ok (set_base _ _) =>
             apply set_base_same_ok; [done|by apply Hdec]
         | |- digits_ok (for_up _ _ _ _) =>
             apply for_up_inv; auto with dok
         end. }
  all: apply set_p_ok, set_nibble_ok; [done|by apply Hload].
Qed.

Lemma execute_ok h i_opcode :
  digits_ok h →
  (i_opcode = op_decimal → base h = 10) →
  (is_load i_opcode → 0 ≤ Z.shiftr i_opcode 6 < base h) →
  digits_ok (execute h i_opcode).
Proof.
  intros H Hdec Hload. unfold execute, is_load in *. cbv zeta.
  destruct (Z.land i_opcode 3) as [|c|c] eqn:Hclass.
  - destruct (Z.land (Z.shiftr i_opcode 2) 3) as [|g|g] eqn:Hg;
      [|repeat case_match; subst ..];
      auto using special_group0_ok, special_group1_ok, special_group3_ok.
    apply special_group2_ok; auto.
  - repeat case_match;
      auto using op_jsb_ok, long_branch_ok, arithmetic_op_ok,
        decode_field_ok, v_error_ok.
  - by apply v_error_ok.
Qed.

(** Nibble 0 of register C (index 2) refutes [registers_in_base]. *)
Lemma not_registers_in_base h i r n :
  reg h !! i = Some r → nibble r !! 0%nat = Some n → base h ≤ n →
  ¬ registers_in_base h.
Proof.
  intros Hr Hn Hb [Hreg _].
  pose proof (Forall_lookup_1 _ _ _ _ Hreg Hr) as Hnib.
  pose proof (Forall_lookup_1 _ _ _ _ Hnib Hn) as Hrange.
  cbv beta in Hrange. lia.
Qed.

Lemma fresh_digits_ok l : digits_ok (fresh l).
Proof.
  split; [by left|]. split; [by left|]. split; [done|].
  unfold registers_in_base, nibbles_in_base.
  assert (base (fresh l) = 10) as -> by reflexivity.
  assert (reg (fresh l)
          = (fun i => mk_register ((Z.of_nat i + 1) * -1) (replicate 14 0))
              <$> seq 0 8) as -> by (vm_compute; reflexivity).
  assert (ram (fresh l)
          = (fun i => mk_register (Z.of_nat i) (replicate 14 0))
              <$> seq 0 20) as -> by (vm_compute; reflexivity).
  split; apply Forall_fmap, Forall_true; intros i;
    apply Forall_replicate; done.
Qed.

(** C4 (counterexample): one tick after reset, [load 15] has stored the
    nibble 15 in C while the radix is 10; and after [binary], a borrowing
    [c - 1 -> c[w]] and [decimal] every nibble of C is 15 while the radix
    is 10 again. *)
Lemma C4_counterexample :
  registers_in_base machine_load15 ∧
  base (v_processor_tick machine_load15) = 10 ∧
  C_nibbles (v_processor_tick machine_load15)
    = [15; 0; 0; 0; 0; 0; 0; 0; 0; 0; 0; 0; 0; 0] ∧
  ¬ registers_in_base (v_processor_tick machine_load15) ∧
  registers_in_base machine_hex ∧
  base (run 3 machine_hex) = 10 ∧
  C_nibbles (run 3 machine_hex) = replicate 14 15 ∧
  ¬ registers_in_base (run 3 machine_hex).
Proof.
  split; [apply fresh_digits_ok|].
  split; [vm_compute; reflexivity|].
  split; [vm_compute; reflexivity|].
  split.
  { apply (not_registers_in_base _ 2%nat
             (mk_register (-3) [15; 0; 0; 0; 0; 0; 0; 0; 0; 0; 0; 0; 0; 0]) 15);
      vm_compute; congruence. }
  split; [apply fresh_digits_ok|].
  split; [vm_compute; reflexivity|].
  split; [vm_compute; reflexivity|].
  apply (not_registers_in_base _ 2%nat
           (mk_register (-3) (replicate 14 15)) 15);
    vm_compute; congruence.
Qed.

(** * Further properties of the simulator *)

(** ** Reading and writing nibbles *)

Lemma arr_get_set l i j v :
  arr_get (arr_set l i v) j
  = if bool_decide (j = i ∧ 0 ≤ i < Z.of_nat (length l)) then v
    else arr_get l j.
Proof.
  unfold arr_get, arr_set.
  case_bool_decide as Hj; [|case_bool_decide; [lia | done]].
  case_bool_decide as Hi; case_bool_decide as E; try lia; try done.
  - destruct E as [-> E]. by rewrite list_lookup_insert_eq by lia.
  - destruct (decide (j = i)) as [->|].
    + rewrite list_insert_ge by lia. done.
    + rewrite list_lookup_insert_ne; [done | lia].
Qed.

Lemma arr_set_length l i v : length (arr_set l i v) = length l.
Proof. unfold arr_set. case_bool_decide; [apply length_insert | done]. Qed.

Lemma reg_file_get_set l i j r :
  reg_file_get (reg_file_set l i r) j
  = if bool_decide (j = i ∧ 0 ≤ i < Z.of_nat (length l)) then r
    else reg_file_get l j.
Proof.
  unfold reg_file_get, reg_file_set.
  case_bool_decide as Hj; [|case_bool_decide; [lia | done]].
  case_bool_decide as Hi; case_bool_decide as E; try lia; try done.
  - destruct E as [-> E]. by rewrite list_lookup_insert_eq by lia.
  - destruct (decide (j = i)) as [->|].
    + rewrite list_insert_ge by lia. done.
    + rewrite list_lookup_insert_ne; [done | lia].
Qed.

Lemma reg_file_get_outside l i :
  ¬ 0 ≤ i < Z.of_nat (length l) → reg_file_get l i = no_register.
Proof.
  intros H. unfold reg_file_get. case_bool_decide; [|done].
  by rewrite lookup_ge_None_2 by lia.
Qed.

(** The register behind [r'] after [r->nibble[i] = v]. *)
Lemma deref_set_nibble h r i v r' :
  deref (set_nibble h r i v) r'
  = if bool_decide (r' = r)
    then mk_register (id (deref h r)) (arr_set (nibble (deref h r)) i v)
    else deref h r'.
Proof.
  destruct r as [k|k], r' as [k'|k']; cbn [deref set_nibble reg ram set_reg set_ram];
    try (rewrite bool_decide_eq_false_2 by (intros E; discriminate E); done).
  all: rewrite reg_file_get_set.
  all: case_bool_decide as E; case_bool_decide as E'; try done.
  all: try (destruct E as [-> _]; by destruct E').
  all: injection E' as ->.
  all: rewrite reg_file_get_outside by (intros ?; apply E; done).
  all: by destruct i as [|q|q].
Qed.

Lemma get_nibble_set_nibble h r i v r' j :
  get_nibble (set_nibble h r i v) r' j
  = if bool_decide (r' = r ∧ j = i ∧ valid_nibble h r i) then v
    else get_nibble h r' j.
Proof.
  unfold get_nibble, valid_nibble, reg_len. rewrite deref_set_nibble.
  case_bool_decide as E; [subst r'|].
  - cbn [nibble]. rewrite arr_get_set.
    case_bool_decide as E1; case_bool_decide as E2;
      intuition (congruence || lia).
  - by rewrite bool_decide_eq_false_2 by (intuition congruence).
Qed.

Lemma reg_len_set_nibble h r i v r' :
  reg_len (set_nibble h r i v) r' = reg_len h r'.
Proof.
  unfold reg_len. rewrite deref_set_nibble.
  case_bool_decide as E; [subst r'|done].
  cbn [nibble]. by rewrite arr_set_length.
Qed.

Lemma same_control_refl h : same_control h h.
Proof. by repeat split. Qed.

Lemma same_control_trans h1 h2 h3 :
  same_control h1 h2 → same_control h2 h3 → same_control h1 h3.
Proof.
  unfold same_control. intros H12 H23.
  destruct H12 as (?&?&?&?&?&?&?&?&?&?&?&?&?&?&?&?).
  destruct H23 as (?&?&?&?&?&?&?&?&?&?&?&?&?&?&?&?).
  repeat apply conj; congruence.
Qed.

Lemma same_control_set_nibble h r i v : same_control h (set_nibble h r i v).
Proof. destruct r; by repeat split. Qed.

Lemma same_control_set_flags h fl : same_control h (set_flags h fl).
Proof. by repeat split. Qed.

Lemma flags_set_nibble h r i v : flags (set_nibble h r i v) = flags h.
Proof. by destruct r. Qed.

Lemma base_set_nibble h r i v : base (set_nibble h r i v) = base h.
Proof. by destruct r. Qed.

Lemma nibble_or_zero_set_nibble h r i v s j :
  nibble_or_zero (set_nibble h r i v) s j
  = if bool_decide (s = Some r ∧ j = i ∧ valid_nibble h r i) then v
    else nibble_or_zero h s j.
Proof.
  destruct s as [s|]; cbn [nibble_or_zero].
  - rewrite get_nibble_set_nibble.
    rewrite (bool_decide_ext _ (Some s = Some r ∧ j = i ∧ valid_nibble h r i));
      [done|].
    split; intros (E & ? & ?); (split; [congruence|split; assumption]).
  - by rewrite bool_decide_eq_false_2 by (intuition congruence).
Qed.

(** ** Copy and exchange *)

Lemma copy_loop d s n : ∀ lo h,
  let g := for_up n lo
             (fun i_count h =>
                let i_temp := nibble_or_zero h s i_count in
                set_nibble h d i_count i_temp) h in
  (∀ r j, get_nibble g r j
          = if bool_decide (r = d ∧ lo ≤ j < lo + Z.of_nat n ∧
                            valid_nibble h d j)
            then nibble_or_zero h s j else get_nibble h r j) ∧
  same_control h g ∧ flags g = flags h ∧ (∀ r, reg_len g r = reg_len h r).
Proof.
  induction n as [|n IH]; intros lo h; cbn [for_up]; cbv zeta.
  - split; [|split; [apply same_control_refl|split; done]].
    intros r j. by rewrite bool_decide_eq_false_2 by lia.
  - destruct (IH (lo + 1) (set_nibble h d lo (nibble_or_zero h s lo)))
      as (Hg & Hc & Hf & Hl). cbv zeta in Hg, Hc, Hf, Hl.
    split; [|split; [|split]].
    + intros r j. rewrite Hg. clear Hg Hc Hf Hl IH.
      rewrite nibble_or_zero_set_nibble, get_nibble_set_nibble.
      unfold valid_nibble. rewrite reg_len_set_nibble.
      repeat case_bool_decide; try reflexivity;
        try (exfalso; intuition lia); intuition (subst; congruence).
    + eapply same_control_trans; [apply same_control_set_nibble | exact Hc].
    + by rewrite Hf, flags_set_nibble.
    + intros r. by rewrite Hl, reg_len_set_nibble.
Qed.

(** X1: [v_reg_copy] writes the source's nibbles (zero when the source is
    absent) into the field of the destination, leaves every other nibble
    of every register as it was, and touches neither the flags, the carry
    included, nor any other part of the state. *)
Theorem v_reg_copy_effect (h : oprocessor) (d : regptr) (s : option regptr) :
  let h' := v_reg_copy h d s in
  (∀ i, first h ≤ i ≤ last h → valid_nibble h d i →
        get_nibble h' d i = nibble_or_zero h s i) ∧
  (∀ r j, ¬ (r = d ∧ first h ≤ j ≤ last h) →
          get_nibble h' r j = get_nibble h r j) ∧
  flags h' = flags h ∧ same_control h h'.
Proof.
  intros h'. subst h'. unfold v_reg_copy.
  destruct (copy_loop d s (trip_count (first h) (last h)) (first h) h)
    as (Hg & Hc & Hf & _). cbv zeta in Hg, Hc, Hf.
  split; [|split; [|split; done]].
  - intros i Hi Hv. rewrite Hg, bool_decide_eq_true_2; [done|].
    unfold trip_count. split; [done|split; [lia|done]].
  - intros r j Hn. rewrite Hg, bool_decide_eq_false_2; [done|].
    unfold trip_count. intros (-> & ? & ?). apply Hn. split; [done|lia].
Qed.

Lemma exch_loop d s n : d ≠ s → ∀ lo h,
  let g := for_up n lo
             (fun i_count h =>
                let i_temp := get_nibble h d i_count in
                let h := set_nibble h d i_count (get_nibble h s i_count) in
                set_nibble h s i_count i_temp) h in
  (∀ r j, get_nibble g r j
          = if bool_decide (r = d ∧ lo ≤ j < lo + Z.of_nat n ∧
                            valid_nibble h d j)
            then get_nibble h s j
            else if bool_decide (r = s ∧ lo ≤ j < lo + Z.of_nat n ∧
                                 valid_nibble h s j)
            then get_nibble h d j else get_nibble h r j) ∧
  same_control h g ∧ flags g = flags h ∧ (∀ r, reg_len g r = reg_len h r).
Proof.
  intros Hds. induction n as [|n IH]; intros lo h; cbn [for_up]; cbv zeta.
  - split; [|split; [apply same_control_refl|split; done]].
    intros r j. by rewrite !bool_decide_eq_false_2 by lia.
  - destruct (IH (lo + 1)
                (set_nibble (set_nibble h d lo (get_nibble h s lo)) s lo
                   (get_nibble h d lo)))
      as (Hg & Hc & Hf & Hl). cbv zeta in Hg, Hc, Hf, Hl.
    split; [|split; [|split]].
    + intros r j. rewrite Hg. clear Hg Hc Hf Hl IH.
      rewrite !get_nibble_set_nibble.
      unfold valid_nibble. rewrite !reg_len_set_nibble.
      repeat case_bool_decide; try reflexivity;
        try (exfalso; intuition lia); intuition (subst; congruence).
    + eapply same_control_trans; [|exact Hc].
      eapply same_control_trans; apply same_control_set_nibble.
    + by rewrite Hf, !flags_set_nibble.
    + intros r. by rewrite Hl, !reg_len_set_nibble.
Qed.

(** X2: [v_reg_exch] on two different registers swaps their nibbles inside the
    field, leaves every other nibble of every register as it was, and
    touches neither the flags nor any other part of the state. *)
Theorem v_reg_exch_effect (h : oprocessor) (d s : regptr) :
  d ≠ s →
  let h' := v_reg_exch h d s in
  (∀ i, first h ≤ i ≤ last h → valid_nibble h d i → valid_nibble h s i →
        get_nibble h' d i = get_nibble h s i ∧
        get_nibble h' s i = get_nibble h d i) ∧
  (∀ r j, ¬ ((r = d ∨ r = s) ∧ first h ≤ j ≤ last h) →
          get_nibble h' r j = get_nibble h r j) ∧
  flags h' = flags h ∧ same_control h h'.
Proof.
  intros Hds h'. subst h'. unfold v_reg_exch.
  destruct (exch_loop d s (trip_count (first h) (last h)) Hds (first h) h)
    as (Hg & Hc & Hf & _). cbv zeta in Hg, Hc, Hf.
  split; [|split; [|split; done]].
  - intros i Hi Hvd Hvs. rewrite !Hg. unfold trip_count.
    rewrite (bool_decide_eq_true_2 (d = d ∧ _)) by (split; [done|split; [lia|done]]).
    rewrite (bool_decide_eq_false_2 (s = d ∧ _)) by (intros (E & _); by destruct Hds).
    rewrite (bool_decide_eq_true_2 (s = s ∧ _)) by (split; [done|split; [lia|done]]).
    done.
  - intros r j Hn. rewrite Hg. unfold trip_count.
    rewrite !bool_decide_eq_false_2; [done| |];
      intros (-> & ? & ?); apply Hn; (split; [auto|lia]).
Qed.

(** X3: Exchanging two different registers of equal length twice gives back
    every nibble of every register. *)
Theorem v_reg_exch_twice (h : oprocessor) (d s : regptr) :
  d ≠ s → reg_len h d = reg_len h s →
  ∀ r j, get_nibble (v_reg_exch (v_reg_exch h d s) d s) r j
         = get_nibble h r j.
Proof.
  intros Hds Hlen r j. unfold v_reg_exch.
  set (n := trip_count (first h) (last h)).
  destruct (exch_loop d s n Hds (first h) h) as (Hg & Hc & _ & Hl).
  cbv zeta in Hg, Hc, Hl.
  set (h1 := for_up n (first h) _ h) in *.
  assert (first h1 = first h ∧ last h1 = last h) as [-> ->]
    by (destruct Hc as (_&_&_&_&_&_&_&?&?&_); done).
  fold n.
  destruct (exch_loop d s n Hds (first h) h1) as (Hg2 & _).
  cbv zeta in Hg2. rewrite Hg2, !Hg. clear Hg2 Hg.
  unfold valid_nibble. rewrite !Hl, Hlen.
  repeat case_bool_decide; try reflexivity;
    try (exfalso; intuition (congruence || lia)); intuition (subst; congruence).
Qed.

(** ** Addition and subtraction *)

Lemma v_reg_add_unfold h d s a :
  v_reg_add h d s a
  = for_up (trip_count (first h) (last h)) (first h) (add_body d s a) h.
Proof. reflexivity. Qed.

Lemma v_reg_sub_unfold h d s a :
  v_reg_sub h d s a
  = for_up (trip_count (first h) (last h)) (first h) (sub_body d s a) h.
Proof. reflexivity. Qed.

Lemma field_value_ext b g g' n : ∀ lo,
  (∀ j, lo ≤ j < lo + Z.of_nat n → g j = g' j) →
  field_value b g lo n = field_value b g' lo n.
Proof.
  induction n as [|n IH]; intros lo H; cbn [field_value]; [done|].
  rewrite (H lo), (IH (lo + 1)); [done| |lia].
  intros j Hj. apply H. lia.
Qed.

Lemma field_value_range b g n : ∀ lo,
  0 < b →
  (∀ j, lo ≤ j < lo + Z.of_nat n → 0 ≤ g j < b) →
  0 ≤ field_value b g lo n < b ^ Z.of_nat n.
Proof.
  induction n as [|n IH]; intros lo Hb H; cbn [field_value].
  - change (b ^ Z.of_nat 0) with 1. lia.
  - rewrite Nat2Z.inj_succ, Z.pow_succ_r by lia.
    pose proof (H lo ltac:(lia)).
    assert (0 ≤ field_value b g (lo + 1) n < b ^ Z.of_nat n) as IH'
      by (apply IH; [done|]; intros j Hj; apply H; lia).
    nia.
Qed.

(** One iteration of the adder: the digit and carry it leaves. *)
Lemma add_body_eq d s a i h :
  let t := get_nibble h s i + nibble_or_zero h a i + CARRY (flags h) in
  let c := if bool_decide (base h ≤ t) then 1 else 0 in
  add_body d s a i h = digit_step h d c i (t - base h * c).
Proof.
  intros t c. unfold add_body, digit_step. fold t. subst c.
  case_bool_decide; destruct d; try done; f_equal; lia.
Qed.

Lemma sub_body_eq d s a i h :
  let t := nibble_or_zero h s i - nibble_or_zero h a i - CARRY (flags h) in
  let c := if bool_decide (t < 0) then 1 else 0 in
  sub_body d s a i h = digit_step h d c i (t + base h * c).
Proof.
  intros t c. unfold sub_body, digit_step.
  replace (match s with
           | Some s0 => get_nibble h s0 i - nibble_or_zero h a i
           | None => 0 - nibble_or_zero h a i
           end) with (nibble_or_zero h s i - nibble_or_zero h a i)
    by (destruct s; cbn [nibble_or_zero]; lia).
  fold t. subst c.
  case_bool_decide; destruct d; try done; f_equal; lia.
Qed.

(** What one digit step does to the observations of the state. *)
Lemma digit_step_get h d c i v r j :
  get_nibble (digit_step h d c i v) r j
  = if bool_decide (d = Some r ∧ j = i ∧ valid_nibble h r i) then v
    else get_nibble h r j.
Proof.
  unfold digit_step. destruct d as [d'|].
  - rewrite get_nibble_set_nibble, get_nibble_set_CARRY.
    apply (f_equal (fun b : bool => if b then v else get_nibble h r j)).
    apply bool_decide_ext.
    split; intros (E & ? & ?).
    + subst r. done.
    + injection E as ->. done.
  - rewrite get_nibble_set_CARRY.
    by rewrite bool_decide_eq_false_2 by (intros (E & _); discriminate E).
Qed.

Lemma digit_step_get_other h d c i v r j :
  j ≠ i → get_nibble (digit_step h d c i v) r j = get_nibble h r j.
Proof.
  intros H. rewrite digit_step_get.
  by rewrite bool_decide_eq_false_2 by (intros (_ & ? & _); done).
Qed.

Lemma digit_step_noz_other h d c i v r j :
  j ≠ i → nibble_or_zero (digit_step h d c i v) r j = nibble_or_zero h r j.
Proof.
  intros H. destruct r as [r|]; [|done]. by apply digit_step_get_other.
Qed.

Lemma digit_step_len h d c i v r :
  reg_len (digit_step h d c i v) r = reg_len h r.
Proof.
  unfold digit_step. destruct d; [rewrite reg_len_set_nibble|]; done.
Qed.

Lemma digit_step_control h d c i v : same_control h (digit_step h d c i v).
Proof.
  unfold digit_step. destruct d.
  - eapply same_control_trans; [|apply same_control_set_nibble].
    apply same_control_set_flags.
  - apply same_control_set_flags.
Qed.

Lemma digit_step_flags h d c i v :
  flags (digit_step h d c i v)
  = mk_flags (MODE (flags h)) c (PREV_CARRY (flags h))
      (DELAYED_ROM (flags h)) (DISPLAY_ENABLE (flags h)) (TRACE (flags h)).
Proof. unfold digit_step. destruct d; [rewrite flags_set_nibble|]; done. Qed.

Lemma digit_step_base h d c i v : base (digit_step h d c i v) = base h.
Proof. by destruct (digit_step_control h d c i v) as (_&_&_&_&_&_&_&_&_&?&_). Qed.

(** A loop of digit steps only writes the destination inside the range it
    runs over, and touches nothing else but the carry. *)
Section digit_loop.
Variables (d : option regptr) (body : Z → oprocessor → oprocessor).
Variables (cf vf : Z → oprocessor → Z).
Hypothesis body_eq : ∀ i h, body i h = digit_step h d (cf i h) i (vf i h).

Lemma digit_loop_frame n : ∀ lo h,
  let g := for_up n lo body h in
  (∀ r j, ¬ (d = Some r ∧ lo ≤ j < lo + Z.of_nat n) →
          get_nibble g r j = get_nibble h r j) ∧
  same_control h g ∧ same_mode_flags h g ∧
  PREV_CARRY (flags g) = PREV_CARRY (flags h) ∧
  (∀ r, reg_len g r = reg_len h r).
Proof.
  induction n as [|n IH]; intros lo h; cbn [for_up]; cbv zeta.
  - split; [done|]. split; [apply same_control_refl|]. by repeat split.
  - rewrite body_eq. set (h1 := digit_step h d _ lo _).
    destruct (IH (lo + 1) h1) as (Hg & Hc & Hm & Hp & Hl).
    cbv zeta in Hg, Hc, Hm, Hp, Hl.
    split; [|split; [|split; [|split]]].
    + intros r j Hn. rewrite Hg by (intros (? & ?); apply Hn; split; [done|lia]).
      unfold h1. rewrite digit_step_get.
      by rewrite bool_decide_eq_false_2
        by (intros (? & ? & _); apply Hn; split; [done|lia]).
    + eapply same_control_trans; [apply digit_step_control | exact Hc].
    + unfold same_mode_flags in *. unfold h1 in Hm.
      rewrite digit_step_flags in Hm. exact Hm.
    + rewrite Hp. unfold h1. by rewrite digit_step_flags.
    + intros r. rewrite Hl. unfold h1. by rewrite digit_step_len.
Qed.
End digit_loop.

Lemma add_loop_frame d s a n lo h :
  let g := for_up n lo (add_body d s a) h in
  (∀ r j, ¬ (d = Some r ∧ lo ≤ j < lo + Z.of_nat n) →
          get_nibble g r j = get_nibble h r j) ∧
  same_control h g ∧ same_mode_flags h g ∧
  PREV_CARRY (flags g) = PREV_CARRY (flags h) ∧
  (∀ r, reg_len g r = reg_len h r).
Proof.
  apply (digit_loop_frame d (add_body d s a)
           (fun i h => if bool_decide
                         (base h ≤ get_nibble h s i + nibble_or_zero h a i
                                   + CARRY (flags h)) then 1 else 0)
           (fun i h => get_nibble h s i + nibble_or_zero h a i
                       + CARRY (flags h)
                       - base h * (if bool_decide
                         (base h ≤ get_nibble h s i + nibble_or_zero h a i
                                   + CARRY (flags h)) then 1 else 0))).
  intros i h0. apply add_body_eq.
Qed.

Lemma sub_loop_frame d s a n lo h :
  let g := for_up n lo (sub_body d s a) h in
  (∀ r j, ¬ (d = Some r ∧ lo ≤ j < lo + Z.of_nat n) →
          get_nibble g r j = get_nibble h r j) ∧
  same_control h g ∧ same_mode_flags h g ∧
  PREV_CARRY (flags g) = PREV_CARRY (flags h) ∧
  (∀ r, reg_len g r = reg_len h r).
Proof.
  apply (digit_loop_frame d (sub_body d s a)
           (fun i h => if bool_decide
                         (nibble_or_zero h s i - nibble_or_zero h a i
                          - CARRY (flags h) < 0) then 1 else 0)
           (fun i h => nibble_or_zero h s i - nibble_or_zero h a i
                       - CARRY (flags h)
                       + base h * (if bool_decide
                         (nibble_or_zero h s i - nibble_or_zero h a i
                          - CARRY (flags h) < 0) then 1 else 0))).
  intros i h0. apply sub_body_eq.
Qed.

(** The carry chain of the adder: the digits [D] it produces and the
    carry it leaves represent the sum of the two fields and the incoming
    carry. *)
Lemma add_loop_value d s a n : ∀ lo h,
  let g := for_up n lo (add_body d s a) h in
  let b := base h in
  ∃ D : Z → Z,
    field_value b D lo n + b ^ Z.of_nat n * CARRY (flags g)
    = field_value b (get_nibble h s) lo n
      + field_value b (nibble_or_zero h a) lo n + CARRY (flags h) ∧
    (∀ r j, d = Some r → lo ≤ j < lo + Z.of_nat n → valid_nibble h r j →
            get_nibble g r j = D j) ∧
    (0 < b → CARRY (flags h) = 0 ∨ CARRY (flags h) = 1 →
     (∀ j, lo ≤ j < lo + Z.of_nat n →
           0 ≤ get_nibble h s j < b ∧ 0 ≤ nibble_or_zero h a j < b) →
     (∀ j, lo ≤ j < lo + Z.of_nat n → 0 ≤ D j < b) ∧
     (CARRY (flags g) = 0 ∨ CARRY (flags g) = 1)).
Proof.
  induction n as [|n IH]; intros lo h; cbn [for_up field_value]; cbv zeta.
  - exists (fun _ => 0). change (base h ^ Z.of_nat 0) with 1.
    split; [lia|]. split; [intros; lia|]. intros _ Hc _. split; [intros; lia|done].
  - rewrite add_body_eq. cbv zeta.
    set (t := get_nibble h s lo + nibble_or_zero h a lo + CARRY (flags h)).
    set (c := if bool_decide (base h ≤ t) then 1 else 0).
    set (h1 := digit_step h d c lo (t - base h * c)).
    destruct (IH (lo + 1) h1) as (D' & Hval & Hrd & Hrg).
    destruct (add_loop_frame d s a n (lo + 1) h1) as (Hfr & _).
    cbv zeta in Hfr.
    assert (base h1 = base h) as Hb by apply digit_step_base.
    assert (CARRY (flags h1) = c) as Hc1
      by (unfold h1; by rewrite digit_step_flags).
    rewrite Hb, Hc1 in *.
    rewrite (field_value_ext _ (get_nibble h1 s) (get_nibble h s)) in Hval
      by (intros j Hj; apply digit_step_get_other; lia).
    rewrite (field_value_ext _ (nibble_or_zero h1 a) (nibble_or_zero h a))
      in Hval by (intros j Hj; apply digit_step_noz_other; lia).
    exists (fun j => if bool_decide (j = lo) then t - base h * c else D' j).
    split; [|split].
    + rewrite bool_decide_eq_true_2 by done.
      rewrite (field_value_ext _ _ D')
        by (intros j Hj; by rewrite bool_decide_eq_false_2 by lia).
      rewrite Nat2Z.inj_succ, Z.pow_succ_r by lia.
      set (X := field_value (base h) D' (lo + 1) n) in *.
      set (S' := field_value (base h) (get_nibble h s) (lo + 1) n) in *.
      set (A' := field_value (base h) (nibble_or_zero h a) (lo + 1) n) in *.
      set (P := base h ^ Z.of_nat n * CARRY (flags (for_up n (lo + 1) (add_body d s a) h1))) in *.
      assert (base h * (X + P) = base h * (S' + A' + c)) as E by (by rewrite Hval).
      replace (base h * base h ^ Z.of_nat n *
               CARRY (flags (for_up n (lo + 1) (add_body d s a) h1)))
        with (base h * P) by (unfold P; ring).
      unfold t in *. lia.
    + intros r j Hd Hj Hv. case_bool_decide as E.
      * subst j. rewrite Hfr by (intros (_ & ?); lia).
        unfold h1. rewrite digit_step_get.
        by rewrite bool_decide_eq_true_2.
      * apply Hrd; [done|lia|].
        unfold valid_nibble, h1. by rewrite digit_step_len.
    + intros Hbpos Hc Hdig.
      destruct (Hdig lo ltac:(lia)) as [Hs0 Ha0].
      assert (0 ≤ t - base h * c < base h ∧ (c = 0 ∨ c = 1)) as [Ht Hc']
        by (unfold c, t in *; case_bool_decide; lia).
      destruct Hrg as [HD Hcg]; [done|done| |].
      { intros j Hj. unfold h1.
        rewrite digit_step_get_other, digit_step_noz_other by lia.
        apply Hdig. lia. }
      split; [|done]. intros j Hj. case_bool_decide; [done|apply HD; lia].
Qed.

(** The borrow chain of the subtractor. *)
Lemma sub_loop_value d s a n : ∀ lo h,
  let g := for_up n lo (sub_body d s a) h in
  let b := base h in
  ∃ D : Z → Z,
    field_value b D lo n - b ^ Z.of_nat n * CARRY (flags g)
    = field_value b (nibble_or_zero h s) lo n
      - field_value b (nibble_or_zero h a) lo n - CARRY (flags h) ∧
    (∀ r j, d = Some r → lo ≤ j < lo + Z.of_nat n → valid_nibble h r j →
            get_nibble g r j = D j) ∧
    (0 < b → CARRY (flags h) = 0 ∨ CARRY (flags h) = 1 →
     (∀ j, lo ≤ j < lo + Z.of_nat n →
           0 ≤ nibble_or_zero h s j < b ∧ 0 ≤ nibble_or_zero h a j < b) →
     (∀ j, lo ≤ j < lo + Z.of_nat n → 0 ≤ D j < b) ∧
     (CARRY (flags g) = 0 ∨ CARRY (flags g) = 1)).
Proof.
  induction n as [|n IH]; intros lo h; cbn [for_up field_value]; cbv zeta.
  - exists (fun _ => 0). change (base h ^ Z.of_nat 0) with 1.
    split; [lia|]. split; [intros; lia|]. intros _ Hc _. split; [intros; lia|done].
  - rewrite sub_body_eq. cbv zeta.
    set (t := nibble_or_zero h s lo - nibble_or_zero h a lo - CARRY (flags h)).
    set (c := if bool_decide (t < 0) then 1 else 0).
    set (h1 := digit_step h d c lo (t + base h * c)).
    destruct (IH (lo + 1) h1) as (D' & Hval & Hrd & Hrg).
    destruct (sub_loop_frame d s a n (lo + 1) h1) as (Hfr & _).
    cbv zeta in Hfr.
    assert (base h1 = base h) as Hb by apply digit_step_base.
    assert (CARRY (flags h1) = c) as Hc1
      by (unfold h1; by rewrite digit_step_flags).
    rewrite Hb, Hc1 in *.
    rewrite (field_value_ext _ (nibble_or_zero h1 s) (nibble_or_zero h s))
      in Hval by (intros j Hj; apply digit_step_noz_other; lia).
    rewrite (field_value_ext _ (nibble_or_zero h1 a) (nibble_or_zero h a))
      in Hval by (intros j Hj; apply digit_step_noz_other; lia).
    exists (fun j => if bool_decide (j = lo) then t + base h * c else D' j).
    split; [|split].
    + rewrite bool_decide_eq_true_2 by done.
      rewrite (field_value_ext _ _ D')
        by (intros j Hj; by rewrite bool_decide_eq_false_2 by lia).
      rewrite Nat2Z.inj_succ, Z.pow_succ_r by lia.
      set (X := field_value (base h) D' (lo + 1) n) in *.
      set (S' := field_value (base h) (nibble_or_zero h s) (lo + 1) n) in *.
      set (A' := field_value (base h) (nibble_or_zero h a) (lo + 1) n) in *.
      set (P := base h ^ Z.of_nat n * CARRY (flags (for_up n (lo + 1) (sub_body d s a) h1))) in *.
      assert (base h * (X - P) = base h * (S' - A' - c)) as E by (by rewrite Hval).
      replace (base h * base h ^ Z.of_nat n *
               CARRY (flags (for_up n (lo + 1) (sub_body d s a) h1)))
        with (base h * P) by (unfold P; ring).
      unfold t in *. lia.
    + intros r j Hd Hj Hv. case_bool_decide as E.
      * subst j. rewrite Hfr by (intros (_ & ?); lia).
        unfold h1. rewrite digit_step_get.
        by rewrite bool_decide_eq_true_2.
      * apply Hrd; [done|lia|].
        unfold valid_nibble, h1. by rewrite digit_step_len.
    + intros Hbpos Hc Hdig.
      destruct (Hdig lo ltac:(lia)) as [Hs0 Ha0].
      assert (0 ≤ t + base h * c < base h ∧ (c = 0 ∨ c = 1)) as [Ht Hc']
        by (unfold c, t in *; case_bool_decide; lia).
      destruct Hrg as [HD Hcg]; [done|done| |].
      { intros j Hj. unfold h1.
        rewrite !digit_step_noz_other by lia.
        apply Hdig. lia. }
      split; [|done]. intros j Hj. case_bool_decide; [done|apply HD; lia].
Qed.

Lemma field_value_zero b n : ∀ lo, field_value b (fun _ => 0) lo n = 0.
Proof. induction n as [|n IH]; intros lo; cbn [field_value]; [done|]. rewrite IH. lia. Qed.

Lemma window_range h j :
  first h ≤ j < first h + Z.of_nat (trip_count (first h) (last h)) ↔
  first h ≤ j ≤ last h.
Proof. unfold trip_count. lia. Qed.

(** The value of a register's field only depends on the control state and
    on the nibbles inside the field. *)
Lemma reg_value_same h h' r :
  same_control h h' →
  (∀ j, first h ≤ j ≤ last h → get_nibble h' r j = get_nibble h r j) →
  reg_value h' r = reg_value h r.
Proof.
  intros (_&_&_&_&_&_&_&Hf&Hl&Hb&_) Hg. unfold reg_value.
  rewrite Hf, Hl, Hb. apply field_value_ext.
  intros j Hj. apply Hg. by apply window_range.
Qed.

(** X4: [v_reg_add] is a multi-digit adder in the current radix: the field of
    the destination and the carry it leaves represent the sum of the
    source field, the argument field and the incoming carry.  Nibbles
    outside the field, other registers, the other flags, PREV_CARRY
    included, and the rest of the state are untouched. *)
Theorem v_reg_add_value (h : oprocessor) (d s : regptr) (a : option regptr) :
  0 ≤ first h → last h < reg_len h d →
  let h' := v_reg_add h (Some d) s a in
  reg_value h' d + base h ^ field_width h * CARRY (flags h')
  = reg_value h s + opt_value h a + CARRY (flags h) ∧
  (∀ r j, ¬ (r = d ∧ first h ≤ j ≤ last h) →
          get_nibble h' r j = get_nibble h r j) ∧
  same_control h h' ∧ same_mode_flags h h' ∧
  PREV_CARRY (flags h') = PREV_CARRY (flags h).
Proof.
  intros Hlo Hhi h'. subst h'. rewrite v_reg_add_unfold.
  set (n := trip_count (first h) (last h)).
  destruct (add_loop_frame (Some d) s a n (first h) h)
    as (Hfr & Hc & Hm & Hpv & _). cbv zeta in Hfr, Hc, Hm, Hpv.
  destruct (add_loop_value (Some d) s a n (first h) h)
    as (D & Hval & Hrd & _). cbv zeta in Hval, Hrd.
  set (g := for_up n (first h) (add_body (Some d) s a) h) in *.
  split; [|split; [|split; [|split]; done]].
  - assert (reg_value g d = field_value (base h) D (first h) n) as Hd.
    { unfold reg_value.
      destruct Hc as (_&_&_&_&_&_&_&->&->&->&_). fold n.
      apply field_value_ext. intros j Hj. apply Hrd; [done|done|].
      unfold valid_nibble. apply window_range in Hj. lia. }
    rewrite Hd. unfold reg_value, opt_value, field_width. fold n. exact Hval.
  - intros r j Hn. apply Hfr. intros (E & Hj). apply Hn.
    injection E as ->. split; [done|]. by apply window_range.
Qed.

Lemma carry_split (X c P sum : Z) :
  X + P * c = sum → 0 ≤ X < P → c = 0 ∨ c = 1 →
  X = sum `mod` P ∧ c = sum `div` P ∧
  c = (if bool_decide (P ≤ sum) then 1 else 0).
Proof.
  intros E HX Hc. split; [|split].
  - apply (Zmod_unique _ _ c); lia.
  - apply (Zdiv_unique _ _ _ X); lia.
  - case_bool_decide; nia.
Qed.

Lemma add_field_sum (h : oprocessor) (d s : regptr) (a : option regptr) :
  0 ≤ first h → last h < reg_len h d →
  0 < base h → CARRY (flags h) = 0 ∨ CARRY (flags h) = 1 →
  field_digits_ok h (Some s) → field_digits_ok h a →
  let h' := v_reg_add h (Some d) s a in
  reg_value h' d + base h ^ field_width h * CARRY (flags h')
  = reg_value h s + opt_value h a + CARRY (flags h) ∧
  0 ≤ reg_value h' d < base h ^ field_width h ∧
  (CARRY (flags h') = 0 ∨ CARRY (flags h') = 1) ∧
  (∀ i, first h ≤ i ≤ last h → 0 ≤ get_nibble h' d i < base h).
Proof.
  intros Hlo Hhi Hb Hc Hs Ha h'. subst h'. rewrite v_reg_add_unfold.
  set (n := trip_count (first h) (last h)).
  destruct (add_loop_frame (Some d) s a n (first h) h)
    as (_ & Hctl & _). cbv zeta in Hctl.
  destruct (add_loop_value (Some d) s a n (first h) h)
    as (D & Hval & Hrd & Hrg). cbv zeta in Hval, Hrd, Hrg.
  destruct Hrg as [HD Hcg]; [done|done| |].
  { intros j Hj. apply window_range in Hj. split; [apply (Hs j Hj)|apply (Ha j Hj)]. }
  set (g := for_up n (first h) (add_body (Some d) s a) h) in *.
  assert (reg_value g d = field_value (base h) D (first h) n) as Hd.
  { unfold reg_value.
    destruct Hctl as (_&_&_&_&_&_&_&->&->&->&_). fold n.
    apply field_value_ext. intros j Hj. apply Hrd; [done|done|].
    unfold valid_nibble. apply window_range in Hj. lia. }
  pose proof (field_value_range (base h) D n (first h) Hb HD) as HDr.
  rewrite Hd. unfold reg_value, field_width, opt_value. fold n.
  split; [exact Hval|]. split; [exact HDr|]. split; [exact Hcg|].
  intros i Hi. rewrite Hrd; [|done| |].
  - apply HD. by apply window_range.
  - by apply window_range.
  - unfold valid_nibble. lia.
Qed.

(** X5: With digits inside the radix and a carry bit, [v_reg_add] stores the
    sum modulo base^width and leaves the carry out of the field: 1 exactly
    when the sum does not fit. *)
Theorem v_reg_add_mod (h : oprocessor) (d s : regptr) (a : option regptr) :
  0 ≤ first h → last h < reg_len h d →
  0 < base h → CARRY (flags h) = 0 ∨ CARRY (flags h) = 1 →
  field_digits_ok h (Some s) → field_digits_ok h a →
  let h' := v_reg_add h (Some d) s a in
  let sum := reg_value h s + opt_value h a + CARRY (flags h) in
  reg_value h' d = sum `mod` base h ^ field_width h ∧
  CARRY (flags h') = sum `div` base h ^ field_width h ∧
  CARRY (flags h') = (if bool_decide (base h ^ field_width h ≤ sum)
                      then 1 else 0) ∧
  (∀ i, first h ≤ i ≤ last h → 0 ≤ get_nibble h' d i < base h).
Proof.
  intros Hlo Hhi Hb Hc Hs Ha h' sum.
  destruct (add_field_sum h d s a Hlo Hhi Hb Hc Hs Ha)
    as (Hsum & Hrange & Hbit & Hdigits).
  cbv zeta in Hsum, Hrange, Hbit, Hdigits. fold h' in Hsum, Hrange, Hbit, Hdigits.
  fold sum in Hsum.
  destruct (carry_split _ _ _ _ Hsum Hrange Hbit) as (Hm & Hq & Hif).
  split; [exact Hm|]. split; [exact Hq|]. split; [exact Hif|].
  exact Hdigits.
Qed.

(** X6: [v_reg_inc] adds one to the field: with digits inside the radix the
    field becomes (value + 1) modulo base^width, and the carry is 1
    exactly when every digit of the field was base - 1. *)
Theorem v_reg_inc_value (h : oprocessor) (r : regptr) :
  0 ≤ first h → last h < reg_len h r → 0 < base h →
  field_digits_ok h (Some r) →
  let h' := v_reg_inc h r in
  reg_value h' r = (reg_value h r + 1) `mod` base h ^ field_width h ∧
  CARRY (flags h') = (if bool_decide
                        (reg_value h r = base h ^ field_width h - 1)
                      then 1 else 0).
Proof.
  intros Hlo Hhi Hb Hr h'. subst h'. unfold v_reg_inc. cbv zeta.
  assert (field_digits_ok (set_CARRY h 1) (Some r)) as Hr1.
  { intros i Hi. cbn [nibble_or_zero]. rewrite get_nibble_set_CARRY.
    apply (Hr i Hi). }
  assert (field_digits_ok (set_CARRY h 1) None) as Hr2.
  { intros i Hi. cbn [nibble_or_zero].
    change (base (set_CARRY h 1)) with (base h). lia. }
  assert (last (set_CARRY h 1) < reg_len (set_CARRY h 1) r) as Hhi1
    by (by destruct r).
  destruct (add_field_sum (set_CARRY h 1) r r None Hlo Hhi1 Hb
              (or_intror eq_refl) Hr1 Hr2) as (Hsum & Hrg & Hbit & _).
  cbv zeta in Hsum, Hrg, Hbit.
  destruct (carry_split _ _ _ _ Hsum Hrg Hbit) as (Hv & _ & Hc).
  change (base (set_CARRY h 1)) with (base h) in *.
  change (field_width (set_CARRY h 1)) with (field_width h) in *.
  assert (reg_value (set_CARRY h 1) r = reg_value h r) as Hrv
    by (apply reg_value_same; [apply same_control_set_flags|]; intros; apply get_nibble_set_CARRY).
  assert (opt_value (set_CARRY h 1) None = 0) as Hov
    by (unfold opt_value; apply field_value_zero).
  rewrite Hrv, Hov in *. change (CARRY (flags (set_CARRY h 1))) with 1 in *.
  rewrite Z.add_0_r in *. split; [done|]. rewrite Hc.
  assert (0 ≤ reg_value h r < base h ^ field_width h) as Hrange.
  { unfold reg_value, field_width. apply field_value_range; [done|].
    intros j Hj. apply (Hr j). by apply window_range. }
  repeat case_bool_decide; lia.
Qed.

(** The borrow left by [v_reg_sub], whatever the destination: with digits
    inside the radix it is 1 exactly when source - argument - carry is
    negative. *)
Lemma v_reg_sub_borrow h d s a :
  0 < base h → CARRY (flags h) = 0 ∨ CARRY (flags h) = 1 →
  field_digits_ok h s → field_digits_ok h a →
  ∃ X, 0 ≤ X < base h ^ field_width h ∧
       X - base h ^ field_width h * CARRY (flags (v_reg_sub h d s a))
       = opt_value h s - opt_value h a - CARRY (flags h) ∧
       (CARRY (flags (v_reg_sub h d s a)) = 0 ∨
        CARRY (flags (v_reg_sub h d s a)) = 1) ∧
       (∀ r, d = Some r → 0 ≤ first h → last h < reg_len h r →
             reg_value (v_reg_sub h d s a) r = X ∧
             ∀ i, first h ≤ i ≤ last h →
                  0 ≤ get_nibble (v_reg_sub h d s a) r i < base h).
Proof.
  intros Hb Hc Hs Ha. rewrite v_reg_sub_unfold.
  set (n := trip_count (first h) (last h)).
  destruct (sub_loop_frame d s a n (first h) h) as (_ & Hctl & _).
  cbv zeta in Hctl.
  destruct (sub_loop_value d s a n (first h) h)
    as (D & Hval & Hrd & Hrg). cbv zeta in Hval, Hrd, Hrg.
  destruct Hrg as [HD Hcg]; [done|done| |].
  { intros j Hj. apply window_range in Hj. split; [apply (Hs j Hj)|apply (Ha j Hj)]. }
  set (g := for_up n (first h) (sub_body d s a) h) in *.
  exists (field_value (base h) D (first h) n).
  split; [by apply field_value_range|]. split; [exact Hval|]. split; [done|].
  intros r -> Hlo Hhi. split.
  - unfold reg_value.
    destruct Hctl as (_&_&_&_&_&_&_&->&->&->&_). fold n.
    apply field_value_ext. intros j Hj. apply Hrd; [done|done|].
    unfold valid_nibble. apply window_range in Hj. lia.
  - intros i Hi. rewrite Hrd; [|done| |].
    + apply HD. by apply window_range.
    + by apply window_range.
    + unfold valid_nibble. lia.
Qed.

(** X7: With digits inside the radix and a carry bit, [v_reg_sub] stores
    source - argument - carry modulo base^width (an absent source counts
    as zero) and leaves the borrow: 1 exactly when the difference is
    negative. *)
Theorem v_reg_sub_mod (h : oprocessor) (d : regptr) (s a : option regptr) :
  0 ≤ first h → last h < reg_len h d →
  0 < base h → CARRY (flags h) = 0 ∨ CARRY (flags h) = 1 →
  field_digits_ok h s → field_digits_ok h a →
  let h' := v_reg_sub h (Some d) s a in
  let diff := opt_value h s - opt_value h a - CARRY (flags h) in
  reg_value h' d = diff `mod` base h ^ field_width h ∧
  CARRY (flags h') = (if bool_decide (diff < 0) then 1 else 0) ∧
  (∀ i, first h ≤ i ≤ last h → 0 ≤ get_nibble h' d i < base h).
Proof.
  intros Hlo Hhi Hb Hc Hs Ha h' diff. subst h' diff.
  destruct (v_reg_sub_borrow h (Some d) s a Hb Hc Hs Ha)
    as (X & HX & Hval & Hcg & Hd).
  destruct (Hd d eq_refl Hlo Hhi) as [-> Hdig].
  set (g := v_reg_sub h (Some d) s a) in *.
  set (P := base h ^ field_width h) in *.
  split; [|split; [|done]].
  - apply (Zmod_unique _ _ (- CARRY (flags g))); lia.
  - case_bool_decide; nia.
Qed.

Lemma set_CARRY_same h c : CARRY (flags h) = c → set_CARRY h c = h.
Proof.
  destruct h as [rg rm ro st ss [m c0 pc0 dr de tr] p0 s0 pp f0 fi la ba kc
                   kd ad rn dn el].
  cbn. by intros ->.
Qed.

(** Without a destination the loop of [v_reg_sub] only ever assigns
    CARRY. *)
Lemma sub_loop_null s a n : ∀ lo h,
  let g := for_up n lo (sub_body None s a) h in
  g = set_CARRY h (CARRY (flags g)).
Proof.
  induction n as [|n IH]; intros lo h; cbn [for_up]; cbv zeta.
  - symmetry. by apply set_CARRY_same.
  - pose proof (sub_body_eq None s a lo h) as E. cbv zeta in E.
    cbn [digit_step] in E. rewrite E. clear E.
    set (c := if bool_decide _ then 1 else 0).
    pose proof (IH (lo + 1) (set_CARRY h c)) as E. cbv zeta in E.
    set (g := for_up n (lo + 1) (sub_body None s a) (set_CARRY h c)) in *.
    rewrite E at 1. by destruct h.
Qed.

Lemma v_reg_sub_null h s a :
  0 < base h → CARRY (flags h) = 0 →
  field_digits_ok h s → field_digits_ok h a →
  let h' := v_reg_sub h None s a in
  (CARRY (flags h') = 0 ↔ opt_value h a ≤ opt_value h s) ∧
  (CARRY (flags h') = 1 ↔ opt_value h s < opt_value h a) ∧
  (∀ r j, get_nibble h' r j = get_nibble h r j) ∧
  same_control h h' ∧ same_mode_flags h h'.
Proof.
  intros Hb Hc Hs Ha h'. subst h'.
  destruct (v_reg_sub_borrow h None s a Hb (or_introl Hc) Hs Ha)
    as (X & HX & Hval & Hcg & _).
  rewrite v_reg_sub_unfold in *.
  destruct (sub_loop_frame None s a (trip_count (first h) (last h))
              (first h) h) as (Hfr & Hctl & Hm & _).
  cbv zeta in Hfr, Hctl, Hm.
  set (g := for_up _ (first h) (sub_body None s a) h) in *.
  set (P := base h ^ field_width h) in *.
  split; [|split; [|split; [|done]]].
  - split; intros; nia.
  - split; intros; nia.
  - intros r j. apply Hfr. intros (E & _). discriminate E.
Qed.

(** X8: The comparison behind [if a >= c[f]] and [if a >= b[f]]: [v_reg_sub]
    without a destination changes nothing but CARRY: the state it
    returns is the state it was given with CARRY assigned, so no nibble,
    no other flag, PREV_CARRY included, and no other field changes; and,
    started with the carry clear on digits inside the radix, it leaves
    CARRY = 0 exactly when the value of the source field is at least the
    value of the argument field. *)
Theorem v_reg_sub_compare (h : oprocessor) (s a : option regptr) :
  0 < base h → CARRY (flags h) = 0 →
  field_digits_ok h s → field_digits_ok h a →
  let h' := v_reg_sub h None s a in
  (CARRY (flags h') = 0 ↔ opt_value h a ≤ opt_value h s) ∧
  (CARRY (flags h') = 1 ↔ opt_value h s < opt_value h a) ∧
  (∀ r j, get_nibble h' r j = get_nibble h r j) ∧
  same_control h h' ∧ same_mode_flags h h' ∧
  PREV_CARRY (flags h') = PREV_CARRY (flags h) ∧
  h' = set_CARRY h (CARRY (flags h')).
Proof.
  intros Hb Hc Hs Ha h'.
  destruct (v_reg_sub_null h s a Hb Hc Hs Ha) as (H0 & H1 & Hn & Hctl & Hm).
  cbv zeta in H0, H1, Hn, Hctl, Hm. fold h' in H0, H1, Hn, Hctl, Hm.
  assert (h' = set_CARRY h (CARRY (flags h'))) as E.
  { subst h'. rewrite v_reg_sub_unfold. apply sub_loop_null. }
  split; [exact H0|]. split; [exact H1|]. split; [exact Hn|].
  split; [exact Hctl|]. split; [exact Hm|]. split; [|exact E].
  rewrite E. reflexivity.
Qed.

(** ** Shifts *)

Lemma shr_loop r hi n : ∀ lo h,
  last h = hi →
  let g := for_up n lo
             (fun i_count h =>
                if bool_decide (i_count = last h)
                then set_nibble h r i_count 0
                else set_nibble h r i_count
                       (get_nibble h r (i_count + 1))) h in
  (∀ r' j, get_nibble g r' j
           = if bool_decide (r' = r ∧ lo ≤ j < lo + Z.of_nat n ∧
                             valid_nibble h r j)
             then (if bool_decide (j = hi) then 0 else get_nibble h r (j + 1))
             else get_nibble h r' j) ∧
  same_control h g ∧ flags g = flags h ∧ (∀ r', reg_len g r' = reg_len h r').
Proof.
  induction n as [|n IH]; intros lo h Hhi; cbn [for_up]; cbv zeta.
  - split; [|split; [apply same_control_refl|split; done]].
    intros r' j. by rewrite bool_decide_eq_false_2 by lia.
  - set (v := if bool_decide (lo = hi) then 0 else get_nibble h r (lo + 1)).
    assert ((if bool_decide (lo = last h) then set_nibble h r lo 0
             else set_nibble h r lo (get_nibble h r (lo + 1)))
            = set_nibble h r lo v) as ->
      by (unfold v; rewrite Hhi; by case_bool_decide).
    destruct (IH (lo + 1) (set_nibble h r lo v)) as (Hg & Hc & Hf & Hl).
    { by destruct r. }
    cbv zeta in Hg, Hc, Hf, Hl.
    split; [|split; [|split]].
    + intros r' j. rewrite Hg. clear Hg Hc Hf Hl IH.
      rewrite !get_nibble_set_nibble.
      unfold valid_nibble. rewrite reg_len_set_nibble. unfold v.
      repeat case_bool_decide; try reflexivity;
        try (exfalso; intuition lia); intuition (subst; congruence).
    + eapply same_control_trans; [apply same_control_set_nibble | exact Hc].
    + by rewrite Hf, flags_set_nibble.
    + intros r'. by rewrite Hl, reg_len_set_nibble.
Qed.

Lemma shl_loop r fi n : ∀ hi h,
  first h = fi →
  let g := for_down n hi
             (fun i_count h =>
                if bool_decide (i_count = first h)
                then set_nibble h r i_count 0
                else set_nibble h r i_count
                       (get_nibble h r (i_count - 1))) h in
  (∀ r' j, get_nibble g r' j
           = if bool_decide (r' = r ∧ hi - Z.of_nat n < j ≤ hi ∧
                             valid_nibble h r j)
             then (if bool_decide (j = fi) then 0 else get_nibble h r (j - 1))
             else get_nibble h r' j) ∧
  same_control h g ∧ flags g = flags h ∧ (∀ r', reg_len g r' = reg_len h r').
Proof.
  induction n as [|n IH]; intros hi h Hfi; cbn [for_down]; cbv zeta.
  - split; [|split; [apply same_control_refl|split; done]].
    intros r' j. by rewrite bool_decide_eq_false_2 by lia.
  - set (v := if bool_decide (hi = fi) then 0 else get_nibble h r (hi - 1)).
    assert ((if bool_decide (hi = first h) then set_nibble h r hi 0
             else set_nibble h r hi (get_nibble h r (hi - 1)))
            = set_nibble h r hi v) as ->
      by (unfold v; rewrite Hfi; by case_bool_decide).
    destruct (IH (hi - 1) (set_nibble h r hi v)) as (Hg & Hc & Hf & Hl).
    { by destruct r. }
    cbv zeta in Hg, Hc, Hf, Hl.
    split; [|split; [|split]].
    + intros r' j. rewrite Hg. clear Hg Hc Hf Hl IH.
      rewrite !get_nibble_set_nibble.
      unfold valid_nibble. rewrite reg_len_set_nibble. unfold v.
      repeat case_bool_decide; try reflexivity;
        try (exfalso; intuition lia); intuition (subst; congruence).
    + eapply same_control_trans; [apply same_control_set_nibble | exact Hc].
    + by rewrite Hf, flags_set_nibble.
    + intros r'. by rewrite Hl, reg_len_set_nibble.
Qed.

(** X9: [v_reg_shr] moves every nibble of the field one place down, puts 0 in
    the top nibble of the field, clears CARRY and leaves everything else,
    PREV_CARRY included, as it was. *)
Theorem v_reg_shr_effect (h : oprocessor) (r : regptr) :
  let h' := v_reg_shr h r in
  (∀ i, first h ≤ i ≤ last h → valid_nibble h r i →
        get_nibble h' r i
        = if bool_decide (i = last h) then 0 else get_nibble h r (i + 1)) ∧
  (∀ r' j, ¬ (r' = r ∧ first h ≤ j ≤ last h) →
           get_nibble h' r' j = get_nibble h r' j) ∧
  CARRY (flags h') = 0 ∧
  PREV_CARRY (flags h') = PREV_CARRY (flags h) ∧
  same_control h h' ∧ same_mode_flags h h'.
Proof.
  intros h'. subst h'. unfold v_reg_shr. cbv zeta.
  change (first (set_CARRY h 0)) with (first h).
  change (last (set_CARRY h 0)) with (last h).
  destruct (shr_loop r (last h) (trip_count (first h) (last h)) (first h)
              (set_CARRY h 0) eq_refl) as (Hg & Hc & Hf & _).
  cbv zeta in Hg, Hc, Hf.
  split; [|split; [|split; [|split; [|split]]]].
  - intros i Hi Hv. rewrite Hg, bool_decide_eq_true_2.
    + by rewrite !get_nibble_set_CARRY.
    + split; [done|]. split; [by apply window_range|]. by destruct r.
  - intros r' j Hn. rewrite Hg, bool_decide_eq_false_2.
    + by rewrite get_nibble_set_CARRY.
    + intros (-> & Hj & _). apply Hn. split; [done|]. by apply window_range in Hj.
  - by rewrite Hf.
  - by rewrite Hf.
  - eapply same_control_trans; [apply same_control_set_flags | exact Hc].
  - unfold same_mode_flags. by rewrite Hf.
Qed.

(** X10: [v_reg_shl] moves every nibble of the field one place up, puts 0 in
    the bottom nibble of the field, clears CARRY and PREV_CARRY and leaves
    everything else as it was. *)
Theorem v_reg_shl_effect (h : oprocessor) (r : regptr) :
  let h' := v_reg_shl h r in
  (∀ i, first h ≤ i ≤ last h → valid_nibble h r i →
        get_nibble h' r i
        = if bool_decide (i = first h) then 0 else get_nibble h r (i - 1)) ∧
  (∀ r' j, ¬ (r' = r ∧ first h ≤ j ≤ last h) →
           get_nibble h' r' j = get_nibble h r' j) ∧
  CARRY (flags h') = 0 ∧ PREV_CARRY (flags h') = 0 ∧
  same_control h h' ∧ same_mode_flags h h'.
Proof.
  intros h'. subst h'. unfold v_reg_shl. cbv zeta.
  destruct (shl_loop r (first h) (trip_count (first h) (last h)) (last h)
              h eq_refl) as (Hg & Hc & Hf & _).
  cbv zeta in Hg, Hc, Hf.
  set (g := for_down _ (last h) _ h) in *.
  assert (∀ r' j, get_nibble (set_PREV_CARRY (set_CARRY g 0) 0) r' j
                  = get_nibble g r' j) as Hsame by (by intros []).
  split; [|split; [|split; [|split; [|split]]]].
  - intros i Hi Hv. rewrite Hsame, Hg, bool_decide_eq_true_2; [done|].
    split; [done|]. split; [unfold trip_count; lia|done].
  - intros r' j Hn. rewrite Hsame, Hg, bool_decide_eq_false_2; [done|].
    intros (-> & Hj & _). apply Hn. split; [done|]. unfold trip_count in Hj. lia.
  - done.
  - done.
  - eapply same_control_trans; [exact Hc|].
    eapply same_control_trans; apply same_control_set_flags.
  - unfold same_mode_flags. cbn [flags set_PREV_CARRY set_CARRY set_flags MODE
      DELAYED_ROM DISPLAY_ENABLE TRACE]. by rewrite Hf.
Qed.

Lemma field_value_S b g lo n :
  field_value b g lo (S n) = g lo + b * field_value b g (lo + 1) n.
Proof. reflexivity. Qed.

Lemma field_value_shift_down b g n : ∀ lo,
  field_value b
    (fun j => if bool_decide (j = lo + Z.of_nat n) then 0 else g (j + 1))
    lo (S n)
  = field_value b g (lo + 1) n.
Proof.
  induction n as [|n IH]; intros lo.
  - cbn [field_value]. rewrite bool_decide_eq_true_2 by lia. lia.
  - rewrite (field_value_S b _ lo (S n)), (field_value_S b g (lo + 1) n).
    rewrite bool_decide_eq_false_2 by lia.
    rewrite <- (IH (lo + 1)). f_equal. f_equal.
    apply field_value_ext. intros j Hj.
    apply (f_equal (fun c : bool => if c then 0 else g (j + 1))).
    apply bool_decide_ext. lia.
Qed.

Lemma field_value_reindex b g n : ∀ lo,
  field_value b (fun j => g (j - 1)) (lo + 1) n = field_value b g lo n.
Proof.
  induction n as [|n IH]; intros lo; cbn [field_value]; [done|].
  rewrite IH. f_equal. f_equal. lia.
Qed.

Lemma field_value_snoc b g n : ∀ lo,
  field_value b g lo (S n)
  = field_value b g lo n + b ^ Z.of_nat n * g (lo + Z.of_nat n).
Proof.
  induction n as [|n IH]; intros lo.
  - cbn [field_value]. change (b ^ Z.of_nat 0) with 1.
    replace (lo + Z.of_nat 0) with lo by lia. lia.
  - rewrite (field_value_S b g lo (S n)), IH, (field_value_S b g lo n).
    rewrite (Nat2Z.inj_succ n), Z.pow_succ_r by lia.
    replace (lo + 1 + Z.of_nat n) with (lo + Z.succ (Z.of_nat n)) by lia.
    ring.
Qed.

Lemma v_reg_shr_inside h r i :
  first h ≤ i ≤ last h → valid_nibble h r i →
  get_nibble (v_reg_shr h r) r i
  = if bool_decide (i = last h) then 0 else get_nibble h r (i + 1).
Proof.
  intros Hi Hv. unfold v_reg_shr. cbv zeta.
  change (first (set_CARRY h 0)) with (first h).
  change (last (set_CARRY h 0)) with (last h).
  destruct (shr_loop r (last h) (trip_count (first h) (last h)) (first h)
              (set_CARRY h 0) eq_refl) as (Hg & _).
  cbv zeta in Hg. rewrite Hg, bool_decide_eq_true_2.
  - by rewrite !get_nibble_set_CARRY.
  - split; [done|]. split; [by apply window_range|]. by destruct r.
Qed.

Lemma v_reg_shl_inside h r i :
  first h ≤ i ≤ last h → valid_nibble h r i →
  get_nibble (v_reg_shl h r) r i
  = if bool_decide (i = first h) then 0 else get_nibble h r (i - 1).
Proof.
  intros Hi Hv. unfold v_reg_shl. cbv zeta.
  destruct (shl_loop r (first h) (trip_count (first h) (last h)) (last h)
              h eq_refl) as (Hg & _).
  cbv zeta in Hg.
  set (g := for_down _ (last h) _ h) in *.
  assert (∀ r' j, get_nibble (set_PREV_CARRY (set_CARRY g 0) 0) r' j
                  = get_nibble g r' j) as Hsame by (by intros []).
  rewrite Hsame, Hg, bool_decide_eq_true_2; [done|].
  split; [done|]. split; [unfold trip_count; lia|done].
Qed.

Lemma for_up_control body n :
  (∀ i s, same_control s (body i s)) →
  ∀ lo h, same_control h (for_up n lo body h).
Proof.
  intros Hb. induction n as [|n IH]; intros lo h; cbn [for_up].
  - apply same_control_refl.
  - eapply same_control_trans; [apply Hb | apply IH].
Qed.

Lemma for_down_control body n :
  (∀ i s, same_control s (body i s)) →
  ∀ hi h, same_control h (for_down n hi body h).
Proof.
  intros Hb. induction n as [|n IH]; intros hi h; cbn [for_down].
  - apply same_control_refl.
  - eapply same_control_trans; [apply Hb | apply IH].
Qed.

Lemma v_reg_shr_control h r : same_control h (v_reg_shr h r).
Proof.
  unfold v_reg_shr. cbv zeta.
  eapply same_control_trans; [apply (same_control_set_flags h)|].
  apply for_up_control. intros i s.
  case_bool_decide; apply same_control_set_nibble.
Qed.

Lemma v_reg_shl_control h r : same_control h (v_reg_shl h r).
Proof.
  unfold v_reg_shl. cbv zeta.
  eapply same_control_trans;
    [|eapply same_control_trans; apply same_control_set_flags].
  apply for_down_control. intros i s.
  case_bool_decide; apply same_control_set_nibble.
Qed.

(** X11: On digits inside the radix, [v_reg_shr] divides the value of the
    field by the radix. *)
Theorem v_reg_shr_value (h : oprocessor) (r : regptr) :
  0 ≤ first h → last h < reg_len h r → 0 < base h →
  field_digits_ok h (Some r) →
  reg_value (v_reg_shr h r) r = reg_value h r `div` base h.
Proof.
  intros Hlo Hhi Hb Hr.
  pose proof (v_reg_shr_inside h r) as Hin.
  pose proof (v_reg_shr_control h r) as Hc.
  unfold reg_value at 1.
  destruct Hc as (_&_&_&_&_&_&_&->&->&->&_).
  unfold reg_value. unfold trip_count.
  destruct (Z.to_nat (last h - first h + 1)) as [|n] eqn:En.
  { cbn [field_value]. by rewrite Z.div_0_l by lia. }
  rewrite (field_value_ext _ _
             (fun j => if bool_decide (j = first h + Z.of_nat n) then 0
                       else get_nibble h r (j + 1))).
  2:{ intros j Hj. rewrite Hin by (unfold valid_nibble; lia).
      apply (f_equal (fun c : bool => if c then 0 else get_nibble h r (j + 1))).
      apply bool_decide_ext. lia. }
  rewrite field_value_shift_down, field_value_S.
  pose proof (Hr (first h) ltac:(lia)) as H0. cbn [nibble_or_zero] in H0.
  apply (Zdiv_unique _ _ _ (get_nibble h r (first h))); lia.
Qed.

(** X12: On digits inside the radix, [v_reg_shl] multiplies the value of the
    field by the radix, modulo base^width. *)
Theorem v_reg_shl_value (h : oprocessor) (r : regptr) :
  0 ≤ first h → last h < reg_len h r → 0 < base h →
  field_digits_ok h (Some r) →
  reg_value (v_reg_shl h r) r
  = (reg_value h r * base h) `mod` base h ^ field_width h.
Proof.
  intros Hlo Hhi Hb Hr.
  pose proof (v_reg_shl_inside h r) as Hin.
  pose proof (v_reg_shl_control h r) as Hc.
  unfold reg_value at 1.
  destruct Hc as (_&_&_&_&_&_&_&->&->&->&_).
  unfold reg_value, field_width. unfold trip_count.
  destruct (Z.to_nat (last h - first h + 1)) as [|n] eqn:En.
  { cbn [field_value]. change (base h ^ Z.of_nat 0) with 1.
    by rewrite Z.mod_1_r. }
  rewrite (field_value_ext _ _
             (fun j => if bool_decide (j = first h) then 0
                       else get_nibble h r (j - 1)))
    by (intros j Hj; apply Hin; [lia | unfold valid_nibble; lia]).
  rewrite field_value_S, bool_decide_eq_true_2 by done.
  rewrite (field_value_ext _ _ (fun j => get_nibble h r (j - 1)))
    by (intros j Hj; by rewrite bool_decide_eq_false_2 by lia).
  rewrite field_value_reindex, field_value_snoc.
  assert (0 ≤ field_value (base h) (get_nibble h r) (first h) n
          < base h ^ Z.of_nat n) as Hrange.
  { apply field_value_range; [done|]. intros j Hj. apply (Hr j). lia. }
  set (X := field_value (base h) (get_nibble h r) (first h) n) in *.
  rewrite Nat2Z.inj_succ, Z.pow_succ_r by lia.
  set (P := base h ^ Z.of_nat n) in *.
  apply (Zmod_unique _ _ (get_nibble h r (first h + Z.of_nat n))); nia.
Qed.

(** ** What the register operations leave alone *)

Lemma v_reg_copy_control h d s : same_control h (v_reg_copy h d s).
Proof.
  unfold v_reg_copy. apply for_up_control. intros i s0. cbv zeta.
  apply same_control_set_nibble.
Qed.

Lemma v_reg_exch_control h d s : same_control h (v_reg_exch h d s).
Proof.
  unfold v_reg_exch. apply for_up_control. intros i s0. cbv zeta.
  eapply same_control_trans; apply same_control_set_nibble.
Qed.

Lemma v_reg_add_control h d s a : same_control h (v_reg_add h d s a).
Proof.
  rewrite v_reg_add_unfold.
  by destruct (add_loop_frame d s a (trip_count (first h) (last h))
                 (first h) h) as (_&?&_).
Qed.

Lemma v_reg_sub_control h d s a : same_control h (v_reg_sub h d s a).
Proof.
  rewrite v_reg_sub_unfold.
  by destruct (sub_loop_frame d s a (trip_count (first h) (last h))
                 (first h) h) as (_&?&_).
Qed.

Lemma v_reg_inc_control h r : same_control h (v_reg_inc h r).
Proof.
  unfold v_reg_inc. cbv zeta.
  eapply same_control_trans; [apply same_control_set_flags|].
  apply v_reg_add_control.
Qed.

Lemma v_reg_test_eq_control h d s : same_control h (v_reg_test_eq h d s).
Proof.
  destruct (v_reg_test_eq_cases h d s) as [[_ ->]|[_ ->]];
    apply same_control_set_flags.
Qed.

Lemma v_reg_test_ne_control h d s : same_control h (v_reg_test_ne h d s).
Proof.
  destruct (v_reg_test_ne_cases h d s) as [[_ ->]|[_ ->]];
    apply same_control_set_flags.
Qed.

(** ** Bounds on pc, sp and p *)

Lemma land_pow2_range x k : 0 ≤ k → 0 ≤ Z.land x (2 ^ k - 1) < 2 ^ k.
Proof.
  intros Hk. replace (2 ^ k - 1) with (Z.ones k) by (rewrite Z.ones_equiv; lia).
  rewrite Z.land_ones by done. apply Z.mod_pos_bound. by apply Z.pow_pos_nonneg.
Qed.

Lemma machine_bounds_same h h' :
  same_control h h' → machine_bounds h → machine_bounds h'.
Proof.
  unfold machine_bounds, STACK_SIZE.
  intros (->&->&_&->&->&->&_&_&_&_&->&_&_&_&->&_). done.
Qed.

Lemma machine_bounds_set_flags h fl : machine_bounds h → machine_bounds (set_flags h fl).
Proof. apply machine_bounds_same, same_control_set_flags. Qed.

Lemma machine_bounds_set_pc h v :
  -1 ≤ v → machine_bounds h → machine_bounds (set_pc h v).
Proof. intros Hv (_ & H). by split. Qed.

Lemma machine_bounds_set_p h v :
  0 ≤ v ≤ REG_SIZE → machine_bounds h → machine_bounds (set_p h v).
Proof. intros Hv (? & ? & ? & _ & H). by repeat (split; [done|]). Qed.

Lemma machine_bounds_other h :
  machine_bounds h →
  (∀ v, machine_bounds (set_status h v)) ∧
  (∀ v, machine_bounds (set_first h v)) ∧
  (∀ v, machine_bounds (set_last h v)) ∧
  (∀ v, machine_bounds (set_base h v)) ∧
  (∀ v, machine_bounds (set_f h v)) ∧
  (∀ v, machine_bounds (set_address h v)) ∧
  (∀ m, machine_bounds (v_error h m)) ∧
  (∀ r i v, machine_bounds (set_nibble h r i v)).
Proof.
  intros H. repeat apply conj; try (intros v; exact H).
  intros r i v. by destruct r.
Qed.

Lemma set_status_bounds h v : machine_bounds h → machine_bounds (set_status h v).
Proof. intros H. apply (machine_bounds_other h H). Qed.
Lemma set_first_bounds h v : machine_bounds h → machine_bounds (set_first h v).
Proof. intros H. apply (machine_bounds_other h H). Qed.
Lemma set_last_bounds h v : machine_bounds h → machine_bounds (set_last h v).
Proof. intros H. apply (machine_bounds_other h H). Qed.
Lemma set_base_bounds h v : machine_bounds h → machine_bounds (set_base h v).
Proof. intros H. apply (machine_bounds_other h H). Qed.
Lemma set_f_bounds h v : machine_bounds h → machine_bounds (set_f h v).
Proof. intros H. apply (machine_bounds_other h H). Qed.
Lemma set_address_bounds h v : machine_bounds h → machine_bounds (set_address h v).
Proof. intros H. apply (machine_bounds_other h H). Qed.
Lemma v_error_bounds h m : machine_bounds h → machine_bounds (v_error h m).
Proof. intros H. apply (machine_bounds_other h H). Qed.
Lemma set_nibble_bounds h r i v : machine_bounds h → machine_bounds (set_nibble h r i v).
Proof. intros H. apply (machine_bounds_other h H). Qed.

Lemma arr_set_Forall (P : Z → Prop) l i v :
  Forall P l → P v → Forall P (arr_set l i v).
Proof.
  intros Hl Hv. unfold arr_set. case_bool_decide; [|done].
  by apply Forall_insert.
Qed.

Lemma arr_get_Forall (P : Z → Prop) l i :
  Forall P l → P 0 → P (arr_get l i).
Proof.
  intros Hl H0. unfold arr_get. case_bool_decide; [|done].
  destruct (l !! Z.to_nat i) as [x|] eqn:E; [|done].
  exact (Forall_lookup_1 _ _ _ _ Hl E).
Qed.

Lemma machine_bounds_set_stack h i v :
  -1 ≤ v → machine_bounds h →
  machine_bounds (set_stack h (arr_set (stack h) i v)).
Proof.
  intros Hv (Hpc & Hk & Hsp & Hp & Hst & H).
  unfold machine_bounds, STACK_SIZE in *. cbn [stack set_stack pc sp p].
  rewrite arr_set_length.
  split; [done|]. split; [done|]. split; [done|]. split; [done|].
  split; [by apply arr_set_Forall|done].
Qed.

Lemma machine_bounds_set_sp h v :
  machine_bounds h → machine_bounds (set_sp h (Z.land v (STACK_SIZE h - 1))).
Proof.
  intros (Hpc & Hk & Hsp & H).
  split; [done|]. split; [done|]. split; [|done].
  destruct Hk as (k & Hk & E). cbn [sp set_sp].
  change (STACK_SIZE (set_sp h (Z.land v (STACK_SIZE h - 1)))) with (STACK_SIZE h).
  rewrite E. by apply land_pow2_range.
Qed.

Lemma machine_bounds_set_delayed_rom_number h v :
  0 ≤ v → machine_bounds h → machine_bounds (set_delayed_rom_number h v).
Proof.
  intros Hv (? & ? & ? & ? & ? & _ & H). by repeat (split; [done|]).
Qed.

Lemma machine_bounds_set_CARRY h c : machine_bounds h → machine_bounds (set_CARRY h c).
Proof. apply machine_bounds_set_flags. Qed.
Lemma machine_bounds_set_PREV_CARRY h c :
  machine_bounds h → machine_bounds (set_PREV_CARRY h c).
Proof. apply machine_bounds_set_flags. Qed.
Lemma machine_bounds_set_DELAYED_ROM h c :
  machine_bounds h → machine_bounds (set_DELAYED_ROM h c).
Proof. apply machine_bounds_set_flags. Qed.
Lemma machine_bounds_set_DISPLAY_ENABLE h c :
  machine_bounds h → machine_bounds (set_DISPLAY_ENABLE h c).
Proof. apply machine_bounds_set_flags. Qed.

Lemma v_reg_copy_bounds h d s : machine_bounds h → machine_bounds (v_reg_copy h d s).
Proof. apply machine_bounds_same, v_reg_copy_control. Qed.
Lemma v_reg_exch_bounds h d s : machine_bounds h → machine_bounds (v_reg_exch h d s).
Proof. apply machine_bounds_same, v_reg_exch_control. Qed.
Lemma v_reg_add_bounds h d s a : machine_bounds h → machine_bounds (v_reg_add h d s a).
Proof. apply machine_bounds_same, v_reg_add_control. Qed.
Lemma v_reg_sub_bounds h d s a : machine_bounds h → machine_bounds (v_reg_sub h d s a).
Proof. apply machine_bounds_same, v_reg_sub_control. Qed.
Lemma v_reg_inc_bounds h r : machine_bounds h → machine_bounds (v_reg_inc h r).
Proof. apply machine_bounds_same, v_reg_inc_control. Qed.
Lemma v_reg_shr_bounds h r : machine_bounds h → machine_bounds (v_reg_shr h r).
Proof. apply machine_bounds_same, v_reg_shr_control. Qed.
Lemma v_reg_shl_bounds h r : machine_bounds h → machine_bounds (v_reg_shl h r).
Proof. apply machine_bounds_same, v_reg_shl_control. Qed.
Lemma v_reg_test_eq_bounds h d s :
  machine_bounds h → machine_bounds (v_reg_test_eq h d s).
Proof. apply machine_bounds_same, v_reg_test_eq_control. Qed.
Lemma v_reg_test_ne_bounds h d s :
  machine_bounds h → machine_bounds (v_reg_test_ne h d s).
Proof. apply machine_bounds_same, v_reg_test_ne_control. Qed.

Create HintDb mb discriminated.

#[local] Hint Resolve set_status_bounds set_first_bounds set_last_bounds
  set_base_bounds set_f_bounds set_address_bounds v_error_bounds
  set_nibble_bounds machine_bounds_set_CARRY machine_bounds_set_PREV_CARRY
  machine_bounds_set_DELAYED_ROM machine_bounds_set_DISPLAY_ENABLE
  machine_bounds_set_sp v_reg_copy_bounds v_reg_exch_bounds v_reg_add_bounds
  v_reg_sub_bounds v_reg_inc_bounds v_reg_shr_bounds v_reg_shl_bounds
  v_reg_test_eq_bounds v_reg_test_ne_bounds : mb.

Lemma delayed_rom_switch_bounds h :
  machine_bounds h → machine_bounds (delayed_rom_switch h).
Proof.
  intros H. unfold delayed_rom_switch. case_bool_decide; [|done]. cbv zeta.
  apply machine_bounds_set_DELAYED_ROM, machine_bounds_set_pc; [|done].
  destruct H as (_&_&_&_&_&Hd&_).
  assert (0 ≤ Z.lor (Z.shiftl (delayed_rom_number h) 8) (Z.land (pc h) 255)); [|lia].
  apply Z.lor_nonneg. split; [by apply Z.shiftl_nonneg|].
  apply Z.land_nonneg. right. lia.
Qed.

Lemma v_op_inc_pc_bounds h : machine_bounds h → machine_bounds (v_op_inc_pc h).
Proof.
  intros H. unfold v_op_inc_pc. cbv zeta.
  apply machine_bounds_set_CARRY, machine_bounds_set_PREV_CARRY.
  case_bool_decide; apply machine_bounds_set_pc; try done; try lia.
  destruct H as (?&_). lia.
Qed.

Lemma v_op_inc_pc_range h :
  -1 ≤ pc h → 0 ≤ pc (v_op_inc_pc h) < ROM_SIZE.
Proof.
  intros H. unfold v_op_inc_pc. cbv zeta. cbn [pc set_CARRY set_PREV_CARRY set_flags].
  unfold ROM_SIZE in *. case_bool_decide; cbn [pc set_pc]; lia.
Qed.

Lemma v_op_goto_bounds h : machine_bounds h → machine_bounds (v_op_goto h).
Proof.
  intros H. unfold v_op_goto. case_bool_decide; [|done]. cbv zeta.
  apply delayed_rom_switch_bounds, machine_bounds_set_pc; [|done].
  destruct H as (_&_&_&_&_&_&_&Hr). specialize (Hr (pc h)). lia.
Qed.

Lemma branch_target_range a b : 0 ≤ b → -1 ≤ Z.lor (Z.land a 65280) b - 1.
Proof.
  intros Hb. assert (0 ≤ Z.lor (Z.land a 65280) b); [|lia].
  apply Z.lor_nonneg. split; [|done]. apply Z.land_nonneg. right. lia.
Qed.

Lemma op_jsb_bounds h i_count :
  0 ≤ i_count → machine_bounds h → machine_bounds (op_jsb h i_count).
Proof.
  intros Hi H. unfold op_jsb. cbv zeta.
  apply delayed_rom_switch_bounds, machine_bounds_set_pc;
    [by apply branch_target_range|].
  pose proof (machine_bounds_set_stack h (sp h) (pc h) (proj1 H) H) as H1.
  exact (machine_bounds_set_sp _ (sp h + 1) H1).
Qed.

Lemma v_op_rtn_bounds h : machine_bounds h → machine_bounds (v_op_rtn h).
Proof.
  intros H. unfold v_op_rtn. cbv zeta.
  apply machine_bounds_set_pc; [|by apply machine_bounds_set_sp].
  cbn [stack set_sp]. apply arr_get_Forall; [apply H | lia].
Qed.

Lemma v_processor_clear_data_registers_bounds h :
  machine_bounds h → machine_bounds (v_processor_clear_data_registers h).
Proof.
  intros H. unfold v_processor_clear_data_registers.
  apply for_up_inv; auto with mb.
Qed.

Lemma v_processor_clear_registers_bounds h :
  machine_bounds h → machine_bounds (v_processor_clear_registers h).
Proof.
  intros H. unfold v_processor_clear_registers.
  apply for_up_inv; [by intros i s Hs; apply machine_bounds_set_stack|].
  apply for_up_inv; auto with mb.
Qed.

Lemma clear_s_body_bounds i h : machine_bounds h → machine_bounds (clear_s_body i h).
Proof. intros H. unfold clear_s_body. repeat case_match; auto with mb. Qed.

#[local] Hint Resolve delayed_rom_switch_bounds v_op_inc_pc_bounds
  v_op_goto_bounds v_processor_clear_data_registers_bounds
  v_processor_clear_registers_bounds clear_s_body_bounds : mb.

Lemma decode_field_bounds h i_field :
  machine_bounds h → machine_bounds (decode_field h i_field).
Proof.
  intros H. unfold decode_field.
  repeat case_match; try case_bool_decide; auto 6 with mb.
Qed.

Lemma arithmetic_op_bounds h i_opcode :
  machine_bounds h → machine_bounds (arithmetic_op h i_opcode).
Proof.
  intros H. unfold arithmetic_op. cbv zeta.
  repeat case_match; auto 6 with mb.
Qed.

Lemma long_branch_bounds h i_opcode :
  0 ≤ i_opcode → machine_bounds h → machine_bounds (long_branch h i_opcode).
Proof.
  intros Ho H. unfold long_branch.
  repeat case_match; try case_bool_decide; auto 6 with mb.
  all: apply delayed_rom_switch_bounds, machine_bounds_set_pc; [|done].
  all: apply branch_target_range; by apply Z.shiftr_nonneg.
Qed.

Lemma i_set_p_range i : 0 ≤ arr_get i_set_p i ≤ REG_SIZE.
Proof.
  apply (arr_get_Forall (fun v => 0 ≤ v ≤ REG_SIZE)); [|unfold REG_SIZE; lia].
  unfold i_set_p, REG_SIZE. repeat constructor; lia.
Qed.

Lemma special_group0_bounds h i_opcode :
  0 ≤ i_opcode → machine_bounds h → machine_bounds (special_group0 h i_opcode).
Proof.
  intros Ho H. unfold special_group0.
  pose proof H as (Hpc & _ & _ & Hp & _ & _ & Hkey & _).
  repeat case_match; subst; repeat case_bool_decide; auto 6 with mb.
  all: lazymatch goal with
       | |- machine_bounds (set_p _ _) =>
           apply machine_bounds_set_p; [unfold REG_SIZE in *; lia | done]
       | |- machine_bounds (set_pc (set_sp _ _) _) =>
           apply (v_op_rtn_bounds h H)
       | |- machine_bounds (set_pc (set_pc _ _) _) =>
           apply machine_bounds_set_pc;
             [|by apply machine_bounds_set_pc; [|done];
                  assert (0 ≤ Z.land (pc h) 3840)
                    by (apply Z.land_nonneg; right; lia); lia];
             cbn [pc set_pc keycode];
             assert (0 ≤ Z.land (pc h) 3840)
               by (apply Z.land_nonneg; right; lia); lia
       | |- machine_bounds (set_pc _ _) =>
           apply machine_bounds_set_pc; [|done];
             assert (0 ≤ Z.shiftr i_opcode 6) by (by apply Z.shiftr_nonneg);
             assert (-1 ≤ Z.rem (pc h) 256)
               by (destruct (decide (pc h = -1)) as [->|];
                   [done | assert (0 ≤ Z.rem (pc h) 256)
                             by (apply Z.rem_nonneg; lia); lia]);
             lia
       end.
Qed.

Lemma special_group1_bounds h i_opcode :
  0 ≤ i_opcode → machine_bounds h → machine_bounds (special_group1 h i_opcode).
Proof.
  intros Ho H. unfold special_group1. unfold c_bool.
  repeat case_match; auto 8 with mb.
  apply machine_bounds_set_DELAYED_ROM, machine_bounds_set_delayed_rom_number;
    [by apply Z.shiftr_nonneg | done].
Qed.

Lemma p_set_nibble h r i v : p (set_nibble h r i v) = p h.
Proof. by destruct r. Qed.

Lemma special_group2_bounds h i_opcode :
  machine_bounds h → machine_bounds (special_group2 h i_opcode).
Proof.
  intros H. unfold special_group2.
  pose proof H as (_ & _ & _ & Hp & _).
  destruct (Z.land (Z.shiftr i_opcode 4) 3) as [|s|s] eqn:Hs;
    [|repeat case_match; subst; repeat case_bool_decide ..];
    auto 6 with mb.
  { repeat case_match; subst; repeat case_bool_decide; auto 8 with mb.
    apply for_up_inv; auto with mb. }
  all: rewrite ?p_set_nibble in *.
  all: apply machine_bounds_set_p; [unfold REG_SIZE in *; lia | auto with mb].
Qed.

Lemma special_group3_bounds h i_opcode :
  machine_bounds h → machine_bounds (special_group3 h i_opcode).
Proof.
  intros H. unfold special_group3. unfold c_bool.
  repeat case_match; repeat case_bool_decide; auto 8 with mb.
  all: apply machine_bounds_set_p; [apply i_set_p_range | done].
Qed.

Lemma execute_bounds h i_opcode :
  0 ≤ i_opcode → machine_bounds h → machine_bounds (execute h i_opcode).
Proof.
  intros Ho H. unfold execute. cbv zeta.
  destruct (Z.land i_opcode 3) as [|c|c] eqn:Hclass.
  - destruct (Z.land (Z.shiftr i_opcode 2) 3) as [|g|g] eqn:Hg;
      [|repeat case_match; subst ..];
      auto using special_group0_bounds, special_group1_bounds,
        special_group2_bounds, special_group3_bounds.
  - repeat case_match;
      auto using long_branch_bounds, arithmetic_op_bounds,
        decode_field_bounds, v_error_bounds.
    all: apply op_jsb_bounds; [by apply Z.shiftr_nonneg | done].
  - by apply v_error_bounds.
Qed.

Lemma v_processor_tick_bounds h :
  machine_bounds h →
  machine_bounds (v_processor_tick h) ∧
  0 ≤ pc (v_processor_tick h) < ROM_SIZE.
Proof.
  intros H. unfold v_processor_tick. cbv zeta.
  assert (machine_bounds (execute h (rom h (pc h)))) as He.
  { apply execute_bounds; [|done]. apply H. }
  split; [by apply v_op_inc_pc_bounds|].
  apply v_op_inc_pc_range. apply He.
Qed.

(** ** Subroutine call and return *)

Lemma delayed_rom_switch_stack h :
  stack (delayed_rom_switch h) = stack h ∧ sp (delayed_rom_switch h) = sp h.
Proof. unfold delayed_rom_switch. by case_bool_decide. Qed.

Lemma v_op_inc_pc_stack h :
  stack (v_op_inc_pc h) = stack h ∧ sp (v_op_inc_pc h) = sp h.
Proof. unfold v_op_inc_pc. by case_bool_decide. Qed.

Lemma execute_jsb h i_opcode :
  Z.land i_opcode 3 = 1 → execute h i_opcode = op_jsb h (Z.shiftr i_opcode 2).
Proof. intros H. unfold execute. by rewrite H. Qed.

Lemma op_jsb_stack h i_count :
  stack (op_jsb h i_count) = arr_set (stack h) (sp h) (pc h) ∧
  sp (op_jsb h i_count) = Z.land (sp h + 1) (STACK_SIZE h - 1).
Proof.
  unfold op_jsb. cbv zeta.
  destruct (delayed_rom_switch_stack
    (set_pc (set_sp (set_stack h (arr_set (stack h) (sp h) (pc h)))
       (Z.land (sp (set_stack h (arr_set (stack h) (sp h) (pc h))) + 1)
          (STACK_SIZE (set_stack h (arr_set (stack h) (sp h) (pc h))) - 1)))
       (Z.lor (Z.land (pc (set_sp (set_stack h (arr_set (stack h) (sp h) (pc h)))
          (Z.land (sp (set_stack h (arr_set (stack h) (sp h) (pc h))) + 1)
          (STACK_SIZE (set_stack h (arr_set (stack h) (sp h) (pc h))) - 1))))
          65280) i_count - 1))) as [-> ->].
  cbn [stack sp set_pc set_sp set_stack]. split; [done|].
  unfold STACK_SIZE. cbn [stack set_stack]. by rewrite arr_set_length.
Qed.

Lemma sp_wrap_back s k :
  0 ≤ k → 0 ≤ s < 2 ^ k →
  Z.land (Z.land (s + 1) (2 ^ k - 1) - 1) (2 ^ k - 1) = s.
Proof.
  intros Hk Hs.
  replace (2 ^ k - 1) with (Z.ones k) by (rewrite Z.ones_equiv; lia).
  rewrite !Z.land_ones by done.
  rewrite Zminus_mod_idemp_l. replace (s + 1 - 1) with s by lia.
  by apply Z.mod_small.
Qed.

(** X14: A subroutine call followed, after any code that leaves the return
    stack and the stack pointer as the call left them, by [return]: the
    program continues with the word after the call and the stack pointer
    is back where it was.  The stack size must be a power of two for the
    masking of the stack pointer to wrap. *)
Theorem jsb_return_round_trip (h h2 : oprocessor) (k : Z) :
  0 ≤ k → STACK_SIZE h = 2 ^ k → 0 ≤ sp h < STACK_SIZE h →
  Z.land (rom h (pc h)) 3 = 1 →
  stack h2 = stack (v_processor_tick h) →
  sp h2 = sp (v_processor_tick h) →
  rom h2 (pc h2) = op_return →
  pc (v_processor_tick h2) = advance (pc h) ∧
  sp (v_processor_tick h2) = sp h.
Proof.
  intros Hk HS Hsp Hjsb Hstack Hsp2 Hret.
  assert (stack h2 = arr_set (stack h) (sp h) (pc h) ∧
          sp h2 = Z.land (sp h + 1) (2 ^ k - 1)) as [E1 E2].
  { rewrite Hstack, Hsp2. unfold v_processor_tick. cbv zeta.
    destruct (v_op_inc_pc_stack (execute h (rom h (pc h)))) as [-> ->].
    rewrite execute_jsb by done.
    destruct (op_jsb_stack h (Z.shiftr (rom h (pc h)) 2)) as [-> ->].
    by rewrite HS. }
  assert (STACK_SIZE h2 = 2 ^ k) as HS2.
  { unfold STACK_SIZE in *. by rewrite E1, arr_set_length. }
  unfold v_processor_tick. cbv zeta. rewrite Hret.
  change (execute h2 op_return) with (v_op_rtn h2).
  destruct (v_op_inc_pc_stack (v_op_rtn h2)) as [_ ->].
  rewrite v_op_inc_pc_pc. unfold v_op_rtn. cbv zeta.
  cbn [pc sp stack set_pc set_sp].
  rewrite HS2, E2, sp_wrap_back by lia.
  split; [|done]. rewrite E1, arr_get_set.
  rewrite (bool_decide_eq_true_2 (sp h = sp h ∧ _)); [reflexivity|].
  unfold STACK_SIZE in *. lia.
Qed.

(** ** Test and branch *)

Lemma advance_pred x : 0 ≤ x < ROM_SIZE → advance (x - 1) = x.
Proof. intros H. unfold advance. case_bool_decide; lia. Qed.

Lemma advance_succ x : x < ROM_SIZE - 1 → advance x = x + 1.
Proof. intros H. unfold advance. by rewrite bool_decide_eq_true_2. Qed.

Lemma v_op_inc_pc_advance h : pc (v_op_inc_pc h) = advance (pc h).
Proof. apply v_op_inc_pc_pc. Qed.

Lemma get_nibble_ext h h' r j :
  reg h' = reg h → ram h' = ram h → get_nibble h' r j = get_nibble h r j.
Proof. intros E1 E2. unfold get_nibble, deref. by rewrite E1, E2. Qed.

Lemma decode_field_frame h i_field :
  let h' := decode_field h i_field in
  reg h' = reg h ∧ ram h' = ram h ∧ rom h' = rom h ∧ pc h' = pc h ∧
  flags h' = flags h ∧ base h' = base h ∧ stack h' = stack h ∧
  sp h' = sp h ∧ status h' = status h ∧ p h' = p h ∧ f h' = f h.
Proof.
  unfold decode_field.
  repeat case_match; try case_bool_decide; cbv zeta; repeat apply conj;
    reflexivity.
Qed.

(** The tail of every test instruction: advance, conditional goto,
    advance.  With no bank pending, the program counter ends at the word
    after the test (taken as address) when the test left CARRY = 0, and
    behind that word otherwise. *)
Lemma branch_pc s :
  DELAYED_ROM (flags s) = 0 →
  pc (v_op_inc_pc (v_op_goto (v_op_inc_pc s)))
  = if bool_decide (CARRY (flags s) = 0)
    then advance (rom s (advance (pc s)) - 1)
    else advance (advance (pc s)).
Proof.
  intros Hd. rewrite v_op_inc_pc_advance.
  unfold v_op_goto. rewrite v_op_inc_pc_flags. cbn [PREV_CARRY].
  case_bool_decide; [|by rewrite v_op_inc_pc_advance].
  cbv zeta. unfold delayed_rom_switch.
  rewrite bool_decide_eq_false_2.
  2:{ cbn [flags set_pc]. rewrite v_op_inc_pc_flags. cbn [DELAYED_ROM]. lia. }
  cbn [pc set_pc]. by rewrite v_op_inc_pc_rom, v_op_inc_pc_advance.
Qed.

Lemma branch_regs s r j :
  get_nibble (v_op_inc_pc (v_op_goto (v_op_inc_pc s))) r j = get_nibble s r j.
Proof.
  assert (∀ t, reg (v_op_inc_pc t) = reg t ∧ ram (v_op_inc_pc t) = ram t) as Hi
    by (intros t; unfold v_op_inc_pc; by case_bool_decide).
  assert (∀ t, reg (v_op_goto t) = reg t ∧ ram (v_op_goto t) = ram t) as Hg.
  { intros t. unfold v_op_goto, delayed_rom_switch.
    repeat case_bool_decide; done. }
  apply get_nibble_ext.
  - rewrite (proj1 (Hi _)), (proj1 (Hg _)). apply Hi.
  - rewrite (proj2 (Hi _)), (proj2 (Hg _)). apply Hi.
Qed.

Lemma field_digits_ok_ext h h' r :
  first h' = first h → last h' = last h → base h' = base h →
  (∀ j, nibble_or_zero h' r j = nibble_or_zero h r j) →
  field_digits_ok h r → field_digits_ok h' r.
Proof.
  intros E1 E2 E3 Hn H i Hi. rewrite E1, E2 in Hi. rewrite E3, Hn. by apply H.
Qed.

(** X15: [if a >= c[f]] and [if a >= b[f]]: the instruction compares the
    values of the selected field of A and of the other register, in the
    current radix; when A is at least the other value the next
    instruction is the one at the address held in the following word,
    otherwise the one after that word.  No register changes.  CARRY is 0
    at the start of every instruction, the last step of a tick clears
    it. *)
Theorem compare_branch (h : oprocessor) (x : regptr) :
  let i_opcode := rom h (pc h) in
  let hf := decode_field h (Z.land (Z.shiftr i_opcode 2) 7) in
  Z.land i_opcode 3 = 2 →
  (Z.shiftr i_opcode 5 = 24 ∧ x = REG C_REG) ∨
  (Z.shiftr i_opcode 5 = 25 ∧ x = REG B_REG) →
  CARRY (flags h) = 0 → DELAYED_ROM (flags h) = 0 → 0 < base h →
  field_digits_ok hf (Some (REG A_REG)) → field_digits_ok hf (Some x) →
  0 ≤ pc h < ROM_SIZE - 2 → 0 ≤ rom h (pc h + 1) < ROM_SIZE →
  pc (v_processor_tick h)
  = (if bool_decide (reg_value hf x ≤ reg_value hf (REG A_REG))
     then rom h (pc h + 1) else pc h + 2) ∧
  (∀ r j, get_nibble (v_processor_tick h) r j = get_nibble h r j).
Proof.
  intros i_opcode hf Hclass Hop Hc Hd Hb HA Hx Hpc Hw.
  destruct (decode_field_frame h (Z.land (Z.shiftr i_opcode 2) 7))
    as (Ereg & Eram & Erom & Epc & Efl & Ebase & _).
  cbv zeta in Ereg, Eram, Erom, Epc, Efl, Ebase. fold hf in Ereg, Eram, Erom, Epc, Efl, Ebase.
  assert (execute h i_opcode
          = v_op_goto (v_op_inc_pc
              (v_reg_sub hf None (Some (REG A_REG)) (Some x)))) as Hex.
  { rewrite execute_arithmetic by done. fold hf. unfold arithmetic_op.
    cbv zeta. by destruct Hop as [[-> ->]|[-> ->]]. }
  destruct (v_reg_sub_null hf (Some (REG A_REG)) (Some x))
    as (H0 & H1 & Hn & Hctl & Hm); [lia | by rewrite Efl | done | done |].
  cbv zeta in H0, H1, Hn, Hctl, Hm.
  set (t := v_reg_sub hf None (Some (REG A_REG)) (Some x)) in *.
  unfold v_processor_tick. cbv zeta. fold i_opcode. rewrite Hex.
  split.
  - rewrite branch_pc.
    2:{ destruct Hm as (_ & -> & _). by rewrite Efl. }
    destruct Hctl as (Hrom & _ & _ & Hpct & _). rewrite Hrom, Hpct, Erom, Epc.
    rewrite (advance_succ (pc h)) by lia.
    unfold opt_value in H0. fold (reg_value hf x) in H0.
    fold (reg_value hf (REG A_REG)) in H0.
    case_bool_decide as E1; case_bool_decide as E2.
    + by apply advance_pred.
    + by apply H0 in E1.
    + by apply H0 in E2.
    + rewrite advance_succ; lia.
  - intros r j. rewrite branch_regs. fold t. rewrite Hn.
    by apply get_nibble_ext.
Qed.

(** X16: [if b[f] = 0], [if c[f] = 0], [if a[f] <> 0] and [if c[f] <> 0]: the
    next instruction is the one at the address held in the following word
    when the condition holds on the selected field, otherwise the one
    after that word.  No register changes. *)
Theorem zero_test_branch (h : oprocessor) (x : regptr) (want_zero : bool) :
  let i_opcode := rom h (pc h) in
  let hf := decode_field h (Z.land (Z.shiftr i_opcode 2) 7) in
  let is_zero := ∀ i, first hf ≤ i ≤ last hf → get_nibble h x i = 0 in
  Z.land i_opcode 3 = 2 →
  (Z.shiftr i_opcode 5 = 22 ∧ x = REG B_REG ∧ want_zero = true) ∨
  (Z.shiftr i_opcode 5 = 23 ∧ x = REG C_REG ∧ want_zero = true) ∨
  (Z.shiftr i_opcode 5 = 26 ∧ x = REG A_REG ∧ want_zero = false) ∨
  (Z.shiftr i_opcode 5 = 27 ∧ x = REG C_REG ∧ want_zero = false) →
  DELAYED_ROM (flags h) = 0 →
  0 ≤ pc h < ROM_SIZE - 2 → 0 ≤ rom h (pc h + 1) < ROM_SIZE →
  ((if want_zero then is_zero else ¬ is_zero) →
   pc (v_processor_tick h) = rom h (pc h + 1)) ∧
  ((if want_zero then ¬ is_zero else is_zero) →
   pc (v_processor_tick h) = pc h + 2) ∧
  (∀ r j, get_nibble (v_processor_tick h) r j = get_nibble h r j).
Proof.
  intros i_opcode hf is_zero Hclass Hop Hd Hpc Hw.
  destruct (decode_field_frame h (Z.land (Z.shiftr i_opcode 2) 7))
    as (Ereg & Eram & Erom & Epc & Efl & Ebase & _).
  cbv zeta in Ereg, Eram, Erom, Epc, Efl, Ebase.
  fold hf in Ereg, Eram, Erom, Epc, Efl, Ebase.
  assert (is_zero ↔
          nibbles_agree hf x None (first hf) (trip_count (first hf) (last hf)))
    as Hz.
  { rewrite agree_window. unfold is_zero. cbn [nibble_or_zero].
    split; intros A i Hi.
    - rewrite (get_nibble_ext h hf) by done. by apply A.
    - rewrite <- (get_nibble_ext h hf) by done. by apply A. }
  pose proof (agree_not_differ hf x None (first hf)
                (trip_count (first hf) (last hf))) as Hnd.
  assert (∃ c, execute h i_opcode
               = v_op_goto (v_op_inc_pc (set_CARRY hf c)) ∧
               (c = 0 ∨ c = 1) ∧
               (c = 0 ↔ if want_zero then is_zero else ¬ is_zero))
    as (c & Hex & Hc01 & Hc).
  { rewrite execute_arithmetic by done. fold hf. unfold arithmetic_op.
    cbv zeta.
    destruct Hop as [(-> & -> & ->)|[(-> & -> & ->)|[(-> & -> & ->)|(-> & -> & ->)]]].
    - destruct (v_reg_test_eq_cases hf (REG B_REG) None) as [[A ->]|[D ->]].
      + exists 0. split; [done|]. split; [by left|]. by rewrite Hz.
      + exists 1. split; [done|]. split; [by right|]. rewrite Hz.
        split; [done|]. intros A. by destruct (Hnd A).
    - destruct (v_reg_test_eq_cases hf (REG C_REG) None) as [[A ->]|[D ->]].
      + exists 0. split; [done|]. split; [by left|]. by rewrite Hz.
      + exists 1. split; [done|]. split; [by right|]. rewrite Hz.
        split; [done|]. intros A. by destruct (Hnd A).
    - destruct (v_reg_test_ne_cases hf (REG A_REG) None) as [[A ->]|[D ->]].
      + exists 1. split; [done|]. split; [by right|]. rewrite Hz.
        split; [done|]. intros N. by destruct N.
      + exists 0. split; [done|]. split; [by left|]. rewrite Hz.
        split; [|done]. intros _ A. by destruct (Hnd A).
    - destruct (v_reg_test_ne_cases hf (REG C_REG) None) as [[A ->]|[D ->]].
      + exists 1. split; [done|]. split; [by right|]. rewrite Hz.
        split; [done|]. intros N. by destruct N.
      + exists 0. split; [done|]. split; [by left|]. rewrite Hz.
        split; [|done]. intros _ A. by destruct (Hnd A). }
  assert (pc (v_processor_tick h)
          = if bool_decide (c = 0) then rom h (pc h + 1) else pc h + 2) as Hpc'.
  { unfold v_processor_tick. cbv zeta. fold i_opcode. rewrite Hex.
    rewrite branch_pc by (cbn [flags set_CARRY set_flags DELAYED_ROM]; by rewrite Efl).
    cbn [flags set_CARRY set_flags CARRY pc rom].
    change (rom (set_CARRY hf c)) with (rom hf).
    change (pc (set_CARRY hf c)) with (pc hf).
    rewrite Erom, Epc, (advance_succ (pc h)) by lia.
    case_bool_decide; [by apply advance_pred | rewrite advance_succ; lia]. }
  split; [|split].
  - intros Hcond. rewrite Hpc', bool_decide_eq_true_2; [done|]. by apply Hc.
  - intros Hcond. rewrite Hpc', bool_decide_eq_false_2; [done|].
    intros E. apply Hc in E.
    destruct want_zero; [exact (Hcond E) | exact (E Hcond)].
  - intros r j. unfold v_processor_tick. cbv zeta. fold i_opcode.
    rewrite Hex, branch_regs. rewrite get_nibble_set_CARRY.
    by apply get_nibble_ext.
Qed.

(** ** Reset *)

Lemma get_nibble_invalid h r j : ¬ valid_nibble h r j → get_nibble h r j = 0.
Proof.
  unfold valid_nibble, reg_len, get_nibble, arr_get. intros H.
  case_bool_decide; [|done]. by rewrite lookup_ge_None_2 by lia.
Qed.

Lemma for_up_pres {St A : Type} (f : St → A) (body : Z → St → St) n :
  (∀ i s, f (body i s) = f s) → ∀ lo s, f (for_up n lo body s) = f s.
Proof.
  intros Hb. induction n as [|n IH]; intros lo s; cbn [for_up]; [done|].
  by rewrite IH, Hb.
Qed.

(** Copying nothing to a register clears its field. *)
Lemma v_reg_copy_zero h d :
  let g := v_reg_copy h d None in
  (∀ j, first h ≤ j ≤ last h → get_nibble g d j = 0) ∧
  (∀ r j, get_nibble h r j = 0 → get_nibble g r j = 0) ∧
  same_control h g ∧ flags g = flags h ∧
  (∀ r, reg_len g r = reg_len h r).
Proof.
  unfold v_reg_copy.
  destruct (copy_loop d None (trip_count (first h) (last h)) (first h) h)
    as (Hg & Hc & Hf & Hl). cbv zeta in Hg, Hc, Hf, Hl. cbv zeta.
  split; [|split; [|split; [|split]]]; try done.
  - intros j Hj. rewrite Hg. case_bool_decide as E; [done|].
    apply get_nibble_invalid. intros Hv. apply E.
    split; [done|]. split; [unfold trip_count; lia | done].
  - intros r j H0. rewrite Hg. by case_bool_decide.
Qed.

Lemma clear_loop (mk : Z → regptr) n : ∀ lo h,
  let g := for_up n lo (fun i_count h => v_reg_copy h (mk i_count) None) h in
  (∀ i j, lo ≤ i < lo + Z.of_nat n → first h ≤ j ≤ last h →
          get_nibble g (mk i) j = 0) ∧
  (∀ r j, get_nibble h r j = 0 → get_nibble g r j = 0) ∧
  same_control h g ∧ flags g = flags h ∧
  (∀ r, reg_len g r = reg_len h r).
Proof.
  induction n as [|n IH]; intros lo h; cbn [for_up]; cbv zeta.
  - split; [intros; lia|]. split; [done|].
    split; [apply same_control_refl|]. done.
  - destruct (v_reg_copy_zero h (mk lo)) as (Hz & Hk & Hc & Hf & Hl).
    cbv zeta in Hz, Hk, Hc, Hf, Hl.
    destruct (IH (lo + 1) (v_reg_copy h (mk lo) None))
      as (Hz' & Hk' & Hc' & Hf' & Hl'). cbv zeta in Hz', Hk', Hc', Hf', Hl'.
    assert (first (v_reg_copy h (mk lo) None) = first h ∧
            last (v_reg_copy h (mk lo) None) = last h) as [E1 E2]
      by (destruct Hc as (_&_&_&_&_&_&_&?&?&_); done).
    rewrite E1, E2 in Hz'.
    split; [|split; [|split; [|split]]].
    + intros i j Hi Hj. destruct (decide (i = lo)) as [->|].
      * by apply Hk', Hz.
      * apply Hz'; [lia | done].
    + intros r j H0. by apply Hk', Hk.
    + by eapply same_control_trans.
    + by rewrite Hf', Hf.
    + intros r. by rewrite Hl', Hl.
Qed.

Lemma zero_list_loop n : ∀ lo l j,
  arr_get (for_up n lo (fun i l => arr_set l i 0) l) j
  = if bool_decide (lo ≤ j < lo + Z.of_nat n) then
      if bool_decide (0 ≤ j < Z.of_nat (length l)) then 0 else arr_get l j
    else arr_get l j.
Proof.
  induction n as [|n IH]; intros lo l j; cbn [for_up].
  - by rewrite bool_decide_eq_false_2 by lia.
  - rewrite IH, arr_set_length, arr_get_set.
    repeat case_bool_decide; try reflexivity; try lia.
Qed.

Lemma zero_list_loop_length n : ∀ lo l,
  length (for_up n lo (fun i l => arr_set l i 0) l) = length l.
Proof.
  induction n as [|n IH]; intros lo l; cbn [for_up]; [done|].
  by rewrite IH, arr_set_length.
Qed.

Lemma arr_get_outside l j : ¬ 0 ≤ j < Z.of_nat (length l) → arr_get l j = 0.
Proof.
  intros H. unfold arr_get. case_bool_decide; [|done].
  by rewrite lookup_ge_None_2 by lia.
Qed.

(** Writing 0 at every index of an array leaves an array of zeros. *)
Lemma zero_list_all l j :
  arr_get (for_up (length l) 0 (fun i l => arr_set l i 0) l) j = 0.
Proof.
  rewrite zero_list_loop.
  repeat case_bool_decide; try reflexivity; apply arr_get_outside; lia.
Qed.

Lemma stack_loop n : ∀ lo h,
  let g := for_up n lo
             (fun i_count h => set_stack h (arr_set (stack h) i_count 0)) h in
  g = set_stack h (for_up n lo (fun i l => arr_set l i 0) (stack h)).
Proof.
  induction n as [|n IH]; intros lo h; cbn [for_up]; cbv zeta.
  - by destruct h.
  - by rewrite IH.
Qed.

Lemma status_loop n : ∀ lo h,
  let g := for_up n lo
             (fun i_count h => set_status h (arr_set (status h) i_count 0)) h in
  g = set_status h (for_up n lo (fun i l => arr_set l i 0) (status h)).
Proof.
  induction n as [|n IH]; intros lo h; cbn [for_up]; cbv zeta.
  - by destruct h.
  - by rewrite IH.
Qed.

Lemma get_nibble_frame h h' r j :
  reg h' = reg h → ram h' = ram h → get_nibble h' r j = get_nibble h r j.
Proof. apply get_nibble_ext. Qed.

Lemma reg_len_frame h h' r :
  reg h' = reg h → ram h' = ram h → reg_len h' r = reg_len h r.
Proof. intros E1 E2. unfold reg_len, deref. by rewrite E1, E2. Qed.

Lemma deref_REG_outside h i :
  ¬ 0 ≤ i < Z.of_nat (length (reg h)) → deref h (REG i) = no_register.
Proof. apply reg_file_get_outside. Qed.

Lemma deref_RAM_outside h i :
  ¬ 0 ≤ i < Z.of_nat (length (ram h)) → deref h (RAM i) = no_register.
Proof. apply reg_file_get_outside. Qed.

Lemma reg_length_set_nibble h r i v :
  length (reg (set_nibble h r i v)) = length (reg h) ∧
  length (ram (set_nibble h r i v)) = length (ram h).
Proof.
  destruct r as [k|k]; cbn [set_nibble reg ram set_reg set_ram];
    split; try reflexivity;
    unfold reg_file_set; case_bool_decide; by rewrite ?length_insert.
Qed.

Lemma v_reg_copy_lengths h d s :
  length (reg (v_reg_copy h d s)) = length (reg h) ∧
  length (ram (v_reg_copy h d s)) = length (ram h).
Proof.
  unfold v_reg_copy.
  split.
  - apply (for_up_pres (fun h => length (reg h))). intros i s0. cbv zeta.
    apply reg_length_set_nibble.
  - apply (for_up_pres (fun h => length (ram h))). intros i s0. cbv zeta.
    apply reg_length_set_nibble.
Qed.

(** All registers of one file cleared: every nibble below REG_SIZE of
    every register of the file reads 0 afterwards. *)
Lemma clear_file (mk : Z → regptr) (len : oprocessor → nat) h :
  first h = 0 → last h = REG_SIZE - 1 →
  (∀ i, ¬ 0 ≤ i < Z.of_nat (len h) → deref h (mk i) = no_register) →
  let g := for_up (len h) 0
             (fun i_count h => v_reg_copy h (mk i_count) None) h in
  (∀ i j, 0 ≤ j < REG_SIZE → get_nibble g (mk i) j = 0) ∧
  (∀ r j, get_nibble h r j = 0 → get_nibble g r j = 0) ∧
  same_control h g ∧ flags g = flags h ∧
  (∀ r, reg_len g r = reg_len h r).
Proof.
  intros Hf Hl Hout g.
  destruct (clear_loop mk (len h) 0 h) as (Hz & Hk & Hc & Hfl & Hlen).
  cbv zeta in Hz, Hk, Hc, Hfl, Hlen. fold g in Hz, Hk, Hc, Hfl, Hlen.
  split; [|done].
  intros i j Hj.
  destruct (decide (0 ≤ i < Z.of_nat (len h))) as [Hi|Hi].
  - apply Hz; [lia|]. rewrite Hf, Hl. lia.
  - apply Hk. unfold get_nibble. rewrite (Hout i Hi). cbn [nibble no_register].
    by apply arr_get_outside; cbn [length]; lia.
Qed.

(** [v_processor_clear_registers], its two loops apart. *)
Lemma v_processor_clear_registers_eq h :
  v_processor_clear_registers h
  = let h0 := set_last (set_first h 0) (REG_SIZE - 1) in
    let g := for_up (length (reg h0)) 0
               (fun i_count h => v_reg_copy h (REG i_count) None) h0 in
    set_stack g (for_up (length (stack g)) 0 (fun i l => arr_set l i 0) (stack g)).
Proof. unfold v_processor_clear_registers. cbv zeta. apply stack_loop. Qed.

Lemma v_processor_clear_registers_state h :
  let g := v_processor_clear_registers h in
  (∀ i j, 0 ≤ j < REG_SIZE → get_nibble g (REG i) j = 0) ∧
  (∀ r, reg_len g r = reg_len h r) ∧
  (∀ j, arr_get (stack g) j = 0) ∧
  length (stack g) = length (stack h) ∧
  status g = status h ∧ rom g = rom h ∧ errlog g = errlog h.
Proof.
  cbv zeta. rewrite v_processor_clear_registers_eq. cbv zeta.
  set (h0 := set_last (set_first h 0) (REG_SIZE - 1)).
  pose proof (clear_file REG (fun h => length (reg h)) h0 eq_refl eq_refl
                (deref_REG_outside h0)) as H.
  cbv beta zeta in H.
  set (g := for_up (length (reg h0)) 0
              (fun i_count h => v_reg_copy h (REG i_count) None) h0) in *.
  destruct H as (Hz & _ & Hc & _ & Hl).
  destruct Hc as (Hrom & Hstack & Hstatus & _ & _ & _ & _ & _ & _ & _
                  & _ & _ & _ & _ & _ & Herr).
  split; [|split; [|split; [|split; [|split; [|split]]]]].
  - intros i j Hj. rewrite <- (Hz i j Hj). apply get_nibble_ext; reflexivity.
  - intros r. transitivity (reg_len g r); [apply reg_len_frame; reflexivity|].
    rewrite Hl. by destruct r.
  - intros j. cbn [stack set_stack]. apply zero_list_all.
  - cbn [stack set_stack]. by rewrite zero_list_loop_length, Hstack.
  - cbn [status set_stack]. by rewrite Hstatus.
  - cbn [rom set_stack]. by rewrite Hrom.
  - cbn [errlog set_stack]. by rewrite Herr.
Qed.

Lemma v_processor_clear_data_registers_state h :
  let g := v_processor_clear_data_registers h in
  (∀ i j, 0 ≤ j < REG_SIZE → get_nibble g (RAM i) j = 0) ∧
  (∀ r j, get_nibble h r j = 0 → get_nibble g r j = 0) ∧
  (∀ r, reg_len g r = reg_len h r) ∧
  stack g = stack h ∧ status g = status h ∧ rom g = rom h ∧
  errlog g = errlog h.
Proof.
  cbv zeta. unfold v_processor_clear_data_registers. cbv zeta.
  set (h0 := set_last (set_first h 0) (REG_SIZE - 1)).
  pose proof (clear_file RAM (fun h => length (ram h)) h0 eq_refl eq_refl
                (deref_RAM_outside h0)) as H.
  cbv beta zeta in H.
  set (g := for_up (length (ram h0)) 0
              (fun i_count h => v_reg_copy h (RAM i_count) None) h0) in *.
  destruct H as (Hz & Hk & Hc & _ & Hl).
  destruct Hc as (Hrom & Hstack & Hstatus & _ & _ & _ & _ & _ & _ & _
                  & _ & _ & _ & _ & _ & Herr).
  split; [|split; [|split; [|split; [|split; [|split]]]]].
  - exact Hz.
  - intros r j H0. apply Hk. rewrite <- H0. apply get_nibble_ext; reflexivity.
  - intros r. rewrite Hl. by destruct r.
  - by rewrite Hstack.
  - by rewrite Hstatus.
  - by rewrite Hrom.
  - by rewrite Herr.
Qed.

(** [v_processor_init] after its two clearing calls and the loop over the
    status word. *)
Lemma v_processor_init_eq h :
  v_processor_init h
  = let g := v_processor_clear_data_registers
               (v_processor_clear_registers h) in
    let ss := for_up (length (status g)) 0 (fun i l => arr_set l i 0)
                (status g) in
    mk_processor (reg g) (ram g) (rom g) (stack g)
      (arr_set (arr_set ss 5 1) 3 1) (mk_flags 1 0 0 0 0 0)
      0 0 0 0 (first g) (last g) 10 0 0 (address g) 0 0 (errlog g).
Proof.
  unfold v_processor_init.
  set (g := v_processor_clear_data_registers (v_processor_clear_registers h)).
  cbv zeta. rewrite status_loop. reflexivity.
Qed.

(** X17: [v_processor_init]: the reset state.  Every nibble below REG_SIZE of
    every register and data register is 0 and no register changes its
    length; the return stack is all zero; the status bits are all 0 but
    bits 3 and 5; of the flags only MODE is set; pc, sp, p, f, the key
    latch and both bank numbers are 0, the radix is 10 and the field is
    the whole word.  The ROM and the error log are not touched. *)
Theorem v_processor_init_state (h : oprocessor) :
  let h' := v_processor_init h in
  (∀ r j, 0 ≤ j < REG_SIZE → get_nibble h' r j = 0) ∧
  (∀ r, reg_len h' r = reg_len h r) ∧
  (∀ j, arr_get (stack h') j = 0) ∧
  STACK_SIZE h' = STACK_SIZE h ∧
  (∀ j, arr_get (status h') j
        = if bool_decide ((j = 3 ∨ j = 5) ∧ j < Z.of_nat (length (status h)))
          then 1 else 0) ∧
  flags h' = mk_flags 1 0 0 0 0 0 ∧
  pc h' = 0 ∧ sp h' = 0 ∧ p h' = 0 ∧ f h' = 0 ∧ base h' = 10 ∧
  keycode h' = 0 ∧ keydown h' = 0 ∧
  first h' = 0 ∧ last h' = REG_SIZE - 1 ∧
  rom_number h' = 0 ∧ delayed_rom_number h' = 0 ∧
  rom h' = rom h ∧ errlog h' = errlog h.
Proof.
  intros h'. subst h'. rewrite v_processor_init_eq.
  destruct (v_processor_clear_registers_state h)
    as (Hz1 & Hl1 & Hs1 & Hsl1 & Hst1 & Hrom1 & Herr1).
  cbv zeta in Hz1, Hl1, Hs1, Hsl1, Hst1, Hrom1, Herr1.
  set (h1 := v_processor_clear_registers h) in *.
  destruct (v_processor_clear_data_registers_state h1)
    as (Hz2 & Hk2 & Hl2 & Hs2 & Hst2 & Hrom2 & Herr2).
  cbv zeta in Hz2, Hk2, Hl2, Hs2, Hst2, Hrom2, Herr2.
  set (g := v_processor_clear_data_registers h1) in *.
  cbv zeta.
  set (ss := for_up (length (status g)) 0 (fun i l => arr_set l i 0) (status g)).
  split; [|split; [|split; [|split; [|split]]]].
  - intros r j Hj.
    transitivity (get_nibble g r j); [apply get_nibble_ext; reflexivity|].
    destruct r as [i|i]; [apply Hk2; by apply Hz1 | by apply Hz2].
  - intros r. transitivity (reg_len g r); [apply reg_len_frame; reflexivity|].
    by rewrite Hl2, Hl1.
  - intros j. cbn [stack]. rewrite Hs2. apply Hs1.
  - unfold STACK_SIZE. cbn [stack]. by rewrite Hs2, Hsl1.
  - intros j. cbn [status].
    rewrite !arr_get_set, !arr_set_length.
    assert (length ss = length (status h)) as Els
      by (subst ss; by rewrite zero_list_loop_length, Hst2, Hst1).
    assert (arr_get ss j = 0) as -> by apply zero_list_all.
    rewrite Els. repeat case_bool_decide; try reflexivity; lia.
  - cbn [flags pc sp p f base keycode keydown first last rom_number
         delayed_rom_number rom errlog].
    rewrite Hrom2, Herr2, Hrom1, Herr1.
    assert (first g = 0 ∧ last g = REG_SIZE - 1) as [-> ->].
    { subst g. unfold v_processor_clear_data_registers. cbv zeta.
      split.
      - by rewrite (for_up_pres first)
          by (intros i s; apply (v_reg_copy_control s (RAM i) None)).
      - by rewrite (for_up_pres last)
          by (intros i s; apply (v_reg_copy_control s (RAM i) None)). }
    repeat apply conj; reflexivity.
Qed.

(** ** A new processor *)

Lemma v_processor_init_registers h :
  (∀ r j, 0 ≤ j < REG_SIZE → get_nibble (v_processor_init h) r j = 0) ∧
  (∀ r, reg_len (v_processor_init h) r = reg_len h r).
Proof.
  rewrite v_processor_init_eq.
  destruct (v_processor_clear_registers_state h) as (Hz1 & Hl1 & _).
  cbv zeta in Hz1, Hl1.
  set (h1 := v_processor_clear_registers h) in *.
  destruct (v_processor_clear_data_registers_state h1) as (Hz2 & Hk2 & Hl2 & _).
  cbv zeta in Hz2, Hk2, Hl2.
  set (g := v_processor_clear_data_registers h1) in *.
  cbv zeta. split.
  - intros r j Hj.
    transitivity (get_nibble g r j); [apply get_nibble_ext; reflexivity|].
    destruct r as [i|i]; [apply Hk2; by apply Hz1 | by apply Hz2].
  - intros r. transitivity (reg_len g r); [apply reg_len_frame; reflexivity|].
    by rewrite Hl2, Hl1.
Qed.

Lemma v_reg_copy_id h d s r :
  id (deref (v_reg_copy h d s) r) = id (deref h r).
Proof.
  unfold v_reg_copy. apply (for_up_pres (fun h => id (deref h r))).
  intros i s0. cbv zeta. rewrite deref_set_nibble.
  case_bool_decide as E; [by subst|done].
Qed.

Lemma v_processor_init_id h r :
  id (deref (v_processor_init h) r) = id (deref h r).
Proof.
  rewrite v_processor_init_eq. cbv zeta.
  set (g := v_processor_clear_data_registers (v_processor_clear_registers h)).
  transitivity (id (deref g r)); [by destruct r|]. subst g.
  unfold v_processor_clear_data_registers. cbv zeta.
  rewrite (for_up_pres (fun h => id (deref h r)))
    by (intros i s; apply v_reg_copy_id).
  transitivity (id (deref (v_processor_clear_registers h) r)); [by destruct r|].
  rewrite v_processor_clear_registers_eq. cbv zeta.
  set (g := for_up _ 0 _ (set_last (set_first h 0) (REG_SIZE - 1))).
  transitivity (id (deref g r)); [by destruct r|]. subst g.
  rewrite (for_up_pres (fun h => id (deref h r)))
    by (intros i s; apply v_reg_copy_id).
  by destruct r.
Qed.

(** Registers whose nibbles are all zero hold digits. *)
Lemma registers_zero_in_base h :
  0 < base h →
  (∀ r j, 0 ≤ j < reg_len h r → get_nibble h r j = 0) →
  registers_in_base h.
Proof.
  intros Hb Hz.
  assert (∀ mk : Z → regptr, ∀ l,
            (∀ i, deref h (mk i) = reg_file_get l i) →
            nibbles_in_base (base h) l) as Hfile.
  { intros mk l Hd. apply Forall_lookup. intros i r Hi.
    apply Forall_lookup. intros j v Hj.
    assert (deref h (mk (Z.of_nat i)) = r) as Er.
    { rewrite Hd. unfold reg_file_get.
      rewrite bool_decide_eq_true_2 by lia. by rewrite Nat2Z.id, Hi. }
    assert (get_nibble h (mk (Z.of_nat i)) (Z.of_nat j) = v) as Ev.
    { unfold get_nibble, arr_get. rewrite Er.
      rewrite bool_decide_eq_true_2 by lia. by rewrite Nat2Z.id, Hj. }
    apply lookup_lt_Some in Hj.
    rewrite Hz in Ev; [lia|]. unfold reg_len. rewrite Er. lia. }
  split; [apply (Hfile REG) | apply (Hfile RAM)]; done.
Qed.

Lemma created_register_len (mk : nat → Z) (n : nat) (i : Z) :
  0 ≤ i < Z.of_nat n →
  reg_file_get
    (map (fun i_count => mk_register (mk i_count)
                           (replicate (Z.to_nat REG_SIZE) 0)) (seq 0 n)) i
  = mk_register (mk (Z.to_nat i)) (replicate (Z.to_nat REG_SIZE) 0).
Proof.
  intros Hi. unfold reg_file_get. rewrite bool_decide_eq_true_2 by lia.
  change (map ?f ?l) with (f <$> l).
  rewrite list_lookup_fmap, lookup_seq_lt by lia. reflexivity.
Qed.

Lemma created_register_none (mk : nat → Z) (n : nat) (i : Z) :
  ¬ 0 ≤ i < Z.of_nat n →
  reg_file_get
    (map (fun i_count => mk_register (mk i_count)
                           (replicate (Z.to_nat REG_SIZE) 0)) (seq 0 n)) i
  = no_register.
Proof.
  intros Hi. apply reg_file_get_outside.
  by rewrite length_map, length_seq.
Qed.

(** X18: [h_processor_create]: a new processor has eight registers, numbered
    -1 to -8, and its data registers, numbered from 0, each of REG_SIZE
    nibbles; it is in the reset state, its digits are inside the radix,
    and with a return stack whose size is a power of two and a ROM of
    non-negative words it is within the pointer bounds. *)
Theorem h_processor_create_state (n k : nat) (h_rom : Z → Z) :
  let h := h_processor_create n k h_rom in
  (∀ i, 0 ≤ i < 8 →
        reg_len h (REG i) = REG_SIZE ∧ id (deref h (REG i)) = (i + 1) * -1) ∧
  (∀ i, 0 ≤ i < Z.of_nat n →
        reg_len h (RAM i) = REG_SIZE ∧ id (deref h (RAM i)) = i) ∧
  (∀ r j, get_nibble h r j = 0) ∧
  STACK_SIZE h = Z.of_nat k ∧ rom h = h_rom ∧ errlog h = [] ∧
  pc h = 0 ∧ sp h = 0 ∧ p h = 0 ∧ base h = 10 ∧
  digits_ok h ∧
  ((∃ m, 0 ≤ m ∧ Z.of_nat k = 2 ^ m) → (∀ a, 0 ≤ h_rom a) →
   machine_bounds h).
Proof.
  intros h. subst h. unfold h_processor_create. cbv zeta.
  set (regs := map (fun i_count => mk_register ((Z.of_nat i_count + 1) * -1)
                      (replicate (Z.to_nat REG_SIZE) 0)) (seq 0 8)).
  set (rams := map (fun i_count => mk_register (Z.of_nat i_count)
                      (replicate (Z.to_nat REG_SIZE) 0)) (seq 0 n)).
  set (h0 := mk_processor regs rams h_rom (replicate k 0) (replicate 16 0)
               (mk_flags 0 0 0 0 0 0) 0 0 0 0 0 0 0 0 0 0 0 0 []).
  destruct (v_processor_init_registers h0) as [Hz Hl].
  pose proof (v_processor_init_id h0) as Hid.
  assert (v_processor_init h0 = v_processor_init h0) as E by reflexivity.
  rewrite v_processor_init_eq in E at 2. cbv zeta in E.
  destruct (v_processor_clear_registers_state h0)
    as (_ & _ & Hs1 & Hsl1 & _ & Hrom1 & Herr1).
  cbv zeta in Hs1, Hsl1, Hrom1, Herr1.
  destruct (v_processor_clear_data_registers_state
              (v_processor_clear_registers h0))
    as (_ & _ & _ & Hs2 & _ & Hrom2 & Herr2).
  cbv zeta in Hs2, Hrom2, Herr2.
  set (g := v_processor_clear_data_registers (v_processor_clear_registers h0))
    in *.
  set (h := v_processor_init h0) in *.
  assert (∀ i, 0 ≤ i < 8 → deref h0 (REG i)
            = mk_register ((Z.of_nat (Z.to_nat i) + 1) * -1)
                (replicate (Z.to_nat REG_SIZE) 0)) as Hreg
    by (intros i Hi; apply (created_register_len
                              (fun c => (Z.of_nat c + 1) * -1) 8 i Hi)).
  assert (∀ i, 0 ≤ i < Z.of_nat n → deref h0 (RAM i)
            = mk_register (Z.of_nat (Z.to_nat i))
                (replicate (Z.to_nat REG_SIZE) 0)) as Hram
    by (intros i Hi; apply (created_register_len Z.of_nat n i Hi)).
  assert (∀ r, reg_len h0 r = REG_SIZE ∨ reg_len h0 r = 0) as Hlen.
  { intros [i|i]; unfold reg_len.
    - destruct (decide (0 ≤ i < 8)) as [Hi|Hi].
      + left. rewrite (Hreg i Hi). cbn [nibble]. by rewrite length_replicate.
      + right. cbn [deref reg h0]. unfold regs.
        by rewrite (created_register_none _ 8 i Hi).
    - destruct (decide (0 ≤ i < Z.of_nat n)) as [Hi|Hi].
      + left. rewrite (Hram i Hi). cbn [nibble]. by rewrite length_replicate.
      + right. cbn [deref ram h0]. unfold rams.
        by rewrite (created_register_none _ n i Hi). }
  assert (∀ r j, get_nibble h r j = 0) as Hzero.
  { intros r j. destruct (decide (0 ≤ j < REG_SIZE)) as [Hj|Hj];
      [by apply Hz|].
    apply get_nibble_invalid. unfold valid_nibble. rewrite Hl.
    destruct (Hlen r) as [-> | ->]; unfold REG_SIZE in *; lia. }
  assert (base h = 10 ∧ pc h = 0 ∧ sp h = 0 ∧ p h = 0 ∧ f h = 0 ∧
          flags h = mk_flags 1 0 0 0 0 0 ∧ keycode h = 0 ∧
          delayed_rom_number h = 0 ∧
          stack h = stack g ∧ rom h = rom g ∧ errlog h = errlog g)
    as (Hbase & Hpc & Hsp & Hp & Hf & Hfl & Hkey & Hdrn & Hst & Hrom & Herr)
    by (rewrite E; repeat apply conj; reflexivity).
  assert (∀ i, 0 ≤ i < 8 → id (deref h (REG i)) = (i + 1) * -1) as HidR
    by (intros i Hi; rewrite Hid, (Hreg i Hi); cbn [id]; lia).
  assert (∀ i, 0 ≤ i < Z.of_nat n → id (deref h (RAM i)) = i) as HidM
    by (intros i Hi; rewrite Hid, (Hram i Hi); cbn [id]; lia).
  assert (STACK_SIZE h = Z.of_nat k) as HS.
  { unfold STACK_SIZE. rewrite Hst, Hs2, Hsl1. cbn [stack h0].
    by rewrite length_replicate. }
  clear E Hz Hid. clearbody h g.
  split; [|split; [|split; [exact Hzero|split; [exact HS|split; [|split;
    [|split; [exact Hpc|split; [exact Hsp|split; [exact Hp|split;
    [exact Hbase|split]]]]]]]]]].
  - intros i Hi. rewrite Hl, (HidR i Hi). unfold reg_len.
    rewrite (Hreg i Hi). cbn [nibble]. rewrite length_replicate.
    unfold REG_SIZE. split; lia.
  - intros i Hi. rewrite Hl, (HidM i Hi). unfold reg_len.
    rewrite (Hram i Hi). cbn [nibble]. rewrite length_replicate.
    unfold REG_SIZE. split; lia.
  - by rewrite Hrom, Hrom2, Hrom1.
  - by rewrite Herr, Herr2, Herr1.
  - split; [by left|]. split; [rewrite Hfl; by left|].
    split; [rewrite Hf, Hbase; lia|].
    apply registers_zero_in_base; [rewrite Hbase; lia|].
    intros r j _. apply Hzero.
  - intros Hk Hr. unfold machine_bounds.
    rewrite Hpc, Hsp, Hp, Hdrn, Hkey, HS, Hrom, Hrom2, Hrom1.
    split; [lia|]. split; [exact Hk|].
    split; [destruct Hk as (m & Hm & ->);
            pose proof (Z.pow_pos_nonneg 2 m); lia|].
    split; [unfold REG_SIZE; lia|].
    split; [|split; [lia|split; [lia|exact Hr]]].
    apply Forall_lookup. intros i x Hi.
    assert (arr_get (stack h) (Z.of_nat i) = x) as <-.
    { unfold arr_get. rewrite bool_decide_eq_true_2 by lia.
      by rewrite Nat2Z.id, Hi. }
    rewrite Hst, Hs2, Hs1. lia.
Qed.

(** ** Decimal programs *)

Lemma keeps_same h0 h h' : same_control h h' → keeps h0 h → keeps h0 h'.
Proof.
  unfold keeps. intros (-> & _ & _ & _ & _ & _ & _ & _ & _ & -> & _) H.
  exact H.
Qed.

Lemma keeps_set_flags h0 h fl : keeps h0 h → keeps h0 (set_flags h fl).
Proof. apply keeps_same, same_control_set_flags. Qed.
Lemma keeps_set_CARRY h0 h c : keeps h0 h → keeps h0 (set_CARRY h c).
Proof. apply keeps_set_flags. Qed.
Lemma keeps_set_PREV_CARRY h0 h c : keeps h0 h → keeps h0 (set_PREV_CARRY h c).
Proof. apply keeps_set_flags. Qed.
Lemma keeps_set_DELAYED_ROM h0 h c : keeps h0 h → keeps h0 (set_DELAYED_ROM h c).
Proof. apply keeps_set_flags. Qed.
Lemma keeps_set_DISPLAY_ENABLE h0 h c :
  keeps h0 h → keeps h0 (set_DISPLAY_ENABLE h c).
Proof. apply keeps_set_flags. Qed.
Lemma keeps_set_nibble h0 h r i v : keeps h0 h → keeps h0 (set_nibble h r i v).
Proof. apply keeps_same, same_control_set_nibble. Qed.
Lemma keeps_set_pc h0 h v : keeps h0 h → keeps h0 (set_pc h v).
Proof. done. Qed.
Lemma keeps_set_sp h0 h v : keeps h0 h → keeps h0 (set_sp h v).
Proof. done. Qed.
Lemma keeps_set_p h0 h v : keeps h0 h → keeps h0 (set_p h v).
Proof. done. Qed.
Lemma keeps_set_f h0 h v : keeps h0 h → keeps h0 (set_f h v).
Proof. done. Qed.
Lemma keeps_set_first h0 h v : keeps h0 h → keeps h0 (set_first h v).
Proof. done. Qed.
Lemma keeps_set_last h0 h v : keeps h0 h → keeps h0 (set_last h v).
Proof. done. Qed.
Lemma keeps_set_stack h0 h v : keeps h0 h → keeps h0 (set_stack h v).
Proof. done. Qed.
Lemma keeps_set_status h0 h v : keeps h0 h → keeps h0 (set_status h v).
Proof. done. Qed.
Lemma keeps_set_address h0 h v : keeps h0 h → keeps h0 (set_address h v).
Proof. done. Qed.
Lemma keeps_set_delayed_rom_number h0 h v :
  keeps h0 h → keeps h0 (set_delayed_rom_number h v).
Proof. done. Qed.
Lemma keeps_v_error h0 h m : keeps h0 h → keeps h0 (v_error h m).
Proof. done. Qed.
Lemma keeps_v_reg_copy h0 h d s : keeps h0 h → keeps h0 (v_reg_copy h d s).
Proof. apply keeps_same, v_reg_copy_control. Qed.
Lemma keeps_v_reg_exch h0 h d s : keeps h0 h → keeps h0 (v_reg_exch h d s).
Proof. apply keeps_same, v_reg_exch_control. Qed.
Lemma keeps_v_reg_add h0 h d s a : keeps h0 h → keeps h0 (v_reg_add h d s a).
Proof. apply keeps_same, v_reg_add_control. Qed.
Lemma keeps_v_reg_sub h0 h d s a : keeps h0 h → keeps h0 (v_reg_sub h d s a).
Proof. apply keeps_same, v_reg_sub_control. Qed.
Lemma keeps_v_reg_inc h0 h r : keeps h0 h → keeps h0 (v_reg_inc h r).
Proof. apply keeps_same, v_reg_inc_control. Qed.
Lemma keeps_v_reg_shr h0 h r : keeps h0 h → keeps h0 (v_reg_shr h r).
Proof. apply keeps_same, v_reg_shr_control. Qed.
Lemma keeps_v_reg_shl h0 h r : keeps h0 h → keeps h0 (v_reg_shl h r).
Proof. apply keeps_same, v_reg_shl_control. Qed.
Lemma keeps_v_reg_test_eq h0 h d s : keeps h0 h → keeps h0 (v_reg_test_eq h d s).
Proof. apply keeps_same, v_reg_test_eq_control. Qed.
Lemma keeps_v_reg_test_ne h0 h d s : keeps h0 h → keeps h0 (v_reg_test_ne h d s).
Proof. apply keeps_same, v_reg_test_ne_control. Qed.

Create HintDb kp discriminated.

#[local] Hint Resolve keeps_set_CARRY keeps_set_PREV_CARRY
  keeps_set_DELAYED_ROM keeps_set_DISPLAY_ENABLE keeps_set_nibble keeps_set_pc
  keeps_set_sp keeps_set_p keeps_set_f keeps_set_first keeps_set_last
  keeps_set_stack keeps_set_status keeps_set_address
  keeps_set_delayed_rom_number keeps_v_error keeps_v_reg_copy
  keeps_v_reg_exch keeps_v_reg_add keeps_v_reg_sub keeps_v_reg_inc
  keeps_v_reg_shr keeps_v_reg_shl keeps_v_reg_test_eq keeps_v_reg_test_ne : kp.

Lemma keeps_delayed_rom_switch h0 h : keeps h0 h → keeps h0 (delayed_rom_switch h).
Proof. intros H. unfold delayed_rom_switch. case_bool_decide; auto with kp. Qed.

Lemma keeps_v_op_inc_pc h0 h : keeps h0 h → keeps h0 (v_op_inc_pc h).
Proof. intros H. unfold v_op_inc_pc. case_bool_decide; auto 6 with kp. Qed.

Lemma keeps_v_op_goto h0 h : keeps h0 h → keeps h0 (v_op_goto h).
Proof.
  intros H. unfold v_op_goto. case_bool_decide; [|done].
  by apply keeps_delayed_rom_switch, keeps_set_pc.
Qed.

Lemma keeps_op_jsb h0 h i_count : keeps h0 h → keeps h0 (op_jsb h i_count).
Proof. intros H. unfold op_jsb. apply keeps_delayed_rom_switch. auto with kp. Qed.

Lemma keeps_clear_data_registers h0 h :
  keeps h0 h → keeps h0 (v_processor_clear_data_registers h).
Proof.
  intros H. unfold v_processor_clear_data_registers.
  apply for_up_inv; auto with kp.
Qed.

Lemma keeps_clear_registers h0 h :
  keeps h0 h → keeps h0 (v_processor_clear_registers h).
Proof.
  intros H. unfold v_processor_clear_registers.
  apply for_up_inv; [auto with kp|].
  apply for_up_inv; auto with kp.
Qed.

Lemma keeps_clear_s_body h0 i h : keeps h0 h → keeps h0 (clear_s_body i h).
Proof. intros H. unfold clear_s_body. repeat case_match; auto with kp. Qed.

#[local] Hint Resolve keeps_delayed_rom_switch keeps_v_op_inc_pc
  keeps_v_op_goto keeps_op_jsb keeps_clear_data_registers
  keeps_clear_registers keeps_clear_s_body : kp.

Lemma keeps_decode_field h0 h i_field :
  keeps h0 h → keeps h0 (decode_field h i_field).
Proof.
  intros H. unfold decode_field.
  repeat case_match; try case_bool_decide; auto 6 with kp.
Qed.

Lemma keeps_arithmetic_op h0 h i_opcode :
  keeps h0 h → keeps h0 (arithmetic_op h i_opcode).
Proof.
  intros H. unfold arithmetic_op. cbv zeta.
  repeat case_match; auto 6 with kp.
Qed.

Lemma keeps_long_branch h0 h i_opcode :
  keeps h0 h → keeps h0 (long_branch h i_opcode).
Proof.
  intros H. unfold long_branch.
  repeat case_match; try case_bool_decide; auto 6 with kp.
Qed.

Lemma keeps_special_group0 h0 h i_opcode :
  i_opcode ≠ op_binary →
  keeps h0 h → keeps h0 (special_group0 h i_opcode).
Proof.
  intros Hb H. unfold special_group0.
  repeat case_match; subst; repeat case_bool_decide; auto 6 with kp.
  by destruct Hb.
Qed.

Lemma keeps_special_group1 h0 h i_opcode :
  keeps h0 h → keeps h0 (special_group1 h i_opcode).
Proof.
  intros H. unfold special_group1. unfold c_bool.
  repeat case_match; auto 8 with kp.
Qed.

Lemma keeps_special_group2 h0 h i_opcode :
  base h0 = 10 →
  keeps h0 h → keeps h0 (special_group2 h i_opcode).
Proof.
  intros Hb H. unfold special_group2.
  destruct (Z.land (Z.shiftr i_opcode 4) 3) as [|s|s] eqn:Hs;
    [|repeat case_match; subst; repeat case_bool_decide ..];
    auto 6 with kp.
  repeat case_match; subst; repeat case_bool_decide; auto 8 with kp.
  all: lazymatch goal with
       | |- keeps _ (set_base _ _) => split; [apply H | by rewrite Hb]
       | |- keeps _ (for_up _ _ _ _) => apply for_up_inv; auto with kp
       end.
Qed.

Lemma keeps_special_group3 h0 h i_opcode :
  keeps h0 h → keeps h0 (special_group3 h i_opcode).
Proof.
  intros H. unfold special_group3. unfold c_bool.
  repeat case_match; repeat case_bool_decide; auto 8 with kp.
Qed.

(** No instruction writes the ROM, and only [binary] leaves the radix 10. *)
Lemma keeps_execute h0 h i_opcode :
  base h0 = 10 → i_opcode ≠ op_binary →
  keeps h0 h → keeps h0 (execute h i_opcode).
Proof.
  intros Hb Hop H. unfold execute. cbv zeta.
  destruct (Z.land i_opcode 3) as [|c|c] eqn:Hclass.
  - destruct (Z.land (Z.shiftr i_opcode 2) 3) as [|g|g] eqn:Hg;
      [|repeat case_match; subst ..];
      auto using keeps_special_group0, keeps_special_group1,
        keeps_special_group2, keeps_special_group3.
  - repeat case_match;
      auto using keeps_long_branch, keeps_arithmetic_op,
        keeps_decode_field, keeps_v_error, keeps_op_jsb.
  - by apply keeps_v_error.
Qed.

(** ** The register stack *)

(** A copy over the whole word. *)
Lemma word_copy h d s :
  first h = 0 → last h = REG_SIZE - 1 → REG_SIZE ≤ reg_len h d →
  let g := v_reg_copy h d (Some s) in
  (∀ r j, get_nibble g r j
          = if bool_decide (r = d ∧ 0 ≤ j < REG_SIZE) then get_nibble h s j
            else get_nibble h r j) ∧
  first g = 0 ∧ last g = REG_SIZE - 1 ∧
  (∀ r, reg_len g r = reg_len h r) ∧
  same_control h g ∧ flags g = flags h.
Proof.
  intros Hf Hl Hlen. unfold v_reg_copy.
  destruct (copy_loop d (Some s) (trip_count (first h) (last h)) (first h) h)
    as (Hg & Hc & Hfl & Hln). cbv zeta in Hg, Hc, Hfl, Hln. cbv zeta.
  split; [|split; [|split; [|split; [|split]]]]; try done.
  - intros r j. rewrite Hg. cbn [nibble_or_zero].
    apply (f_equal (fun c : bool => if c then get_nibble h s j
                                    else get_nibble h r j)).
    apply bool_decide_ext. unfold trip_count, valid_nibble.
    rewrite Hf, Hl. unfold REG_SIZE in *. intuition lia.
  - destruct Hc as (_&_&_&_&_&_&_&->&_). done.
  - destruct Hc as (_&_&_&_&_&_&_&_&->&_). done.
Qed.

(** An exchange over the whole word. *)
Lemma word_exch h d s :
  d ≠ s → first h = 0 → last h = REG_SIZE - 1 →
  REG_SIZE ≤ reg_len h d → REG_SIZE ≤ reg_len h s →
  let g := v_reg_exch h d s in
  (∀ r j, get_nibble g r j
          = if bool_decide (r = d ∧ 0 ≤ j < REG_SIZE) then get_nibble h s j
            else if bool_decide (r = s ∧ 0 ≤ j < REG_SIZE)
                 then get_nibble h d j
                 else get_nibble h r j) ∧
  first g = 0 ∧ last g = REG_SIZE - 1 ∧
  (∀ r, reg_len g r = reg_len h r) ∧
  same_control h g ∧ flags g = flags h.
Proof.
  intros Hds Hf Hl Hd Hs. unfold v_reg_exch.
  destruct (exch_loop d s (trip_count (first h) (last h)) Hds (first h) h)
    as (Hg & Hc & Hfl & Hln). cbv zeta in Hg, Hc, Hfl, Hln. cbv zeta.
  split; [|split; [|split; [|split; [|split]]]]; try done.
  - intros r j. rewrite Hg. unfold trip_count, valid_nibble.
    rewrite Hf, Hl. unfold REG_SIZE in *.
    repeat case_bool_decide; try reflexivity; exfalso; intuition lia.
  - destruct Hc as (_&_&_&_&_&_&_&->&_). done.
  - destruct Hc as (_&_&_&_&_&_&_&_&->&_). done.
Qed.

Lemma get_nibble_window h v w r j :
  get_nibble (set_last (set_first h v) w) r j = get_nibble h r j.
Proof. by destruct r. Qed.

Lemma reg_len_window h v w r :
  reg_len (set_last (set_first h v) w) r = reg_len h r.
Proof. by destruct r. Qed.

Ltac by_register :=
  unfold Y_REG, Z_REG, T_REG, C_REG, A_REG, REG_SIZE in *;
  repeat case_bool_decide; try reflexivity; try congruence;
  try solve [exfalso; intuition (congruence || lia)].

(** The nibbles after [c -> stack]. *)
Lemma c_to_stack_nibbles h :
  full_register h (REG Y_REG) → full_register h (REG Z_REG) →
  full_register h (REG T_REG) →
  let h' := execute h op_c_to_stack in
  (∀ r j, get_nibble h' r j
          = if bool_decide (0 ≤ j < REG_SIZE) then
              if bool_decide (r = REG Y_REG) then get_nibble h (REG C_REG) j
              else if bool_decide (r = REG Z_REG)
                   then get_nibble h (REG Y_REG) j
              else if bool_decide (r = REG T_REG)
                   then get_nibble h (REG Z_REG) j
              else get_nibble h r j
            else get_nibble h r j) ∧
  (∀ r, reg_len h' r = reg_len h r) ∧
  flags h' = flags h ∧ pc h' = pc h ∧ status h' = status h ∧
  stack h' = stack h ∧ sp h' = sp h ∧ p h' = p h ∧ base h' = base h.
Proof.
  intros HY HZ HT h'. subst h'. unfold full_register in *.
  change (execute h op_c_to_stack)
    with (let h := set_last (set_first h 0) (REG_SIZE - 1) in
          let h := v_reg_copy h (REG T_REG) (Some (REG Z_REG)) in
          let h := v_reg_copy h (REG Z_REG) (Some (REG Y_REG)) in
          v_reg_copy h (REG Y_REG) (Some (REG C_REG))).
  cbv zeta. set (h0 := set_last (set_first h 0) (REG_SIZE - 1)).
  destruct (word_copy h0 (REG T_REG) (REG Z_REG) eq_refl eq_refl)
    as (G1 & F1 & L1 & R1 & C1 & Fl1);
    [unfold h0; by rewrite reg_len_window|].
  cbv zeta in G1, F1, L1, R1, C1, Fl1.
  set (h1 := v_reg_copy h0 (REG T_REG) (Some (REG Z_REG))) in *.
  destruct (word_copy h1 (REG Z_REG) (REG Y_REG) F1 L1)
    as (G2 & F2 & L2 & R2 & C2 & Fl2);
    [unfold h0 in *; by rewrite R1, reg_len_window|].
  cbv zeta in G2, F2, L2, R2, C2, Fl2.
  set (h2 := v_reg_copy h1 (REG Z_REG) (Some (REG Y_REG))) in *.
  destruct (word_copy h2 (REG Y_REG) (REG C_REG) F2 L2)
    as (G3 & F3 & L3 & R3 & C3 & Fl3);
    [unfold h0 in *; by rewrite R2, R1, reg_len_window|].
  cbv zeta in G3, F3, L3, R3, C3, Fl3.
  set (h3 := v_reg_copy h2 (REG Y_REG) (Some (REG C_REG))) in *.
  pose proof (same_control_trans _ _ _ C1 (same_control_trans _ _ _ C2 C3))
    as (_ & Hstack & Hstatus & Hpc & Hsp & Hp & _ & _ & _ & Hbase & _).
  clearbody h3 h2 h1. unfold h0 in *. clear h0.
  split; [|split; [|split; [|split; [|split; [|split; [|split; [|split]]]]]]].
  - intros r j. rewrite G3, !G2, !G1, !get_nibble_window. clear. by_register.
  - intros r. by rewrite R3, R2, R1, reg_len_window.
  - by rewrite Fl3, Fl2, Fl1.
  - by rewrite Hpc.
  - by rewrite Hstatus.
  - by rewrite Hstack.
  - by rewrite Hsp.
  - by rewrite Hp.
  - by rewrite Hbase.
Qed.

(** The nibbles after [stack -> a]. *)
Lemma stack_to_a_nibbles h :
  full_register h (REG A_REG) → full_register h (REG Y_REG) →
  full_register h (REG Z_REG) →
  let h' := execute h op_stack_to_a in
  (∀ r j, get_nibble h' r j
          = if bool_decide (0 ≤ j < REG_SIZE) then
              if bool_decide (r = REG A_REG) then get_nibble h (REG Y_REG) j
              else if bool_decide (r = REG Y_REG)
                   then get_nibble h (REG Z_REG) j
              else if bool_decide (r = REG Z_REG)
                   then get_nibble h (REG T_REG) j
              else get_nibble h r j
            else get_nibble h r j) ∧
  (∀ r, reg_len h' r = reg_len h r) ∧
  flags h' = flags h ∧ pc h' = pc h ∧ status h' = status h ∧
  stack h' = stack h ∧ sp h' = sp h ∧ p h' = p h ∧ base h' = base h.
Proof.
  intros HA HY HZ h'. subst h'. unfold full_register in *.
  change (execute h op_stack_to_a)
    with (let h := set_last (set_first h 0) (REG_SIZE - 1) in
          let h := v_reg_copy h (REG A_REG) (Some (REG Y_REG)) in
          let h := v_reg_copy h (REG Y_REG) (Some (REG Z_REG)) in
          v_reg_copy h (REG Z_REG) (Some (REG T_REG))).
  cbv zeta. set (h0 := set_last (set_first h 0) (REG_SIZE - 1)).
  destruct (word_copy h0 (REG A_REG) (REG Y_REG) eq_refl eq_refl)
    as (G1 & F1 & L1 & R1 & C1 & Fl1);
    [unfold h0; by rewrite reg_len_window|].
  cbv zeta in G1, F1, L1, R1, C1, Fl1.
  set (h1 := v_reg_copy h0 (REG A_REG) (Some (REG Y_REG))) in *.
  destruct (word_copy h1 (REG Y_REG) (REG Z_REG) F1 L1)
    as (G2 & F2 & L2 & R2 & C2 & Fl2);
    [unfold h0 in *; by rewrite R1, reg_len_window|].
  cbv zeta in G2, F2, L2, R2, C2, Fl2.
  set (h2 := v_reg_copy h1 (REG Y_REG) (Some (REG Z_REG))) in *.
  destruct (word_copy h2 (REG Z_REG) (REG T_REG) F2 L2)
    as (G3 & F3 & L3 & R3 & C3 & Fl3);
    [unfold h0 in *; by rewrite R2, R1, reg_len_window|].
  cbv zeta in G3, F3, L3, R3, C3, Fl3.
  set (h3 := v_reg_copy h2 (REG Z_REG) (Some (REG T_REG))) in *.
  pose proof (same_control_trans _ _ _ C1 (same_control_trans _ _ _ C2 C3))
    as (_ & Hstack & Hstatus & Hpc & Hsp & Hp & _ & _ & _ & Hbase & _).
  clearbody h3 h2 h1. unfold h0 in *. clear h0.
  split; [|split; [|split; [|split; [|split; [|split; [|split; [|split]]]]]]].
  - intros r j. rewrite G3, !G2, !G1, !get_nibble_window. clear. by_register.
  - intros r. by rewrite R3, R2, R1, reg_len_window.
  - by rewrite Fl3, Fl2, Fl1.
  - by rewrite Hpc.
  - by rewrite Hstatus.
  - by rewrite Hstack.
  - by rewrite Hsp.
  - by rewrite Hp.
  - by rewrite Hbase.
Qed.

(** X20: [c -> stack] pushes C on the register stack: Y takes C, Z takes Y and
    T takes Z, whose old content is lost; no other register, no nibble
    above REG_SIZE, and neither the flags, the status bits, the program
    counter, the return stack, p nor the radix change. *)
Theorem c_to_stack_effect (h : oprocessor) :
  full_register h (REG Y_REG) → full_register h (REG Z_REG) →
  full_register h (REG T_REG) →
  let h' := execute h op_c_to_stack in
  (∀ j, 0 ≤ j < REG_SIZE →
        get_nibble h' (REG Y_REG) j = get_nibble h (REG C_REG) j ∧
        get_nibble h' (REG Z_REG) j = get_nibble h (REG Y_REG) j ∧
        get_nibble h' (REG T_REG) j = get_nibble h (REG Z_REG) j) ∧
  (∀ r j, r ≠ REG Y_REG → r ≠ REG Z_REG → r ≠ REG T_REG →
          get_nibble h' r j = get_nibble h r j) ∧
  flags h' = flags h ∧ pc h' = pc h ∧ status h' = status h ∧
  stack h' = stack h ∧ sp h' = sp h ∧ p h' = p h ∧ base h' = base h.
Proof.
  intros HY HZ HT h'.
  destruct (c_to_stack_nibbles h HY HZ HT) as (G & _ & Hrest).
  cbv zeta in G, Hrest. fold h' in G, Hrest. clearbody h'.
  split; [|split; [|exact Hrest]].
  - intros j Hj. rewrite !G. clear -Hj. split; [|split]; by_register.
  - intros r j H1 H2 H3. rewrite G. clear -H1 H2 H3. by_register.
Qed.

(** X21: Push and pop: [c -> stack] followed by [stack -> a] leaves in A the
    value of C and restores Y and Z; T holds the old Z. *)
Theorem stack_push_pop (h : oprocessor) :
  full_register h (REG A_REG) → full_register h (REG Y_REG) →
  full_register h (REG Z_REG) → full_register h (REG T_REG) →
  let h' := execute (execute h op_c_to_stack) op_stack_to_a in
  (∀ j, 0 ≤ j < REG_SIZE →
        get_nibble h' (REG A_REG) j = get_nibble h (REG C_REG) j ∧
        get_nibble h' (REG Y_REG) j = get_nibble h (REG Y_REG) j ∧
        get_nibble h' (REG Z_REG) j = get_nibble h (REG Z_REG) j ∧
        get_nibble h' (REG T_REG) j = get_nibble h (REG Z_REG) j) ∧
  (∀ r j, r ≠ REG A_REG → r ≠ REG T_REG →
          get_nibble h' r j = get_nibble h r j).
Proof.
  intros HA HY HZ HT h'.
  destruct (c_to_stack_nibbles h HY HZ HT) as (G1 & R1 & _).
  cbv zeta in G1, R1.
  set (h1 := execute h op_c_to_stack) in *.
  destruct (stack_to_a_nibbles h1) as (G2 & _);
    [unfold full_register in *; by rewrite R1 ..|].
  cbv zeta in G2. fold h' in G2. clearbody h' h1.
  split.
  - intros j Hj. rewrite !G2, !G1. clear -Hj.
    split; [|split; [|split]]; by_register.
  - intros r j H1 H2. rewrite G2, !G1. clear -H1 H2. by_register.
Qed.

(** X22: [down rotate] turns the four-level stack C, Y, Z, T by one place: C
    takes Y, Y takes Z, Z takes T and T takes C. *)
Theorem down_rotate_effect (h : oprocessor) :
  full_register h (REG C_REG) → full_register h (REG Y_REG) →
  full_register h (REG Z_REG) → full_register h (REG T_REG) →
  let h' := execute h op_down_rotate in
  (∀ j, 0 ≤ j < REG_SIZE →
        get_nibble h' (REG C_REG) j = get_nibble h (REG Y_REG) j ∧
        get_nibble h' (REG Y_REG) j = get_nibble h (REG Z_REG) j ∧
        get_nibble h' (REG Z_REG) j = get_nibble h (REG T_REG) j ∧
        get_nibble h' (REG T_REG) j = get_nibble h (REG C_REG) j) ∧
  (∀ r j, r ≠ REG C_REG → r ≠ REG Y_REG → r ≠ REG Z_REG → r ≠ REG T_REG →
          get_nibble h' r j = get_nibble h r j) ∧
  (∀ r j, ¬ 0 ≤ j < REG_SIZE → get_nibble h' r j = get_nibble h r j) ∧
  flags h' = flags h.
Proof.
  intros HC HY HZ HT h'. subst h'. unfold full_register in *.
  change (execute h op_down_rotate)
    with (let h := set_last (set_first h 0) (REG_SIZE - 1) in
          let h := v_reg_exch h (REG T_REG) (REG C_REG) in
          let h := v_reg_exch h (REG C_REG) (REG Y_REG) in
          v_reg_exch h (REG Y_REG) (REG Z_REG)).
  cbv zeta. set (h0 := set_last (set_first h 0) (REG_SIZE - 1)).
  assert (REG T_REG ≠ REG C_REG) as N1 by (intros E; discriminate E).
  assert (REG C_REG ≠ REG Y_REG) as N2 by (intros E; discriminate E).
  assert (REG Y_REG ≠ REG Z_REG) as N3 by (intros E; discriminate E).
  destruct (word_exch h0 (REG T_REG) (REG C_REG) N1 eq_refl eq_refl)
    as (G1 & F1 & L1 & R1 & _ & Fl1);
    [unfold h0; by rewrite reg_len_window ..|].
  cbv zeta in G1, F1, L1, R1, Fl1.
  set (h1 := v_reg_exch h0 (REG T_REG) (REG C_REG)) in *.
  destruct (word_exch h1 (REG C_REG) (REG Y_REG) N2 F1 L1)
    as (G2 & F2 & L2 & R2 & _ & Fl2);
    [unfold h0 in *; by rewrite R1, reg_len_window ..|].
  cbv zeta in G2, F2, L2, R2, Fl2.
  set (h2 := v_reg_exch h1 (REG C_REG) (REG Y_REG)) in *.
  destruct (word_exch h2 (REG Y_REG) (REG Z_REG) N3 F2 L2)
    as (G3 & F3 & L3 & R3 & _ & Fl3);
    [unfold h0 in *; by rewrite R2, R1, reg_len_window ..|].
  cbv zeta in G3, F3, L3, R3, Fl3.
  set (h3 := v_reg_exch h2 (REG Y_REG) (REG Z_REG)) in *.
  clearbody h3 h2 h1. unfold h0 in *. clear h0.
  split; [|split; [|split]].
  - intros j Hj. rewrite !G3, !G2, !G1, !get_nibble_window. clear -Hj.
    split; [|split; [|split]]; by_register.
  - intros r j H1 H2 H3 H4. rewrite G3, !G2, !G1, !get_nibble_window.
    clear -H1 H2 H3 H4. by_register.
  - intros r j Hj. rewrite G3, !G2, !G1, !get_nibble_window.
    clear -Hj. by_register.
  - by rewrite Fl3, Fl2, Fl1.
Qed.

(** ** What an arithmetic instruction can touch *)

Lemma v_reg_copy_frame h d s r j :
  ¬ (r = d ∧ first h ≤ j ≤ last h) →
  get_nibble (v_reg_copy h d s) r j = get_nibble h r j.
Proof.
  intros Hn. unfold v_reg_copy.
  destruct (copy_loop d s (trip_count (first h) (last h)) (first h) h)
    as (Hg & _). cbv zeta in Hg.
  rewrite Hg, bool_decide_eq_false_2; [done|].
  unfold trip_count. intros (-> & ? & ?). apply Hn. split; [done|lia].
Qed.

Lemma v_reg_exch_frame h d s r j :
  d ≠ s → ¬ ((r = d ∨ r = s) ∧ first h ≤ j ≤ last h) →
  get_nibble (v_reg_exch h d s) r j = get_nibble h r j.
Proof.
  intros Hds Hn. unfold v_reg_exch.
  destruct (exch_loop d s (trip_count (first h) (last h)) Hds (first h) h)
    as (Hg & _). cbv zeta in Hg.
  rewrite Hg. unfold trip_count.
  rewrite !bool_decide_eq_false_2; [done| |];
    intros (-> & ? & ?); apply Hn; (split; [auto|lia]).
Qed.

Lemma v_reg_add_frame h d s a r j :
  ¬ (d = Some r ∧ first h ≤ j ≤ last h) →
  get_nibble (v_reg_add h d s a) r j = get_nibble h r j.
Proof.
  intros Hn. rewrite v_reg_add_unfold.
  destruct (add_loop_frame d s a (trip_count (first h) (last h)) (first h) h)
    as (Hg & _). cbv zeta in Hg.
  apply Hg. intros (E & Hj). apply Hn. split; [done|]. by apply window_range.
Qed.

Lemma v_reg_sub_frame h d s a r j :
  ¬ (d = Some r ∧ first h ≤ j ≤ last h) →
  get_nibble (v_reg_sub h d s a) r j = get_nibble h r j.
Proof.
  intros Hn. rewrite v_reg_sub_unfold.
  destruct (sub_loop_frame d s a (trip_count (first h) (last h)) (first h) h)
    as (Hg & _). cbv zeta in Hg.
  apply Hg. intros (E & Hj). apply Hn. split; [done|]. by apply window_range.
Qed.

Lemma v_reg_inc_frame h d r j :
  ¬ (r = d ∧ first h ≤ j ≤ last h) →
  get_nibble (v_reg_inc h d) r j = get_nibble h r j.
Proof.
  intros Hn. unfold v_reg_inc. cbv zeta.
  rewrite v_reg_add_frame; [apply get_nibble_set_CARRY|].
  intros (E & Hj). apply Hn. by injection E as ->.
Qed.

Lemma v_reg_shr_frame h d r j :
  ¬ (r = d ∧ first h ≤ j ≤ last h) →
  get_nibble (v_reg_shr h d) r j = get_nibble h r j.
Proof.
  intros Hn. unfold v_reg_shr. cbv zeta.
  change (first (set_CARRY h 0)) with (first h).
  change (last (set_CARRY h 0)) with (last h).
  destruct (shr_loop d (last h) (trip_count (first h) (last h)) (first h)
              (set_CARRY h 0) eq_refl) as (Hg & _).
  cbv zeta in Hg. rewrite Hg, bool_decide_eq_false_2.
  - by rewrite get_nibble_set_CARRY.
  - intros (-> & Hj & _). apply Hn. split; [done|]. by apply window_range in Hj.
Qed.

Lemma v_reg_shl_frame h d r j :
  ¬ (r = d ∧ first h ≤ j ≤ last h) →
  get_nibble (v_reg_shl h d) r j = get_nibble h r j.
Proof.
  intros Hn. unfold v_reg_shl. cbv zeta.
  destruct (shl_loop d (first h) (trip_count (first h) (last h)) (last h)
              h eq_refl) as (Hg & _).
  cbv zeta in Hg.
  set (g := for_down _ (last h) _ h) in *.
  assert (get_nibble (set_PREV_CARRY (set_CARRY g 0) 0) r j
          = get_nibble g r j) as -> by (by destruct r).
  rewrite Hg, bool_decide_eq_false_2; [done|].
  intros (-> & Hj & _). apply Hn. split; [done|]. unfold trip_count in Hj. lia.
Qed.

Lemma v_reg_test_eq_frame h d s r j :
  get_nibble (v_reg_test_eq h d s) r j = get_nibble h r j.
Proof.
  destruct (v_reg_test_eq_cases h d s) as [[_ ->]|[_ ->]];
    apply get_nibble_set_CARRY.
Qed.

Lemma v_reg_test_ne_frame h d s r j :
  get_nibble (v_reg_test_ne h d s) r j = get_nibble h r j.
Proof.
  destruct (v_reg_test_ne_cases h d s) as [[_ ->]|[_ ->]];
    apply get_nibble_set_CARRY.
Qed.

Lemma v_op_inc_pc_regs h r j :
  get_nibble (v_op_inc_pc h) r j = get_nibble h r j.
Proof. apply get_nibble_ext; unfold v_op_inc_pc; by case_bool_decide. Qed.

Lemma v_op_goto_regs h r j :
  get_nibble (v_op_goto h) r j = get_nibble h r j.
Proof.
  apply get_nibble_ext; unfold v_op_goto, delayed_rom_switch;
    repeat case_bool_decide; done.
Qed.

Lemma same_setup_refl h : same_setup h h.
Proof. by repeat split. Qed.

Lemma same_setup_trans h1 h2 h3 :
  same_setup h1 h2 → same_setup h2 h3 → same_setup h1 h3.
Proof.
  unfold same_setup. intros (?&?&?&?&?&?&?) (?&?&?&?&?&?&?).
  repeat apply conj; congruence.
Qed.

Lemma same_setup_control h h' : same_control h h' → same_setup h h'.
Proof.
  intros (?&?&?&?&?&?&?&?&?&?&?). unfold same_setup.
  repeat apply conj; assumption.
Qed.

Lemma same_setup_v_op_inc_pc h : same_setup h (v_op_inc_pc h).
Proof. unfold v_op_inc_pc. case_bool_decide; by repeat split. Qed.

Lemma same_setup_v_op_goto h : same_setup h (v_op_goto h).
Proof.
  unfold v_op_goto, delayed_rom_switch.
  repeat case_bool_decide; by repeat split.
Qed.

Lemma same_setup_branch h h' :
  same_control h h' → same_setup h (v_op_goto (v_op_inc_pc h')).
Proof.
  intros Hc. eapply same_setup_trans; [by apply same_setup_control|].
  eapply same_setup_trans; [apply same_setup_v_op_inc_pc|].
  apply same_setup_v_op_goto.
Qed.

Lemma same_setup_decode_field h i_field : same_setup h (decode_field h i_field).
Proof.
  destruct (decode_field_frame h i_field)
    as (_ & _ & ? & _ & _ & ? & ? & ? & ? & ? & ?).
  by repeat split.
Qed.

Lemma arithmetic_op_setup h i_opcode :
  same_setup h (arithmetic_op h i_opcode).
Proof.
  unfold arithmetic_op. cbv zeta.
  repeat case_match;
    first [ apply same_setup_branch;
            first [ apply v_reg_test_eq_control | apply v_reg_test_ne_control
                  | apply v_reg_sub_control ]
          | apply same_setup_control;
            first [ apply v_reg_copy_control | apply v_reg_exch_control
                  | apply v_reg_add_control | apply v_reg_inc_control
                  | apply v_reg_shr_control | apply v_reg_shl_control
                  | eapply same_control_trans;
                      [apply (same_control_set_flags h) | apply v_reg_sub_control]
                  | apply v_reg_sub_control ]
          | by repeat split ].
Qed.

Lemma arithmetic_op_pc h i_opcode :
  ¬ is_test i_opcode → pc (arithmetic_op h i_opcode) = pc h.
Proof.
  unfold is_test. intros Hn. unfold arithmetic_op. cbv zeta.
  repeat case_match; try lia;
    first [ apply v_reg_copy_control | apply v_reg_exch_control
          | apply v_reg_add_control | apply v_reg_inc_control
          | apply v_reg_shr_control | apply v_reg_shl_control
          | apply (same_control_trans h (set_CARRY h 1));
              [apply (same_control_set_flags h) | apply v_reg_sub_control]
          | apply v_reg_sub_control
          | reflexivity ].
Qed.

Lemma arithmetic_op_frame h i_opcode r j :
  ¬ ((r = REG A_REG ∨ r = REG B_REG ∨ r = REG C_REG) ∧
     first h ≤ j ≤ last h) →
  get_nibble (arithmetic_op h i_opcode) r j = get_nibble h r j.
Proof.
  intros Hn. unfold arithmetic_op. cbv zeta.
  assert (∀ d, d = REG A_REG ∨ d = REG B_REG ∨ d = REG C_REG →
               ¬ (r = d ∧ first h ≤ j ≤ last h)) as H1
    by (intros d Hd (-> & Hj); apply Hn; done).
  assert (∀ d, d = REG A_REG ∨ d = REG B_REG ∨ d = REG C_REG →
               ¬ (Some d = Some r ∧ first h ≤ j ≤ last h)) as H2
    by (intros d Hd (E & Hj); injection E as ->; apply Hn; done).
  assert (∀ d s, d = REG A_REG ∨ d = REG B_REG ∨ d = REG C_REG →
                 s = REG A_REG ∨ s = REG B_REG ∨ s = REG C_REG →
               ¬ ((r = d ∨ r = s) ∧ first h ≤ j ≤ last h)) as H3
    by (intros d s Hd Hs ([-> | ->] & Hj); apply Hn; done).
  assert (∀ d : regptr, ¬ ((None : option regptr) = Some d ∧ first h ≤ j ≤ last h))
    as H4 by (intros d (E & _); discriminate E).
  repeat case_match; try reflexivity;
    rewrite ?v_op_goto_regs, ?v_op_inc_pc_regs;
    first [ apply v_reg_test_eq_frame | apply v_reg_test_ne_frame
          | apply v_reg_copy_frame; apply H1; auto
          | apply v_reg_exch_frame;
              [intros E; discriminate E | apply H3; auto]
          | apply v_reg_inc_frame; apply H1; auto
          | apply v_reg_shr_frame; apply H1; auto
          | apply v_reg_shl_frame; apply H1; auto
          | apply v_reg_add_frame; apply H2; auto
          | rewrite v_reg_sub_frame;
              [apply get_nibble_set_CARRY
              | change (first (set_CARRY h 1)) with (first h);
                change (last (set_CARRY h 1)) with (last h); apply H2; auto]
          | apply v_reg_sub_frame; first [apply H4 | apply H2; auto] ].
Qed.

(** X23: Every arithmetic instruction (low bits 10), whatever its operation
    and field codes, leaves alone every nibble outside the decoded field
    of A, B and C, so in particular the stack registers, M, N and the data
    registers, as well as the ROM, the return stack and its pointer, the
    status bits, p, f and the radix; it ends with CARRY = 0; and unless it
    is one of the six test instructions the program counter advances by
    one. *)
Theorem arithmetic_frame (h : oprocessor) :
  let i_opcode := rom h (pc h) in
  let hf := decode_field h (Z.land (Z.shiftr i_opcode 2) 7) in
  let h' := v_processor_tick h in
  Z.land i_opcode 3 = 2 →
  (∀ r j, ¬ ((r = REG A_REG ∨ r = REG B_REG ∨ r = REG C_REG) ∧
             first hf ≤ j ≤ last hf) →
          get_nibble h' r j = get_nibble h r j) ∧
  same_setup h h' ∧
  CARRY (flags h') = 0 ∧
  (¬ is_test i_opcode → pc h' = advance (pc h)).
Proof.
  intros i_opcode hf h' Hclass. subst h'. unfold v_processor_tick. cbv zeta.
  fold i_opcode. rewrite execute_arithmetic by done. fold hf.
  destruct (decode_field_frame h (Z.land (Z.shiftr i_opcode 2) 7))
    as (Ereg & Eram & _ & Epc & _).
  cbv zeta in Ereg, Eram, Epc. fold hf in Ereg, Eram, Epc.
  split; [|split; [|split]].
  - intros r j Hn. rewrite v_op_inc_pc_regs, arithmetic_op_frame by done.
    by apply get_nibble_ext.
  - eapply same_setup_trans; [apply (same_setup_decode_field h)|]. fold hf.
    eapply same_setup_trans; [apply arithmetic_op_setup|].
    apply same_setup_v_op_inc_pc.
  - by rewrite v_op_inc_pc_flags.
  - intros Hn. by rewrite v_op_inc_pc_advance, arithmetic_op_pc, Epc.
Qed.

(** ** Adding and subtracting instructions *)

Lemma v_op_inc_pc_window h :
  first (v_op_inc_pc h) = first h ∧ last (v_op_inc_pc h) = last h ∧
  base (v_op_inc_pc h) = base h.
Proof. unfold v_op_inc_pc. by case_bool_decide. Qed.

Lemma reg_value_v_op_inc_pc h r : reg_value (v_op_inc_pc h) r = reg_value h r.
Proof.
  unfold reg_value. destruct (v_op_inc_pc_window h) as (-> & -> & ->).
  apply field_value_ext. intros j _. apply v_op_inc_pc_regs.
Qed.

Lemma field_digits_ok_set_CARRY h c r :
  field_digits_ok h r → field_digits_ok (set_CARRY h c) r.
Proof.
  intros H i Hi. rewrite nibble_or_zero_set_CARRY. by apply H.
Qed.

Lemma opt_value_set_CARRY h c r : opt_value (set_CARRY h c) r = opt_value h r.
Proof.
  unfold opt_value. apply field_value_ext. intros j _.
  apply nibble_or_zero_set_CARRY.
Qed.

Lemma field_digits_ok_None h : 0 < base h → field_digits_ok h None.
Proof. intros Hb i _. cbn [nibble_or_zero]. lia. Qed.

(** X24: The adding instructions [a + b -> a[f]], [a + c -> a[f]],
    [c + c -> c[f]], [a + c -> c[f]], [a + 1 -> a[f]] and [c + 1 -> c[f]]:
    run on digits inside the radix, the tick leaves in the selected field
    of the destination the sum of the operand fields (plus one for the
    two increments) modulo base^width, in PREV_CARRY the carry out of the
    field, with CARRY cleared, and the program counter one further. *)
Theorem add_instruction (h : oprocessor) (d s : regptr) (a : option regptr)
  (k : Z) :
  let i_opcode := rom h (pc h) in
  let hf := decode_field h (Z.land (Z.shiftr i_opcode 2) 7) in
  let h' := v_processor_tick h in
  let sum := reg_value hf s + opt_value hf a + k in
  Z.land i_opcode 3 = 2 →
  add_operands (Z.shiftr i_opcode 5) = Some (d, s, a, k) →
  CARRY (flags h) = 0 → 0 < base h →
  0 ≤ first hf → last hf < reg_len h d →
  field_digits_ok hf (Some s) → field_digits_ok hf a →
  reg_value h' d = sum `mod` base h ^ field_width hf ∧
  PREV_CARRY (flags h')
  = (if bool_decide (base h ^ field_width hf ≤ sum) then 1 else 0) ∧
  CARRY (flags h') = 0 ∧
  pc h' = advance (pc h).
Proof.
  intros i_opcode hf h' sum Hclass Hop Hc Hb Hlo Hhi Hs Ha.
  destruct (decode_field_frame h (Z.land (Z.shiftr i_opcode 2) 7))
    as (Ereg & Eram & _ & Epc & Efl & Ebase & _).
  cbv zeta in Ereg, Eram, Epc, Efl, Ebase.
  fold hf in Ereg, Eram, Epc, Efl, Ebase.
  assert (k = 0 ∨ k = 1) as Hk.
  { unfold add_operands in Hop.
    repeat case_match; try discriminate Hop; injection Hop as _ _ _ <-;
      auto. }
  assert (arithmetic_op hf i_opcode
          = v_reg_add (set_CARRY hf k) (Some d) s a) as Hex.
  { unfold arithmetic_op, add_operands in *. cbv zeta.
    repeat case_match; try discriminate Hop;
      injection Hop as <- <- <- <-;
      rewrite ?(set_CARRY_same hf 0) by (by rewrite Efl); reflexivity. }
  assert (reg_len (set_CARRY hf k) d = reg_len h d) as Hlen
    by (apply reg_len_frame; [exact Ereg | exact Eram]).
  destruct (add_field_sum (set_CARRY hf k) d s a) as (Hsum & Hrg & Hbit & _).
  { exact Hlo. }
  { by rewrite Hlen. }
  { change (base (set_CARRY hf k)) with (base hf). by rewrite Ebase. }
  { cbn [flags set_CARRY set_flags CARRY]. exact Hk. }
  { by apply field_digits_ok_set_CARRY. }
  { by apply field_digits_ok_set_CARRY. }
  cbv zeta in Hsum, Hrg, Hbit.
  change (base (set_CARRY hf k)) with (base hf) in *.
  change (field_width (set_CARRY hf k)) with (field_width hf) in *.
  change (CARRY (flags (set_CARRY hf k))) with k in *.
  rewrite opt_value_set_CARRY in Hsum.
  assert (reg_value (set_CARRY hf k) s = reg_value hf s) as Es
    by (apply (opt_value_set_CARRY hf k (Some s))).
  rewrite Es, Ebase in *. fold sum in Hsum.
  destruct (carry_split _ _ _ _ Hsum Hrg Hbit) as (Hm & _ & Hif).
  subst h'. unfold v_processor_tick. cbv zeta. fold i_opcode.
  rewrite execute_arithmetic by done. fold hf. rewrite Hex.
  split; [|split; [|split]].
  - rewrite reg_value_v_op_inc_pc. exact Hm.
  - rewrite v_op_inc_pc_flags. cbn [PREV_CARRY]. exact Hif.
  - by rewrite v_op_inc_pc_flags.
  - rewrite v_op_inc_pc_advance.
    destruct (v_reg_add_control (set_CARRY hf k) (Some d) s a)
      as (_ & _ & _ & -> & _). cbn [pc set_CARRY set_flags]. by rewrite Epc.
Qed.

(** X25: The subtracting instructions [a - b -> a[f]], [a - c -> c[f]],
    [a - c -> a[f]], [0 - c -> c[f]], [a - 1 -> a[f]], [c - 1 -> c[f]] and
    [0 - c - 1 -> c[f]]: run on digits inside the radix, the tick leaves
    in the selected field of the destination the difference of the
    operand fields (less one for the last three) modulo base^width, in
    PREV_CARRY the borrow, 1 exactly when the difference is negative,
    with CARRY cleared, and the program counter one further. *)
Theorem sub_instruction (h : oprocessor) (d : regptr) (s a : option regptr)
  (k : Z) :
  let i_opcode := rom h (pc h) in
  let hf := decode_field h (Z.land (Z.shiftr i_opcode 2) 7) in
  let h' := v_processor_tick h in
  let diff := opt_value hf s - opt_value hf a - k in
  Z.land i_opcode 3 = 2 →
  sub_operands (Z.shiftr i_opcode 5) = Some (d, s, a, k) →
  CARRY (flags h) = 0 → 0 < base h →
  0 ≤ first hf → last hf < reg_len h d →
  field_digits_ok hf s → field_digits_ok hf a →
  reg_value h' d = diff `mod` base h ^ field_width hf ∧
  PREV_CARRY (flags h') = (if bool_decide (diff < 0) then 1 else 0) ∧
  CARRY (flags h') = 0 ∧
  pc h' = advance (pc h).
Proof.
  intros i_opcode hf h' diff Hclass Hop Hc Hb Hlo Hhi Hs Ha.
  destruct (decode_field_frame h (Z.land (Z.shiftr i_opcode 2) 7))
    as (Ereg & Eram & _ & Epc & Efl & Ebase & _).
  cbv zeta in Ereg, Eram, Epc, Efl, Ebase.
  fold hf in Ereg, Eram, Epc, Efl, Ebase.
  assert (k = 0 ∨ k = 1) as Hk.
  { unfold sub_operands in Hop.
    repeat case_match; try discriminate Hop; injection Hop as _ _ _ <-;
      auto. }
  assert (arithmetic_op hf i_opcode
          = v_reg_sub (set_CARRY hf k) (Some d) s a) as Hex.
  { unfold arithmetic_op, sub_operands in *. cbv zeta.
    repeat case_match; try discriminate Hop;
      injection Hop as <- <- <- <-;
      rewrite ?(set_CARRY_same hf 0) by (by rewrite Efl); reflexivity. }
  assert (reg_len (set_CARRY hf k) d = reg_len h d) as Hlen
    by (apply reg_len_frame; [exact Ereg | exact Eram]).
  destruct (v_reg_sub_borrow (set_CARRY hf k) (Some d) s a)
    as (X & HX & Hval & Hbit & Hd).
  { change (base (set_CARRY hf k)) with (base hf). by rewrite Ebase. }
  { cbn [flags set_CARRY set_flags CARRY]. exact Hk. }
  { by apply field_digits_ok_set_CARRY. }
  { by apply field_digits_ok_set_CARRY. }
  destruct (Hd d eq_refl Hlo) as [HdX _]; [by rewrite Hlen|]. clear Hd.
  change (base (set_CARRY hf k)) with (base hf) in *.
  change (field_width (set_CARRY hf k)) with (field_width hf) in *.
  change (CARRY (flags (set_CARRY hf k))) with k in *.
  rewrite !opt_value_set_CARRY in Hval.
  rewrite Ebase in *. fold diff in Hval.
  set (g := v_reg_sub (set_CARRY hf k) (Some d) s a) in *.
  subst h'. unfold v_processor_tick. cbv zeta. fold i_opcode.
  rewrite execute_arithmetic by done. fold hf. rewrite Hex. fold g.
  assert (0 < base h ^ field_width hf) as HP
    by (apply Z.pow_pos_nonneg; [done | unfold field_width; lia]).
  split; [|split; [|split]].
  - rewrite reg_value_v_op_inc_pc, HdX.
    apply (Zmod_unique _ _ (- CARRY (flags g))); lia.
  - rewrite v_op_inc_pc_flags. cbn [PREV_CARRY]. case_bool_decide; nia.
  - by rewrite v_op_inc_pc_flags.
  - rewrite v_op_inc_pc_advance.
    destruct (v_reg_sub_control (set_CARRY hf k) (Some d) s a)
      as (_ & _ & _ & Hpc & _). fold g in Hpc. rewrite Hpc.
    cbn [pc set_CARRY set_flags]. by rewrite Epc.
Qed.

(** ** Branches inside a page *)

(** The target [(pc & 0xff00) | x] of a page-local branch. *)
Lemma page_target a x :
  0 ≤ a < 65536 → 0 ≤ x < 256 →
  Z.lor (Z.land a 65280) x = 256 * (a `div` 256) + x.
Proof.
  intros Ha Hx.
  assert (Z.land a 65280 = Z.shiftl (Z.shiftr a 8) 8) as E.
  { apply Z.bits_inj'. intros n Hn.
    rewrite Z.land_spec.
    destruct (decide (n < 8)) as [H8|H8].
    - rewrite Z.shiftl_spec_low by lia.
      replace (Z.testbit 65280 n) with false; [apply andb_false_r|].
      assert (n = 0 ∨ n = 1 ∨ n = 2 ∨ n = 3 ∨ n = 4 ∨ n = 5 ∨ n = 6 ∨ n = 7)
        as Hc by lia.
      by destruct Hc as [->|[->|[->|[->|[->|[->|[->| ->]]]]]]].
    - rewrite Z.shiftl_spec by lia. rewrite Z.shiftr_spec by lia.
      replace (n - 8 + 8) with n by lia.
      destruct (decide (n < 16)) as [H16|H16].
      + replace (Z.testbit 65280 n) with true; [apply andb_true_r|].
        assert (n = 8 ∨ n = 9 ∨ n = 10 ∨ n = 11 ∨ n = 12 ∨ n = 13 ∨
                n = 14 ∨ n = 15) as Hc by lia.
        by destruct Hc as [->|[->|[->|[->|[->|[->|[->| ->]]]]]]].
      + assert (Z.testbit a n = false) as ->; [|done].
        destruct (decide (a = 0)) as [->|Hz]; [apply Z.bits_0|].
        apply Z.bits_above_log2; [lia|].
        assert (Z.log2 a < 16); [|lia].
        apply Z.log2_lt_pow2; lia. }
  assert (Z.land (Z.shiftl (Z.shiftr a 8) 8) x = 0) as Hdisj.
  { apply Z.bits_inj'. intros n Hn. rewrite Z.land_spec, Z.bits_0.
    destruct (decide (n < 8)) as [H8|H8].
    - by rewrite Z.shiftl_spec_low by lia.
    - assert (Z.testbit x n = false) as ->; [|apply andb_false_r].
      destruct (decide (x = 0)) as [->|Hz]; [apply Z.bits_0|].
      apply Z.bits_above_log2; [lia|].
      assert (Z.log2 x < 8); [|lia].
      apply Z.log2_lt_pow2; lia. }
  rewrite E, <- Z.lxor_lor, <- Z.add_nocarry_lxor by done.
  rewrite Z.shiftl_mul_pow2, Z.shiftr_div_pow2 by lia.
  change (2 ^ 8) with 256. lia.
Qed.

Lemma word_operand w : 0 ≤ w < 1024 → 0 ≤ Z.shiftr w 2 < 256.
Proof.
  intros Hw. rewrite Z.shiftr_div_pow2 by lia. change (2 ^ 2) with 4.
  split; [apply Z.div_pos; lia | apply Z.div_lt_upper_bound; lia].
Qed.

Lemma page_target_in_rom a x :
  0 ≤ a < ROM_SIZE → 0 ≤ x < 256 → 0 ≤ 256 * (a `div` 256) + x < ROM_SIZE.
Proof.
  unfold ROM_SIZE. intros Ha Hx.
  assert (0 ≤ a `div` 256 ≤ 13); [|lia].
  split; [apply Z.div_pos; lia|].
  assert (a `div` 256 < 14); [|lia]. apply Z.div_lt_upper_bound; lia.
Qed.

Lemma execute_long_branch h i_opcode :
  Z.land i_opcode 3 = 3 → execute h i_opcode = long_branch h i_opcode.
Proof. intros H. unfold execute. by rewrite H. Qed.

(** X26: [jsb] and [if nc goto] branch inside the current page of 256 words:
    with no bank pending and a 10-bit instruction word, the next
    instruction after a call, or after a branch taken because PREV_CARRY
    is 0, is the word of the page of the instruction whose index is the
    operand (bits 2 to 9); a branch with PREV_CARRY set is not taken and
    the program counter advances by one.  The call stores the address of
    the call itself at the old stack pointer. *)
Theorem page_branch (h : oprocessor) :
  let i_opcode := rom h (pc h) in
  let target := 256 * (pc h `div` 256) + i_opcode `div` 4 in
  let h' := v_processor_tick h in
  0 ≤ i_opcode < 1024 → 0 ≤ pc h < ROM_SIZE → DELAYED_ROM (flags h) = 0 →
  (Z.land i_opcode 3 = 1 →
   pc h' = target ∧ 0 ≤ target < ROM_SIZE ∧
   stack h' = arr_set (stack h) (sp h) (pc h) ∧
   sp h' = Z.land (sp h + 1) (STACK_SIZE h - 1)) ∧
  (Z.land i_opcode 3 = 3 →
   pc h' = (if bool_decide (PREV_CARRY (flags h) = 0) then target
            else advance (pc h)) ∧
   stack h' = stack h ∧ sp h' = sp h).
Proof.
  intros i_opcode target h' Hw Hpc Hd. subst h'.
  pose proof (word_operand i_opcode Hw) as Hx.
  assert (Z.shiftr i_opcode 2 = i_opcode `div` 4) as Ex
    by (by rewrite Z.shiftr_div_pow2 by lia).
  assert (Z.lor (Z.land (pc h) 65280) (Z.shiftr i_opcode 2) = target) as Et.
  { rewrite page_target; [by rewrite Ex | unfold ROM_SIZE in Hpc; lia | done]. }
  assert (0 ≤ target < ROM_SIZE) as Hin
    by (unfold target; rewrite <- Ex; by apply page_target_in_rom).
  unfold v_processor_tick. cbv zeta. fold i_opcode.
  split; intros Hclass.
  - rewrite execute_jsb by done.
    destruct (v_op_inc_pc_stack (op_jsb h (Z.shiftr i_opcode 2))) as [-> ->].
    destruct (op_jsb_stack h (Z.shiftr i_opcode 2)) as [-> ->].
    split; [|done].
    rewrite v_op_inc_pc_advance. unfold op_jsb. cbv zeta.
    unfold delayed_rom_switch. rewrite bool_decide_eq_false_2 by (cbn; lia).
    cbn [pc set_pc set_sp set_stack]. rewrite Et. by apply advance_pred.
  - rewrite execute_long_branch by done. unfold long_branch. rewrite Hclass.
    destruct (decide (PREV_CARRY (flags h) = 0)) as [Hc|Hc];
      [rewrite !(bool_decide_eq_true_2 _ Hc)
      |rewrite !(bool_decide_eq_false_2 _ Hc)];
      unfold delayed_rom_switch.
    + rewrite bool_decide_eq_false_2 by (cbn; lia).
      rewrite v_op_inc_pc_advance.
      destruct (v_op_inc_pc_stack
                  (set_pc h (Z.lor (Z.land (pc h) 65280)
                               (Z.shiftr i_opcode 2) - 1))) as [-> ->].
      cbn [pc set_pc stack sp]. rewrite Et. split; [by apply advance_pred|done].
    + rewrite bool_decide_eq_false_2 by lia.
      rewrite v_op_inc_pc_advance.
      by destruct (v_op_inc_pc_stack h) as [-> ->].
Qed.

(** ** States inside the arrays *)

Lemma full_file_set_nibble l k i v :
  full_file l →
  full_file (reg_file_set l k
               (mk_register (id (reg_file_get l k))
                  (arr_set (nibble (reg_file_get l k)) i v))).
Proof.
  intros H. unfold reg_file_set, reg_file_get.
  case_bool_decide; [|done].
  destruct (l !! Z.to_nat k) as [o|] eqn:E; cbn [default].
  - apply Forall_insert; [done|]. cbn [nibble]. rewrite arr_set_length.
    exact (Forall_lookup_1 _ _ _ _ H E).
  - rewrite list_insert_ge; [done|]. by apply lookup_ge_None.
Qed.

Lemma reg_file_set_length l k o : length (reg_file_set l k o) = length l.
Proof. unfold reg_file_set. case_bool_decide; by rewrite ?length_insert. Qed.

Lemma shape_set_nibble h0 h r i v :
  shape_of h0 h → shape_of h0 (set_nibble h r i v).
Proof.
  intros ((Hn & Hreg & Hram & Hst) & Hrom).
  destruct r as [k|k]; (split; [split; [|split; [|split]]|]);
    cbn [set_nibble deref reg ram status rom set_reg set_ram];
    rewrite ?reg_file_set_length; try assumption;
    by apply full_file_set_nibble.
Qed.

Lemma shape_set_flags h0 h fl : shape_of h0 h → shape_of h0 (set_flags h fl).
Proof. intros H. exact H. Qed.
Lemma shape_set_CARRY h0 h c : shape_of h0 h → shape_of h0 (set_CARRY h c).
Proof. intros H. exact H. Qed.
Lemma shape_set_PREV_CARRY h0 h c :
  shape_of h0 h → shape_of h0 (set_PREV_CARRY h c).
Proof. intros H. exact H. Qed.
Lemma shape_set_DELAYED_ROM h0 h c :
  shape_of h0 h → shape_of h0 (set_DELAYED_ROM h c).
Proof. intros H. exact H. Qed.
Lemma shape_set_DISPLAY_ENABLE h0 h c :
  shape_of h0 h → shape_of h0 (set_DISPLAY_ENABLE h c).
Proof. intros H. exact H. Qed.
Lemma shape_set_pc h0 h v : shape_of h0 h → shape_of h0 (set_pc h v).
Proof. intros H. exact H. Qed.
Lemma shape_set_sp h0 h v : shape_of h0 h → shape_of h0 (set_sp h v).
Proof. intros H. exact H. Qed.
Lemma shape_set_p h0 h v : shape_of h0 h → shape_of h0 (set_p h v).
Proof. intros H. exact H. Qed.
Lemma shape_set_f h0 h v : shape_of h0 h → shape_of h0 (set_f h v).
Proof. intros H. exact H. Qed.
Lemma shape_set_first h0 h v : shape_of h0 h → shape_of h0 (set_first h v).
Proof. intros H. exact H. Qed.
Lemma shape_set_last h0 h v : shape_of h0 h → shape_of h0 (set_last h v).
Proof. intros H. exact H. Qed.
Lemma shape_set_base h0 h v : shape_of h0 h → shape_of h0 (set_base h v).
Proof. intros H. exact H. Qed.
Lemma shape_set_stack h0 h v : shape_of h0 h → shape_of h0 (set_stack h v).
Proof. intros H. exact H. Qed.
Lemma shape_set_address h0 h v : shape_of h0 h → shape_of h0 (set_address h v).
Proof. intros H. exact H. Qed.
Lemma shape_set_delayed_rom_number h0 h v :
  shape_of h0 h → shape_of h0 (set_delayed_rom_number h v).
Proof. intros H. exact H. Qed.
Lemma shape_v_error h0 h m : shape_of h0 h → shape_of h0 (v_error h m).
Proof. intros H. exact H. Qed.

Lemma shape_set_status h0 h i v :
  shape_of h0 h → shape_of h0 (set_status h (arr_set (status h) i v)).
Proof.
  intros ((Hn & Hreg & Hram & Hst) & Hrom).
  split; [|exact Hrom]. split; [exact Hn|]. split; [exact Hreg|].
  split; [exact Hram|]. cbn [status set_status]. by rewrite arr_set_length.
Qed.

Lemma shape_v_reg_copy h0 h d s : shape_of h0 h → shape_of h0 (v_reg_copy h d s).
Proof.
  intros H. unfold v_reg_copy. apply for_up_inv; [|done].
  clear. intros i h H. cbv zeta. by apply shape_set_nibble.
Qed.

Lemma shape_v_reg_exch h0 h d s : shape_of h0 h → shape_of h0 (v_reg_exch h d s).
Proof.
  intros H. unfold v_reg_exch. apply for_up_inv; [|done].
  clear. intros i h H. cbv zeta. by apply shape_set_nibble, shape_set_nibble.
Qed.

Lemma shape_digit_step h0 h d c i v :
  shape_of h0 h → shape_of h0 (digit_step h d c i v).
Proof.
  intros H. unfold digit_step.
  destruct d; [apply shape_set_nibble|]; by apply shape_set_CARRY.
Qed.

Lemma shape_v_reg_add h0 h d s a :
  shape_of h0 h → shape_of h0 (v_reg_add h d s a).
Proof.
  intros H. rewrite v_reg_add_unfold. apply for_up_inv; [|done].
  clear. intros i h H. pose proof (add_body_eq d s a i h) as E.
  cbv zeta in E. rewrite E. by apply shape_digit_step.
Qed.

Lemma shape_v_reg_sub h0 h d s a :
  shape_of h0 h → shape_of h0 (v_reg_sub h d s a).
Proof.
  intros H. rewrite v_reg_sub_unfold. apply for_up_inv; [|done].
  clear. intros i h H. pose proof (sub_body_eq d s a i h) as E.
  cbv zeta in E. rewrite E. by apply shape_digit_step.
Qed.

Lemma shape_v_reg_inc h0 h r : shape_of h0 h → shape_of h0 (v_reg_inc h r).
Proof. intros H. by apply shape_v_reg_add, shape_set_CARRY. Qed.

Lemma shape_v_reg_test_eq h0 h d s :
  shape_of h0 h → shape_of h0 (v_reg_test_eq h d s).
Proof.
  intros H. destruct (v_reg_test_eq_cases h d s) as [[_ ->]|[_ ->]];
    by apply shape_set_CARRY.
Qed.

Lemma shape_v_reg_test_ne h0 h d s :
  shape_of h0 h → shape_of h0 (v_reg_test_ne h d s).
Proof.
  intros H. destruct (v_reg_test_ne_cases h d s) as [[_ ->]|[_ ->]];
    by apply shape_set_CARRY.
Qed.

Lemma shape_v_reg_shr h0 h r : shape_of h0 h → shape_of h0 (v_reg_shr h r).
Proof.
  intros H. unfold v_reg_shr. apply for_up_inv; [|by apply shape_set_CARRY].
  clear. intros i h H. case_bool_decide; by apply shape_set_nibble.
Qed.

Lemma shape_v_reg_shl h0 h r : shape_of h0 h → shape_of h0 (v_reg_shl h r).
Proof.
  intros H. unfold v_reg_shl. cbv zeta.
  apply shape_set_PREV_CARRY, shape_set_CARRY.
  apply for_down_inv; [|done].
  clear. intros i h H. case_bool_decide; by apply shape_set_nibble.
Qed.

Create HintDb shp discriminated.

#[local] Hint Resolve shape_set_nibble shape_set_CARRY shape_set_PREV_CARRY
  shape_set_DELAYED_ROM shape_set_DISPLAY_ENABLE shape_set_pc shape_set_sp
  shape_set_p shape_set_f shape_set_first shape_set_last shape_set_base
  shape_set_stack shape_set_address shape_set_delayed_rom_number
  shape_v_error shape_set_status shape_v_reg_copy shape_v_reg_exch
  shape_v_reg_add shape_v_reg_sub shape_v_reg_inc shape_v_reg_test_eq
  shape_v_reg_test_ne shape_v_reg_shr shape_v_reg_shl : shp.

Lemma shape_delayed_rom_switch h0 h :
  shape_of h0 h → shape_of h0 (delayed_rom_switch h).
Proof. intros H. unfold delayed_rom_switch. case_bool_decide; auto with shp. Qed.

Lemma shape_v_op_inc_pc h0 h : shape_of h0 h → shape_of h0 (v_op_inc_pc h).
Proof. intros H. unfold v_op_inc_pc. case_bool_decide; auto 6 with shp. Qed.

Lemma shape_v_op_goto h0 h : shape_of h0 h → shape_of h0 (v_op_goto h).
Proof.
  intros H. unfold v_op_goto. case_bool_decide; [|done].
  by apply shape_delayed_rom_switch, shape_set_pc.
Qed.

Lemma shape_op_jsb h0 h i_count : shape_of h0 h → shape_of h0 (op_jsb h i_count).
Proof. intros H. unfold op_jsb. apply shape_delayed_rom_switch. auto with shp. Qed.

Lemma shape_clear_data_registers h0 h :
  shape_of h0 h → shape_of h0 (v_processor_clear_data_registers h).
Proof.
  intros H. unfold v_processor_clear_data_registers.
  apply for_up_inv; auto with shp.
Qed.

Lemma shape_clear_registers h0 h :
  shape_of h0 h → shape_of h0 (v_processor_clear_registers h).
Proof.
  intros H. unfold v_processor_clear_registers.
  apply for_up_inv; [auto with shp|].
  apply for_up_inv; auto with shp.
Qed.

Lemma shape_clear_s_body h0 i h : shape_of h0 h → shape_of h0 (clear_s_body i h).
Proof. intros H. unfold clear_s_body. repeat case_match; auto with shp. Qed.

#[local] Hint Resolve shape_delayed_rom_switch shape_v_op_inc_pc
  shape_v_op_goto shape_op_jsb shape_clear_data_registers
  shape_clear_registers shape_clear_s_body : shp.

Lemma shape_decode_field h0 h i_field :
  shape_of h0 h → shape_of h0 (decode_field h i_field).
Proof.
  intros H. unfold decode_field.
  repeat case_match; try case_bool_decide; auto 6 with shp.
Qed.

Lemma shape_arithmetic_op h0 h i_opcode :
  shape_of h0 h → shape_of h0 (arithmetic_op h i_opcode).
Proof.
  intros H. unfold arithmetic_op. cbv zeta.
  repeat case_match; auto 6 with shp.
Qed.

Lemma shape_long_branch h0 h i_opcode :
  shape_of h0 h → shape_of h0 (long_branch h i_opcode).
Proof.
  intros H. unfold long_branch.
  repeat case_match; try case_bool_decide; auto 6 with shp.
Qed.

Lemma shape_special_group0 h0 h i_opcode :
  shape_of h0 h → shape_of h0 (special_group0 h i_opcode).
Proof.
  intros H. unfold special_group0.
  repeat case_match; subst; repeat case_bool_decide; auto 6 with shp.
Qed.

Lemma shape_special_group1 h0 h i_opcode :
  shape_of h0 h → shape_of h0 (special_group1 h i_opcode).
Proof.
  intros H. unfold special_group1. unfold c_bool.
  repeat case_match; auto 8 with shp.
Qed.

Lemma shape_special_group2 h0 h i_opcode :
  shape_of h0 h → shape_of h0 (special_group2 h i_opcode).
Proof.
  intros H. unfold special_group2.
  destruct (Z.land (Z.shiftr i_opcode 4) 3) as [|s|s] eqn:Hs;
    [|repeat case_match; subst; repeat case_bool_decide ..];
    auto 6 with shp.
  repeat case_match; subst; repeat case_bool_decide; auto 8 with shp.
  apply for_up_inv; auto with shp.
Qed.

Lemma shape_special_group3 h0 h i_opcode :
  shape_of h0 h → shape_of h0 (special_group3 h i_opcode).
Proof.
  intros H. unfold special_group3. unfold c_bool.
  repeat case_match; repeat case_bool_decide; auto 8 with shp.
Qed.

Lemma shape_execute h0 h i_opcode :
  shape_of h0 h → shape_of h0 (execute h i_opcode).
Proof.
  intros H. unfold execute. cbv zeta.
  destruct (Z.land i_opcode 3) as [|c|c] eqn:Hclass.
  - destruct (Z.land (Z.shiftr i_opcode 2) 3) as [|g|g] eqn:Hg;
      [|repeat case_match; subst ..];
      auto using shape_special_group0, shape_special_group1,
        shape_special_group2, shape_special_group3.
  - repeat case_match;
      auto using shape_long_branch, shape_arithmetic_op,
        shape_decode_field, shape_v_error, shape_op_jsb.
  - by apply shape_v_error.
Qed.

(** A tick keeps a state inside the arrays. *)
Lemma v_processor_tick_in_bounds h :
  in_bounds h → in_bounds (v_processor_tick h).
Proof.
  intros (Hb & Hpc & Hs & Hr).
  destruct (v_processor_tick_bounds h Hb) as [Hb' Hpc'].
  assert (shape_of h (v_processor_tick h)) as [Hs' Hrom].
  { unfold v_processor_tick. cbv zeta.
    by apply shape_v_op_inc_pc, shape_execute. }
  split; [exact Hb'|]. split; [exact Hpc'|]. split; [exact Hs'|].
  intros a. rewrite Hrom. apply Hr.
Qed.

Lemma loads_in_range_S n h :
  loads_in_range (S n) h → loads_in_range n (v_processor_tick h).
Proof. intros H k Hk. apply (H (S k)). lia. Qed.

(** X13: The pointer bounds are an invariant of the simulator.  A state
    inside the arrays (pc inside the ROM, sp inside a return stack whose
    size is a power of two, p within 0..=REG_SIZE, registers and status
    bits of their size, ROM words of 10 bits) is again such a state after
    any number of ticks, whatever the instructions, in every run in
    which no [load n] is executed while p = REG_SIZE, the one store of
    the decoder that nothing guards. *)
Theorem run_bounds (n : nat) (h : oprocessor) :
  in_bounds h → loads_in_range n h → in_bounds (run n h).
Proof.
  revert h. induction n as [|n IH]; intros h H Hl; cbn [run]; [done|].
  apply IH; [by apply v_processor_tick_in_bounds|by apply loads_in_range_S].
Qed.

(** X19: A decimal program stays decimal.  Started inside the arrays
    with digits inside radix 10, a ROM that holds neither the word of
    [binary] nor a [load n] with n above 9 keeps, for any number of
    ticks of a run in which no [load n] is executed while p = REG_SIZE,
    every nibble of every register a decimal digit, the radix 10 and the
    ROM as it was. *)
Theorem run_decimal (n : nat) (h : oprocessor) :
  in_bounds h → loads_in_range n h →
  digits_ok h → base h = 10 →
  (∀ a, rom h a ≠ op_binary) →
  (∀ a, is_load (rom h a) → Z.shiftr (rom h a) 6 < 10) →
  digits_ok (run n h) ∧ base (run n h) = 10 ∧ rom (run n h) = rom h.
Proof.
  revert h. induction n as [|n IH]; intros h Hin Hl Hd Hb Hbin Hload;
    cbn [run]; [done|].
  assert (keeps h (v_processor_tick h)) as [Hrom Hbase].
  { unfold v_processor_tick. cbv zeta.
    apply keeps_v_op_inc_pc, keeps_execute; [done|apply Hbin|done]. }
  assert (digits_ok (v_processor_tick h)) as Hd'.
  { unfold v_processor_tick. cbv zeta.
    apply v_op_inc_pc_ok, execute_ok; [done|done|].
    intros Hi. rewrite Hb. split; [|by apply Hload].
    apply Z.shiftr_nonneg. apply Hin. }
  destruct (IH (v_processor_tick h)) as (H1 & H2 & H3).
  - by apply v_processor_tick_in_bounds.
  - by apply loads_in_range_S.
  - done.
  - by rewrite Hbase.
  - intros a. rewrite Hrom. apply Hbin.
  - intros a. rewrite Hrom. apply Hload.
  - split; [done|]. split; [done|]. by rewrite H3.
Qed.

(** ** Digits and the radix *)

Lemma execute_decimal h : execute h op_decimal = set_base h 10.
Proof. reflexivity. Qed.

Lemma execute_registers_in_base h i_opcode :
  digits_ok h →
  (i_opcode = op_decimal → decimal_digits h) →
  (is_load i_opcode → 0 ≤ Z.shiftr i_opcode 6 < base h) →
  registers_in_base (execute h i_opcode) ∧
  ((i_opcode = op_decimal → f h < 10) → digits_ok (execute h i_opcode)).
Proof.
  intros H Hdec Hload.
  destruct (decide (i_opcode = op_decimal)) as [E|E].
  - rewrite E, execute_decimal. destruct (Hdec E) as [Hreg Hram].
    destruct H as (_ & Hc & Hf & _).
    split; [by split|]. intros Hf10.
    split; [by left|]. split; [exact Hc|].
    split; [cbn [f base set_base]; specialize (Hf10 eq_refl); lia|]. by split.
  - assert (digits_ok (execute h i_opcode)) as Hok
      by (apply execute_ok; [done|by intros E'|done]).
    split; [apply Hok | by intros _].
Qed.

Lemma v_op_inc_pc_registers_in_base h :
  registers_in_base h → registers_in_base (v_op_inc_pc h).
Proof. unfold v_op_inc_pc. by case_bool_decide. Qed.

(** C4 (amended): from every state inside the arrays in which every
    nibble of every register (A, B, C, Y, Z, T, M, N and the data
    registers) lies within 0..base, with base 10 or 16, the F register
    within 0..base and CARRY 0 or 1 (as after reset), a tick leaves every
    nibble within 0..base of the new state, provided that a [decimal]
    finds only decimal digits in the registers, whatever the base it is
    run in, and that a [load n] has n < base and is run with
    p < REG_SIZE, inside the register; [binary] and all arithmetic are
    covered.  The other conditions are kept as well, for [decimal] when
    the F register holds a decimal digit. *)
Theorem C4_digits_in_base (h : oprocessor) :
  let i_opcode := rom h (pc h) in
  in_bounds h → digits_ok h →
  (i_opcode = op_decimal → decimal_digits h) →
  (is_load i_opcode → p h < REG_SIZE ∧ Z.shiftr i_opcode 6 < base h) →
  registers_in_base (v_processor_tick h) ∧
  ((i_opcode = op_decimal → f h < 10) → digits_ok (v_processor_tick h)).
Proof.
  intros i_opcode Hin H Hdec Hload.
  destruct (execute_registers_in_base h i_opcode H Hdec) as [Hr Hd].
  { intros Hi. split; [|by apply Hload].
    apply Z.shiftr_nonneg. apply Hin. }
  unfold v_processor_tick. cbv zeta. fold i_opcode. split.
  - by apply v_op_inc_pc_registers_in_base.
  - intros Hf. by apply v_op_inc_pc_ok, Hd.
Qed.

(** ** Instances on concrete machines *)

Lemma field_digits_okb_ok h r :
  field_digits_okb h r = true → field_digits_ok h r.
Proof.
  intros H i Hi. unfold field_digits_okb in H.
  rewrite forallb_forall in H.
  assert (In i (seqZ (first h) (last h - first h + 1))) as Hin
    by (apply list_elem_of_In, elem_of_seqZ; lia).
  apply H in Hin. by apply bool_decide_eq_true in Hin.
Qed.

Lemma fresh_bounds l : Forall (fun w => 0 ≤ w) l → machine_bounds (fresh l).
Proof.
  intros Hl.
  assert (pc (fresh l) = 0) as Hpc by (vm_compute; reflexivity).
  assert (sp (fresh l) = 0) as Hsp by (vm_compute; reflexivity).
  assert (p (fresh l) = 0) as Hp by (vm_compute; reflexivity).
  assert (stack (fresh l) = [0; 0]) as Hs by (vm_compute; reflexivity).
  assert (delayed_rom_number (fresh l) = 0) as Hd by (vm_compute; reflexivity).
  assert (keycode (fresh l) = 0) as Hk by (vm_compute; reflexivity).
  assert (rom (fresh l) = rom_of l) as Hr by (vm_compute; reflexivity).
  unfold machine_bounds, STACK_SIZE.
  rewrite Hpc, Hsp, Hp, Hs, Hd, Hk, Hr. unfold REG_SIZE.
  clear Hpc Hsp Hp Hs Hd Hk Hr.
  split; [lia|]. split; [exists 1; split; [lia | reflexivity]|].
  split; [cbn [length]; lia|]. split; [lia|].
  split; [repeat constructor; lia|]. split; [lia|]. split; [lia|].
  intros a. unfold rom_of. apply arr_get_Forall; [exact Hl | lia].
Qed.

(** Witness of [v_reg_exch_effect]: A and C of the machine holding 9999
    in C, at nibble 0. *)
Lemma v_reg_exch_effect_witness :
  get_nibble (v_reg_exch machine_9999 (REG A_REG) (REG C_REG)) (REG A_REG) 0
  = get_nibble machine_9999 (REG C_REG) 0.
Proof.
  assert (REG A_REG ≠ REG C_REG) as Hne by (intros E; discriminate E).
  assert (first machine_9999 = 0) as Hf by (vm_compute; reflexivity).
  assert (last machine_9999 = 13) as Hl by (vm_compute; reflexivity).
  assert (first machine_9999 ≤ 0 ≤ last machine_9999) as Hi
    by (rewrite Hf, Hl; lia).
  assert (reg_len machine_9999 (REG A_REG) = 14) as HA
    by (vm_compute; reflexivity).
  assert (reg_len machine_9999 (REG C_REG) = 14) as HC
    by (vm_compute; reflexivity).
  assert (valid_nibble machine_9999 (REG A_REG) 0) as HvA
    by (unfold valid_nibble; rewrite HA; lia).
  assert (valid_nibble machine_9999 (REG C_REG) 0) as HvC
    by (unfold valid_nibble; rewrite HC; lia).
  exact (proj1 (proj1 (v_reg_exch_effect machine_9999 (REG A_REG) (REG C_REG)
                  Hne) 0 Hi HvA HvC)).
Defined.

(** Witness of [v_reg_exch_twice]: A and C of the same machine, read at
    nibble 0 of C. *)
Lemma v_reg_exch_twice_witness :
  get_nibble (v_reg_exch (v_reg_exch machine_9999 (REG A_REG) (REG C_REG))
                (REG A_REG) (REG C_REG)) (REG C_REG) 0
  = get_nibble machine_9999 (REG C_REG) 0.
Proof.
  assert (REG A_REG ≠ REG C_REG) as Hne by (intros E; discriminate E).
  assert (reg_len machine_9999 (REG A_REG) = reg_len machine_9999 (REG C_REG))
    as Hlen by (vm_compute; reflexivity).
  exact (v_reg_exch_twice machine_9999 (REG A_REG) (REG C_REG) Hne Hlen
           (REG C_REG) 0).
Defined.

(** The window and the registers of the machine holding 9999 in C. *)
Lemma machine_9999_shape :
  0 ≤ first machine_9999 ∧
  last machine_9999 < reg_len machine_9999 (REG A_REG) ∧
  last machine_9999 < reg_len machine_9999 (REG C_REG) ∧
  0 < base machine_9999 ∧
  CARRY (flags machine_9999) = 0 ∧
  field_digits_ok machine_9999 (Some (REG A_REG)) ∧
  field_digits_ok machine_9999 (Some (REG C_REG)) ∧
  field_digits_ok machine_9999 None.
Proof.
  assert (first machine_9999 = 0) as Hf by (vm_compute; reflexivity).
  assert (last machine_9999 = 13) as Hl by (vm_compute; reflexivity).
  assert (reg_len machine_9999 (REG A_REG) = 14) as HA
    by (vm_compute; reflexivity).
  assert (reg_len machine_9999 (REG C_REG) = 14) as HC
    by (vm_compute; reflexivity).
  assert (base machine_9999 = 10) as Hb by (vm_compute; reflexivity).
  rewrite Hf, Hl, HA, HC, Hb.
  split; [lia|]. split; [lia|]. split; [lia|]. split; [lia|].
  split; [vm_compute; reflexivity|].
  split; [|split]; apply field_digits_okb_ok; vm_compute; reflexivity.
Qed.

(** Witness of [v_reg_add_value]: [a + c -> a[w]] on that machine. *)
Lemma v_reg_add_value_witness :
  reg_value (v_reg_add machine_9999 (Some (REG A_REG)) (REG A_REG)
               (Some (REG C_REG))) (REG A_REG)
  + base machine_9999 ^ field_width machine_9999
    * CARRY (flags (v_reg_add machine_9999 (Some (REG A_REG)) (REG A_REG)
                      (Some (REG C_REG))))
  = reg_value machine_9999 (REG A_REG)
    + opt_value machine_9999 (Some (REG C_REG))
    + CARRY (flags machine_9999).
Proof.
  destruct machine_9999_shape as (H1 & H2 & _).
  exact (proj1 (v_reg_add_value machine_9999 (REG A_REG) (REG A_REG)
                  (Some (REG C_REG)) H1 H2)).
Defined.

(** Witness of [v_reg_add_mod]: [a + c -> a[w]] on that machine. *)
Lemma v_reg_add_mod_witness :
  reg_value (v_reg_add machine_9999 (Some (REG A_REG)) (REG A_REG)
               (Some (REG C_REG))) (REG A_REG)
  = (reg_value machine_9999 (REG A_REG)
     + opt_value machine_9999 (Some (REG C_REG))
     + CARRY (flags machine_9999))
    `mod` base machine_9999 ^ field_width machine_9999.
Proof.
  destruct machine_9999_shape as (H1 & H2 & _ & H3 & H4 & H5 & H6 & _).
  exact (proj1 (v_reg_add_mod machine_9999 (REG A_REG) (REG A_REG)
                  (Some (REG C_REG)) H1 H2 H3 (or_introl H4) H5 H6)).
Defined.

(** Witness of [v_reg_inc_value]: [c + 1 -> c[w]] on that machine. *)
Lemma v_reg_inc_value_witness :
  reg_value (v_reg_inc machine_9999 (REG C_REG)) (REG C_REG)
  = (reg_value machine_9999 (REG C_REG) + 1)
    `mod` base machine_9999 ^ field_width machine_9999.
Proof.
  destruct machine_9999_shape as (H1 & _ & H2 & H3 & _ & _ & H6 & _).
  exact (proj1 (v_reg_inc_value machine_9999 (REG C_REG) H1 H2 H3 H6)).
Defined.

(** Witness of [v_reg_sub_mod]: [a - c -> a[w]] on that machine. *)
Lemma v_reg_sub_mod_witness :
  reg_value (v_reg_sub machine_9999 (Some (REG A_REG)) (Some (REG A_REG))
               (Some (REG C_REG))) (REG A_REG)
  = (opt_value machine_9999 (Some (REG A_REG))
     - opt_value machine_9999 (Some (REG C_REG))
     - CARRY (flags machine_9999))
    `mod` base machine_9999 ^ field_width machine_9999.
Proof.
  destruct machine_9999_shape as (H1 & H2 & _ & H3 & H4 & H5 & H6 & _).
  exact (proj1 (v_reg_sub_mod machine_9999 (REG A_REG) (Some (REG A_REG))
                  (Some (REG C_REG)) H1 H2 H3 (or_introl H4) H5 H6)).
Defined.

(** Witness of [v_reg_sub_compare]: comparing A with C on that machine. *)
Lemma v_reg_sub_compare_witness :
  CARRY (flags (v_reg_sub machine_9999 None (Some (REG A_REG))
                  (Some (REG C_REG)))) = 1
  ↔ opt_value machine_9999 (Some (REG A_REG))
    < opt_value machine_9999 (Some (REG C_REG)).
Proof.
  destruct machine_9999_shape as (_ & _ & _ & H3 & H4 & H5 & H6 & _).
  exact (proj1 (proj2 (v_reg_sub_compare machine_9999 (Some (REG A_REG))
                         (Some (REG C_REG)) H3 H4 H5 H6))).
Defined.

(** Witness of [v_reg_shr_value]: [shift right c[w]] on that machine. *)
Lemma v_reg_shr_value_witness :
  reg_value (v_reg_shr machine_9999 (REG C_REG)) (REG C_REG)
  = reg_value machine_9999 (REG C_REG) `div` base machine_9999.
Proof.
  destruct machine_9999_shape as (H1 & _ & H2 & H3 & _ & _ & H6 & _).
  exact (v_reg_shr_value machine_9999 (REG C_REG) H1 H2 H3 H6).
Defined.

(** Witness of [v_reg_shl_value]: [shift left] of C on that machine. *)
Lemma v_reg_shl_value_witness :
  reg_value (v_reg_shl machine_9999 (REG C_REG)) (REG C_REG)
  = (reg_value machine_9999 (REG C_REG) * base machine_9999)
    `mod` base machine_9999 ^ field_width machine_9999.
Proof.
  destruct machine_9999_shape as (H1 & _ & H2 & H3 & _ & _ & H6 & _).
  exact (v_reg_shl_value machine_9999 (REG C_REG) H1 H2 H3 H6).
Defined.

(** Witness of [jsb_return_round_trip]: a call of a subroutine that
    returns at once. *)
Lemma jsb_return_round_trip_witness :
  pc (v_processor_tick (v_processor_tick machine_call))
  = advance (pc machine_call).
Proof.
  assert (0 ≤ 1) as Hk by lia.
  assert (STACK_SIZE machine_call = 2 ^ 1) as HS by (vm_compute; reflexivity).
  assert (0 ≤ sp machine_call < STACK_SIZE machine_call) as Hsp
    by (rewrite HS; assert (sp machine_call = 0) as -> by (vm_compute; reflexivity); lia).
  assert (Z.land (rom machine_call (pc machine_call)) 3 = 1) as Hj
    by (vm_compute; reflexivity).
  assert (rom (v_processor_tick machine_call)
            (pc (v_processor_tick machine_call)) = op_return) as Hr
    by (vm_compute; reflexivity).
  exact (proj1 (jsb_return_round_trip machine_call
                  (v_processor_tick machine_call) 1 Hk HS Hsp Hj
                  eq_refl eq_refl Hr)).
Defined.

(** Witness of [compare_branch]: after reset A = C = 0, so
    [if a >= c[w]] branches. *)
Lemma compare_branch_witness :
  pc (v_processor_tick machine_compare) = 5.
Proof.
  assert (Z.land (rom machine_compare (pc machine_compare)) 3 = 2) as H1
    by (vm_compute; reflexivity).
  assert (Z.shiftr (rom machine_compare (pc machine_compare)) 5 = 24
          ∧ REG C_REG = REG C_REG) as H2 by (split; vm_compute; reflexivity).
  assert (CARRY (flags machine_compare) = 0) as H3 by (vm_compute; reflexivity).
  assert (DELAYED_ROM (flags machine_compare) = 0) as H4
    by (vm_compute; reflexivity).
  assert (base machine_compare = 10) as Hb by (vm_compute; reflexivity).
  assert (0 < base machine_compare) as H5 by (rewrite Hb; lia).
  assert (field_digits_ok
            (decode_field machine_compare
               (Z.land (Z.shiftr (rom machine_compare (pc machine_compare)) 2) 7))
            (Some (REG A_REG))) as H6
    by (apply field_digits_okb_ok; vm_compute; reflexivity).
  assert (field_digits_ok
            (decode_field machine_compare
               (Z.land (Z.shiftr (rom machine_compare (pc machine_compare)) 2) 7))
            (Some (REG C_REG))) as H7
    by (apply field_digits_okb_ok; vm_compute; reflexivity).
  assert (pc machine_compare = 0) as Hpc by (vm_compute; reflexivity).
  assert (0 ≤ pc machine_compare < ROM_SIZE - 2) as H8
    by (rewrite Hpc; unfold ROM_SIZE; lia).
  assert (rom machine_compare (pc machine_compare + 1) = 5) as Hw
    by (vm_compute; reflexivity).
  assert (0 ≤ rom machine_compare (pc machine_compare + 1) < ROM_SIZE) as H9
    by (rewrite Hw; unfold ROM_SIZE; lia).
  rewrite (proj1 (compare_branch machine_compare (REG C_REG) H1
                    (or_introl H2) H3 H4 H5 H6 H7 H8 H9)).
  vm_compute. reflexivity.
Defined.

(** Witness of [zero_test_branch]: after reset C = 0, so [if c[w] = 0]
    branches. *)
Lemma zero_test_branch_witness :
  pc (v_processor_tick machine_zero_test) = 5.
Proof.
  assert (Z.land (rom machine_zero_test (pc machine_zero_test)) 3 = 2) as H1
    by (vm_compute; reflexivity).
  assert (Z.shiftr (rom machine_zero_test (pc machine_zero_test)) 5 = 23
          ∧ REG C_REG = REG C_REG ∧ true = true) as H2
    by (split; [vm_compute; reflexivity | split; reflexivity]).
  assert (DELAYED_ROM (flags machine_zero_test) = 0) as H4
    by (vm_compute; reflexivity).
  assert (pc machine_zero_test = 0) as Hpc by (vm_compute; reflexivity).
  assert (0 ≤ pc machine_zero_test < ROM_SIZE - 2) as H8
    by (rewrite Hpc; unfold ROM_SIZE; lia).
  assert (rom machine_zero_test (pc machine_zero_test + 1) = 5) as Hw
    by (vm_compute; reflexivity).
  assert (0 ≤ rom machine_zero_test (pc machine_zero_test + 1) < ROM_SIZE) as H9
    by (rewrite Hw; unfold ROM_SIZE; lia).
  rewrite (proj1 (zero_test_branch machine_zero_test (REG C_REG) true H1
                    (or_intror (or_introl H2)) H4 H8 H9)).
  - exact Hw.
  - intros i _. unfold get_nibble.
    assert (nibble (deref machine_zero_test (REG C_REG)) = replicate 14 0)
      as -> by (vm_compute; reflexivity).
    apply (arr_get_Forall (fun v => v = 0)); [|reflexivity].
    apply Forall_replicate. reflexivity.
Defined.

(** The registers of the machine holding 9999 in C are full. *)
Lemma machine_9999_full :
  full_register machine_9999 (REG A_REG) ∧
  full_register machine_9999 (REG C_REG) ∧
  full_register machine_9999 (REG Y_REG) ∧
  full_register machine_9999 (REG Z_REG) ∧
  full_register machine_9999 (REG T_REG).
Proof.
  unfold full_register.
  assert (reg_len machine_9999 (REG A_REG) = 14) as -> by (vm_compute; reflexivity).
  assert (reg_len machine_9999 (REG C_REG) = 14) as -> by (vm_compute; reflexivity).
  assert (reg_len machine_9999 (REG Y_REG) = 14) as -> by (vm_compute; reflexivity).
  assert (reg_len machine_9999 (REG Z_REG) = 14) as -> by (vm_compute; reflexivity).
  assert (reg_len machine_9999 (REG T_REG) = 14) as -> by (vm_compute; reflexivity).
  unfold REG_SIZE. repeat apply conj; lia.
Qed.

(** Witness of [c_to_stack_effect]: pushing 9999. *)
Lemma c_to_stack_effect_witness :
  get_nibble (execute machine_9999 op_c_to_stack) (REG Y_REG) 0
  = get_nibble machine_9999 (REG C_REG) 0.
Proof.
  destruct machine_9999_full as (_ & _ & HY & HZ & HT).
  assert (0 ≤ 0 < REG_SIZE) as H0 by (unfold REG_SIZE; lia).
  exact (proj1 (proj1 (c_to_stack_effect machine_9999 HY HZ HT) 0 H0)).
Defined.

(** Witness of [stack_push_pop]: pushing and popping 9999. *)
Lemma stack_push_pop_witness :
  get_nibble (execute (execute machine_9999 op_c_to_stack) op_stack_to_a)
    (REG A_REG) 0
  = get_nibble machine_9999 (REG C_REG) 0.
Proof.
  destruct machine_9999_full as (HA & _ & HY & HZ & HT).
  assert (0 ≤ 0 < REG_SIZE) as H0 by (unfold REG_SIZE; lia).
  exact (proj1 (proj1 (stack_push_pop machine_9999 HA HY HZ HT) 0 H0)).
Defined.

(** Witness of [down_rotate_effect]: rotating 9999 into T. *)
Lemma down_rotate_effect_witness :
  get_nibble (execute machine_9999 op_down_rotate) (REG T_REG) 0
  = get_nibble machine_9999 (REG C_REG) 0.
Proof.
  destruct machine_9999_full as (_ & HC & HY & HZ & HT).
  assert (0 ≤ 0 < REG_SIZE) as H0 by (unfold REG_SIZE; lia).
  exact (proj2 (proj2 (proj2
    (proj1 (down_rotate_effect machine_9999 HC HY HZ HT) 0 H0)))).
Defined.

(** Witness of [arithmetic_frame]: [a + c -> a[w]] ends with CARRY = 0. *)
Lemma arithmetic_frame_witness :
  CARRY (flags (v_processor_tick machine_add)) = 0.
Proof.
  assert (Z.land (rom machine_add (pc machine_add)) 3 = 2) as H1
    by (vm_compute; reflexivity).
  exact (proj1 (proj2 (proj2 (arithmetic_frame machine_add H1)))).
Defined.

(** Witness of [add_instruction]: 0 + 9999 by [a + c -> a[w]]. *)
Lemma add_instruction_witness :
  reg_value (v_processor_tick machine_add) (REG A_REG) = 9999.
Proof.
  assert (Z.land (rom machine_add (pc machine_add)) 3 = 2) as H1
    by (vm_compute; reflexivity).
  assert (add_operands (Z.shiftr (rom machine_add (pc machine_add)) 5)
          = Some (REG A_REG, REG A_REG, Some (REG C_REG), 0)) as H2
    by (vm_compute; reflexivity).
  assert (CARRY (flags machine_add) = 0) as H3 by (vm_compute; reflexivity).
  assert (base machine_add = 10) as Hb by (vm_compute; reflexivity).
  assert (0 < base machine_add) as H4 by (rewrite Hb; lia).
  assert (first (decode_field machine_add
            (Z.land (Z.shiftr (rom machine_add (pc machine_add)) 2) 7)) = 0)
    as Hf by (vm_compute; reflexivity).
  assert (last (decode_field machine_add
            (Z.land (Z.shiftr (rom machine_add (pc machine_add)) 2) 7)) = 13)
    as Hl by (vm_compute; reflexivity).
  assert (reg_len machine_add (REG A_REG) = 14) as Hn
    by (vm_compute; reflexivity).
  assert (0 ≤ first (decode_field machine_add
            (Z.land (Z.shiftr (rom machine_add (pc machine_add)) 2) 7)))
    as H5 by (rewrite Hf; lia).
  assert (last (decode_field machine_add
            (Z.land (Z.shiftr (rom machine_add (pc machine_add)) 2) 7))
          < reg_len machine_add (REG A_REG)) as H6 by (rewrite Hl, Hn; lia).
  assert (field_digits_ok (decode_field machine_add
            (Z.land (Z.shiftr (rom machine_add (pc machine_add)) 2) 7))
            (Some (REG A_REG))) as H7
    by (apply field_digits_okb_ok; vm_compute; reflexivity).
  assert (field_digits_ok (decode_field machine_add
            (Z.land (Z.shiftr (rom machine_add (pc machine_add)) 2) 7))
            (Some (REG C_REG))) as H8
    by (apply field_digits_okb_ok; vm_compute; reflexivity).
  rewrite (proj1 (add_instruction machine_add (REG A_REG) (REG A_REG)
                    (Some (REG C_REG)) 0 H1 H2 H3 H4 H5 H6 H7 H8)).
  vm_compute. reflexivity.
Defined.

(** Witness of [sub_instruction]: 0 - 1 by [c - 1 -> c[w]] borrows. *)
Lemma sub_instruction_witness :
  PREV_CARRY (flags (v_processor_tick machine_dec)) = 1.
Proof.
  assert (Z.land (rom machine_dec (pc machine_dec)) 3 = 2) as H1
    by (vm_compute; reflexivity).
  assert (sub_operands (Z.shiftr (rom machine_dec (pc machine_dec)) 5)
          = Some (REG C_REG, Some (REG C_REG), None, 1)) as H2
    by (vm_compute; reflexivity).
  assert (CARRY (flags machine_dec) = 0) as H3 by (vm_compute; reflexivity).
  assert (base machine_dec = 10) as Hb by (vm_compute; reflexivity).
  assert (0 < base machine_dec) as H4 by (rewrite Hb; lia).
  assert (first (decode_field machine_dec
            (Z.land (Z.shiftr (rom machine_dec (pc machine_dec)) 2) 7)) = 0)
    as Hf by (vm_compute; reflexivity).
  assert (last (decode_field machine_dec
            (Z.land (Z.shiftr (rom machine_dec (pc machine_dec)) 2) 7)) = 13)
    as Hl by (vm_compute; reflexivity).
  assert (reg_len machine_dec (REG C_REG) = 14) as Hn
    by (vm_compute; reflexivity).
  assert (0 ≤ first (decode_field machine_dec
            (Z.land (Z.shiftr (rom machine_dec (pc machine_dec)) 2) 7)))
    as H5 by (rewrite Hf; lia).
  assert (last (decode_field machine_dec
            (Z.land (Z.shiftr (rom machine_dec (pc machine_dec)) 2) 7))
          < reg_len machine_dec (REG C_REG)) as H6 by (rewrite Hl, Hn; lia).
  assert (field_digits_ok (decode_field machine_dec
            (Z.land (Z.shiftr (rom machine_dec (pc machine_dec)) 2) 7))
            (Some (REG C_REG))) as H7
    by (apply field_digits_okb_ok; vm_compute; reflexivity).
  assert (field_digits_ok (decode_field machine_dec
            (Z.land (Z.shiftr (rom machine_dec (pc machine_dec)) 2) 7))
            None) as H8
    by (apply field_digits_okb_ok; vm_compute; reflexivity).
  rewrite (proj1 (proj2 (sub_instruction machine_dec (REG C_REG)
                    (Some (REG C_REG)) None 1 H1 H2 H3 H4 H5 H6 H7 H8))).
  vm_compute. reflexivity.
Defined.

(** Witness of [page_branch]: the call of the subroutine at address 2. *)
Lemma page_branch_witness : pc (v_processor_tick machine_call) = 2.
Proof.
  assert (rom machine_call (pc machine_call) = 9) as Hop
    by (vm_compute; reflexivity).
  assert (0 ≤ rom machine_call (pc machine_call) < 1024) as H1
    by (rewrite Hop; lia).
  assert (pc machine_call = 0) as Hpc by (vm_compute; reflexivity).
  assert (0 ≤ pc machine_call < ROM_SIZE) as H2
    by (rewrite Hpc; unfold ROM_SIZE; lia).
  assert (DELAYED_ROM (flags machine_call) = 0) as H3
    by (vm_compute; reflexivity).
  assert (Z.land (rom machine_call (pc machine_call)) 3 = 1) as H4
    by (vm_compute; reflexivity).
  rewrite (proj1 (proj1 (page_branch machine_call H1 H2 H3) H4)).
  rewrite Hop, Hpc. reflexivity.
Defined.

(** A processor straight after reset, with a ROM of 10-bit words, is
    inside the arrays. *)
Lemma fresh_in_bounds l :
  Forall (fun w => 0 ≤ w < 1024) l → in_bounds (fresh l).
Proof.
  intros Hl.
  assert (machine_bounds (fresh l)) as Hb.
  { apply fresh_bounds. eapply Forall_impl; [exact Hl|].
    intros w Hw. cbv beta in Hw. lia. }
  assert (pc (fresh l) = 0) as Hpc by (vm_compute; reflexivity).
  assert (reg (fresh l)
          = (fun i => mk_register ((Z.of_nat i + 1) * -1) (replicate 14 0))
              <$> seq 0 8) as Hreg by (vm_compute; reflexivity).
  assert (ram (fresh l)
          = (fun i => mk_register (Z.of_nat i) (replicate 14 0))
              <$> seq 0 20) as Hram by (vm_compute; reflexivity).
  assert (status (fresh l) = [0; 0; 0; 1; 0; 1; 0; 0; 0; 0; 0; 0; 0; 0; 0; 0])
    as Hst by (vm_compute; reflexivity).
  assert (rom (fresh l) = rom_of l) as Hrom by (vm_compute; reflexivity).
  split; [exact Hb|]. clear Hb.
  unfold well_shaped, full_file. rewrite Hpc, Hreg, Hram, Hst, Hrom.
  clear Hpc Hreg Hram Hst Hrom.
  split; [unfold ROM_SIZE; lia|]. split.
  - split; [rewrite length_fmap, length_seq; lia|].
    split; [|split; [|cbn [length]; lia]];
      apply Forall_fmap, Forall_true; intros i; unfold compose;
      cbn [nibble]; rewrite length_replicate; unfold REG_SIZE; lia.
  - intros a. unfold rom_of.
    apply (arr_get_Forall (fun w => w < 1024)); [|lia].
    eapply Forall_impl; [exact Hl|]. intros w Hw. cbv beta in Hw. lia.
Qed.

(** The words of the program that enters 9999 and increments it. *)
Lemma program_9999_words :
  Forall (fun w => 0 ≤ w < 1024)
    [op_set_p 9; op_load 9; op_load 9; op_load 9; op_load 9; op_c_inc_w].
Proof. repeat constructor; vm_compute; congruence. Qed.

Lemma program_9999_loads n :
  (n ≤ 6)%nat →
  loads_in_range n
    (fresh [op_set_p 9; op_load 9; op_load 9; op_load 9; op_load 9;
            op_c_inc_w]).
Proof.
  intros Hn k Hk _.
  destruct k as [|[|[|[|[|[|k]]]]]]; [..|lia]; clear; vm_compute; reflexivity.
Qed.

(** Witness of [run_bounds]: the five ticks that enter 9999. *)
Lemma run_bounds_witness : 0 ≤ pc machine_9999 < ROM_SIZE.
Proof.
  assert (5 ≤ 6)%nat as H5 by lia.
  exact (proj1 (proj2 (run_bounds 5 _ (fresh_in_bounds _ program_9999_words)
                         (program_9999_loads 5 H5)))).
Defined.

(** Witness of [run_decimal]: the program that enters 9999 and
    increments it. *)
Lemma run_decimal_witness :
  base (run 6 (fresh [op_set_p 9; op_load 9; op_load 9; op_load 9;
                      op_load 9; op_c_inc_w])) = 10.
Proof.
  assert (base (fresh [op_set_p 9; op_load 9; op_load 9; op_load 9;
                       op_load 9; op_c_inc_w]) = 10) as Hb
    by (vm_compute; reflexivity).
  assert (Forall (fun w => w ≠ op_binary ∧
                           (is_load w → Z.shiftr w 6 < 10))
            [op_set_p 9; op_load 9; op_load 9; op_load 9; op_load 9;
             op_c_inc_w]) as Hl.
  { repeat constructor; try (intros E; discriminate E);
      try (vm_compute; reflexivity);
      intros (E & _); vm_compute in E; discriminate E. }
  assert (0 ≠ op_binary ∧ (is_load 0 → Z.shiftr 0 6 < 10)) as H0
    by (split; [intros E; discriminate E | intros _; reflexivity]).
  assert (6 ≤ 6)%nat as H6 by lia.
  exact (proj1 (proj2 (run_decimal 6 _
    (fresh_in_bounds _ program_9999_words) (program_9999_loads 6 H6)
    (fresh_digits_ok _) Hb
    (fun a => proj1 (arr_get_Forall
                       (fun w => w ≠ op_binary ∧
                                 (is_load w → Z.shiftr w 6 < 10))
                       _ a Hl H0))
    (fun a => proj2 (arr_get_Forall
                       (fun w => w ≠ op_binary ∧
                                 (is_load w → Z.shiftr w 6 < 10))
                       _ a Hl H0))))).
Defined.

(** Witness of C4 (amended): [decimal] run in base 16, straight after
    [binary], with every nibble still 0. *)
Lemma C4_digits_in_base_witness :
  registers_in_base (v_processor_tick machine_binary).
Proof.
  assert (Forall (fun w => 0 ≤ w < 1024) [op_binary; op_decimal]) as Hw
    by (repeat constructor; vm_compute; congruence).
  assert (in_bounds machine_binary) as Hin
    by (apply v_processor_tick_in_bounds, fresh_in_bounds, Hw).
  assert (digits_ok machine_binary) as Hd.
  { unfold machine_binary, v_processor_tick. cbv zeta.
    apply v_op_inc_pc_ok, execute_ok.
    - apply fresh_digits_ok.
    - intros E. vm_compute in E. discriminate E.
    - intros (_ & E & _). vm_compute in E. discriminate E. }
  assert (rom machine_binary (pc machine_binary) = op_decimal →
          decimal_digits machine_binary) as Hdec.
  { intros _. unfold decimal_digits, nibbles_in_base.
    assert (reg machine_binary
            = (fun i => mk_register ((Z.of_nat i + 1) * -1) (replicate 14 0))
                <$> seq 0 8) as -> by (vm_compute; reflexivity).
    assert (ram machine_binary
            = (fun i => mk_register (Z.of_nat i) (replicate 14 0))
                <$> seq 0 20) as -> by (vm_compute; reflexivity).
    split; apply Forall_fmap, Forall_true; intros i;
      apply Forall_replicate; lia. }
  assert (is_load (rom machine_binary (pc machine_binary)) →
          p machine_binary < REG_SIZE ∧
          Z.shiftr (rom machine_binary (pc machine_binary)) 6
          < base machine_binary) as Hload
    by (intros (_ & _ & E); vm_compute in E; discriminate E).
  exact (proj1 (C4_digits_in_base machine_binary Hin Hd Hdec Hload)).
Defined.
